(** * Ynvisible electrochromic display driver (Driver v5): model and properties

    Shallow embedding of [src/YnvisibleECD.cpp].  The driver object is a
    record, the Arduino primitives ([pinMode], [digitalWrite], [analogRead],
    [analogWrite], [delay]) append to a trace of hardware events, and every
    method is a computation in a small state monad with an early [return].

    What is not in the source file and is therefore taken as a parameter:
    the macros [PIN_CE], [ADC_DAC_RESOLUTION], [ADC_DAC_MAX_LSB] and
    [MAX_REFRESH_RETRIES] of [YnvisibleECD.h].  [Serial] output is
    diagnostic only and is left out of the trace. *)

From Stdlib Require Import ZArith QArith Lia List Lqa.
From stdpp Require Import base list.

Local Open Scope Z_scope.

(** ** Data model *)

(** Modelled from the spec: the header with [SEGMENT_STATE_BLEACH],
    [SEGMENT_STATE_COLOR] and [SEGMENT_STATE_UNDEFINED] is missing; section 3
    of the specification gives the three values.  The [bool] argument of
    [setSegmentState] selects between the first two ([begin] passes [true]
    to color and [false] to bleach). *)
Inductive SegState : Type :=
  | SEGMENT_STATE_BLEACH
  | SEGMENT_STATE_COLOR
  | SEGMENT_STATE_UNDEFINED.

#[global] Instance SegState_eq_dec : EqDecision SegState.
Proof. solve_decision. Defined.

#[global] Instance SegState_inhabited : Inhabited SegState :=
  populate SEGMENT_STATE_UNDEFINED.

Definition stateOfBool (t_state : bool) : SegState :=
  if t_state then SEGMENT_STATE_COLOR else SEGMENT_STATE_BLEACH.

(** Logic level written by [digitalWrite(pin, state)]: zero is LOW, anything
    else is HIGH. *)
Definition levelOfState (s : SegState) : bool :=
  match s with
  | SEGMENT_STATE_BLEACH => false
  | _ => true
  end.

Definition LOW : bool := false.
Definition HIGH : bool := true.

Inductive PinMode : Type := INPUT | OUTPUT.

(** Modelled from the spec: the Configuration record of section 3 (its
    declaration is in the missing header).  Voltages are the [float]s that
    [enableCounterElectrode] receives, idealised as exact rationals; times
    are the integer arguments of [delay]. *)
Record Config : Type := mkConfig {
  coloringVoltage : Q;
  bleachingVoltage : Q;
  coloringTime : Z;
  bleachingTime : Z;
  refreshColoringVoltage : Q;
  refreshBleachingVoltage : Q;
  refreshColorPulseTime : Z;
  refreshBleachPulseTime : Z;
  refreshColorLimitHVoltage : Q;
  refreshColorLimitLVoltage : Q;
  refreshBleachLimitHVoltage : Q;
  refreshBleachLimitLVoltage : Q
}.

(** The members of [YNV_ECD].  The three per-segment arrays are lists
    indexed by segment. *)
Record Driver : Type := mkDriver {
  m_counterElectrodePin : Z;
  m_numberOfSegments : Z;
  m_segmentPinsList : list Z;
  m_currentState : list SegState;
  m_nextState : list SegState;
  m_refreshSegmentNeeded : list bool;
  m_supplyVoltage : Q;
  m_cfg : Config;
  m_refreshColorLimitH : Q;
  m_refreshColorLimitL : Q;
  m_refreshBleachLimitH : Q;
  m_refreshBleachLimitL : Q;
  m_stopDrivingFlag : bool
}.

Definition set_counterElectrodePin (v : Z) (d : Driver) : Driver :=
  mkDriver v (m_numberOfSegments d) (m_segmentPinsList d) (m_currentState d)
    (m_nextState d) (m_refreshSegmentNeeded d) (m_supplyVoltage d) (m_cfg d)
    (m_refreshColorLimitH d) (m_refreshColorLimitL d)
    (m_refreshBleachLimitH d) (m_refreshBleachLimitL d) (m_stopDrivingFlag d).

Definition set_numberOfSegments (v : Z) (d : Driver) : Driver :=
  mkDriver (m_counterElectrodePin d) v (m_segmentPinsList d) (m_currentState d)
    (m_nextState d) (m_refreshSegmentNeeded d) (m_supplyVoltage d) (m_cfg d)
    (m_refreshColorLimitH d) (m_refreshColorLimitL d)
    (m_refreshBleachLimitH d) (m_refreshBleachLimitL d) (m_stopDrivingFlag d).

Definition set_segmentPinsList (v : list Z) (d : Driver) : Driver :=
  mkDriver (m_counterElectrodePin d) (m_numberOfSegments d) v (m_currentState d)
    (m_nextState d) (m_refreshSegmentNeeded d) (m_supplyVoltage d) (m_cfg d)
    (m_refreshColorLimitH d) (m_refreshColorLimitL d)
    (m_refreshBleachLimitH d) (m_refreshBleachLimitL d) (m_stopDrivingFlag d).

Definition set_currentState (v : list SegState) (d : Driver) : Driver :=
  mkDriver (m_counterElectrodePin d) (m_numberOfSegments d)
    (m_segmentPinsList d) v
    (m_nextState d) (m_refreshSegmentNeeded d) (m_supplyVoltage d) (m_cfg d)
    (m_refreshColorLimitH d) (m_refreshColorLimitL d)
    (m_refreshBleachLimitH d) (m_refreshBleachLimitL d) (m_stopDrivingFlag d).

Definition set_nextState (v : list SegState) (d : Driver) : Driver :=
  mkDriver (m_counterElectrodePin d) (m_numberOfSegments d)
    (m_segmentPinsList d) (m_currentState d)
    v (m_refreshSegmentNeeded d) (m_supplyVoltage d) (m_cfg d)
    (m_refreshColorLimitH d) (m_refreshColorLimitL d)
    (m_refreshBleachLimitH d) (m_refreshBleachLimitL d) (m_stopDrivingFlag d).

Definition set_refreshSegmentNeeded (v : list bool) (d : Driver) : Driver :=
  mkDriver (m_counterElectrodePin d) (m_numberOfSegments d)
    (m_segmentPinsList d) (m_currentState d)
    (m_nextState d) v (m_supplyVoltage d) (m_cfg d)
    (m_refreshColorLimitH d) (m_refreshColorLimitL d)
    (m_refreshBleachLimitH d) (m_refreshBleachLimitL d) (m_stopDrivingFlag d).

Definition set_supplyVoltage (v : Q) (d : Driver) : Driver :=
  mkDriver (m_counterElectrodePin d) (m_numberOfSegments d)
    (m_segmentPinsList d) (m_currentState d)
    (m_nextState d) (m_refreshSegmentNeeded d) v (m_cfg d)
    (m_refreshColorLimitH d) (m_refreshColorLimitL d)
    (m_refreshBleachLimitH d) (m_refreshBleachLimitL d) (m_stopDrivingFlag d).

Definition set_refreshLimits (ch cl bh bl : Q) (d : Driver) : Driver :=
  mkDriver (m_counterElectrodePin d) (m_numberOfSegments d)
    (m_segmentPinsList d) (m_currentState d)
    (m_nextState d) (m_refreshSegmentNeeded d) (m_supplyVoltage d) (m_cfg d)
    ch cl bh bl (m_stopDrivingFlag d).

Definition set_stopDrivingFlag (v : bool) (d : Driver) : Driver :=
  mkDriver (m_counterElectrodePin d) (m_numberOfSegments d)
    (m_segmentPinsList d) (m_currentState d)
    (m_nextState d) (m_refreshSegmentNeeded d) (m_supplyVoltage d) (m_cfg d)
    (m_refreshColorLimitH d) (m_refreshColorLimitL d)
    (m_refreshBleachLimitH d) (m_refreshBleachLimitL d) v.

(** ** Hardware trace and environment *)

Inductive Event : Type :=
  | EvPinMode (pin : Z) (mode : PinMode)
  | EvDigitalWrite (pin : Z) (level : bool)
  | EvAnalogRead (pin : Z) (sample : Z)
  | EvAnalogWrite (pin : Z) (value : Z)
  | EvDelay (ms : Z)
  | EvAnalogReadResolution (bits : Z)
  | EvAnalogWriteResolution (bits : Z).

#[global] Instance PinMode_eq_dec : EqDecision PinMode.
Proof. solve_decision. Defined.

#[global] Instance Event_eq_dec : EqDecision Event.
Proof. solve_decision. Defined.

(** The world outside the driver.  [irq k] tells whether an interrupt
    handler has called [setStopDrivingFlag()] by the time the running method
    tests [m_stopDrivingFlag] for the [k]-th time; [adc t pin] is the sample
    [analogRead(pin)] delivers when [t] hardware events have happened. *)
Record Env : Type := mkEnv {
  irq : nat -> bool;
  adc : nat -> Z -> Z
}.

(** [events] holds the trace, newest event first; [polls] counts the tests
    of the stop flag made so far. *)
Record World : Type := mkWorld {
  drv : Driver;
  events : list Event;
  polls : nat
}.

Definition trace (w : World) : list Event := rev (events w).

(** ** The monad of driver methods *)

(** Which [return] statement left the method early. *)
Inductive ReturnSite : Type := StopRequested | NoRefreshNeeded.

Inductive Outcome (A : Type) : Type :=
  | Done (a : A)
  | Returned (site : ReturnSite)
  | OutOfFuel.
Arguments Done {A} a.
Arguments Returned {A} site.
Arguments OutOfFuel {A}.

Definition M (A : Type) : Type := World -> Outcome A * World.

Definition ret {A} (a : A) : M A := fun w => (Done a, w).

Definition bind {A B} (m : M A) (k : A -> M B) : M B :=
  fun w =>
    match m w with
    | (Done a, w') => k a w'
    | (Returned s, w') => (Returned s, w')
    | (OutOfFuel, w') => (OutOfFuel, w')
    end.

Declare Scope drv_scope.
Delimit Scope drv_scope with drv.
Notation "x <- c1 ;; c2" := (bind c1 (fun x => c2))
  (at level 100, c1 at next level, c2 at level 200, right associativity)
  : drv_scope.
Notation "c1 ;; c2" := (bind c1 (fun _ => c2))
  (at level 100, c2 at level 200, right associativity) : drv_scope.
Local Open Scope drv_scope.

Definition returnFrom {A} (s : ReturnSite) : M A := fun w => (Returned s, w).

Definition outOfFuel {A} : M A := fun w => (OutOfFuel, w).

(** A call of a [void] method: a [return] inside it ends the callee only. *)
Definition call (m : M unit) : M unit :=
  fun w =>
    match m w with
    | (Returned _, w') => (Done tt, w')
    | r => r
    end.

Definition get : M Driver := fun w => (Done (drv w), w).

Definition modify (f : Driver -> Driver) : M unit :=
  fun w => (Done tt, mkWorld (f (drv w)) (events w) (polls w)).

Definition emit (e : Event) : M unit :=
  fun w => (Done tt, mkWorld (drv w) (e :: events w) (polls w)).

(** [for (int i = 0; i < n; i++)] over the listed indices, threading the
    local variables [s] the body assigns. *)
Fixpoint forEach {S : Type} (l : list nat) (body : nat -> S -> M S) (s : S)
  : M S :=
  match l with
  | [] => ret s
  | i :: l' => s' <- body i s ;; forEach l' body s'
  end.

Definition segmentIndices (d : Driver) : list nat :=
  seq 0 (Z.to_nat (m_numberOfSegments d)).

Definition forSegments {S : Type} (body : nat -> S -> M S) (s : S) : M S :=
  d <- get ;; forEach (segmentIndices d) body s.

(** [int(x)] of a [float]: truncation toward zero. *)
Definition truncQ (q : Q) : Z := Z.quot (Qnum q) (Z.pos (Qden q)).

Definition Qltb (a b : Q) : bool := negb (Qle_bool b a).

Definition setStopDrivingFlag_d (d : Driver) : Driver :=
  set_stopDrivingFlag true d.

Definition pendingTo (target : SegState) (d : Driver) (i : nat) : bool :=
  bool_decide (m_nextState d !!! i <> m_currentState d !!! i)
  && bool_decide (m_nextState d !!! i = target).

Definition markCurrent (i : nat) (d : Driver) : Driver :=
  set_currentState (<[i := m_nextState d !!! i]> (m_currentState d)) d.

Definition markRefreshNeeded (i : nat) (d : Driver) : Driver :=
  set_refreshSegmentNeeded (<[i := true]> (m_refreshSegmentNeeded d)) d.

Section Driver.

(** Macros of the missing header. *)
Variable PIN_CE : Z.
Variable ADC_DAC_RESOLUTION : Z.
Variable ADC_DAC_MAX_LSB : Z.
Variable MAX_REFRESH_RETRIES : Z.

Variable env : Env.

(** *** Arduino primitives *)

Definition pinMode (pin : Z) (mode : PinMode) : M unit :=
  emit (EvPinMode pin mode).

Definition digitalWrite (pin : Z) (level : bool) : M unit :=
  emit (EvDigitalWrite pin level).

Definition analogWrite (pin : Z) (value : Z) : M unit :=
  emit (EvAnalogWrite pin value).

Definition delay (ms : Z) : M unit := emit (EvDelay ms).

Definition analogRead (pin : Z) : M Z :=
  fun w =>
    let v := adc env (length (events w)) pin in
    (Done v, mkWorld (drv w) (EvAnalogRead pin v :: events w) (polls w)).

(** [if(m_stopDrivingFlag == true){ ...; return; }].  An interrupt that
    arrived since the previous test has run [setStopDrivingFlag()]. *)
Definition stopCheck : M unit :=
  fun w =>
    let d := if irq env (polls w) then setStopDrivingFlag_d (drv w)
             else drv w in
    let w' := mkWorld d (events w) (S (polls w)) in
    if m_stopDrivingFlag d then (Returned StopRequested, w') else (Done tt, w').

(** *** Private methods *)

Definition updateRefreshLimits : M unit :=
  modify (fun d =>
    let sv := m_supplyVoltage d in
    let c := m_cfg d in
    let lsb := inject_Z ADC_DAC_MAX_LSB in
    set_refreshLimits
      (((sv - refreshColoringVoltage c) + refreshColorLimitHVoltage c)
         * lsb / sv)%Q
      ((sv / 2 + refreshColorLimitLVoltage c) * lsb / sv)%Q
      ((sv / 2 - refreshBleachLimitHVoltage c) * lsb / sv)%Q
      ((refreshBleachingVoltage c - refreshBleachLimitLVoltage c)
         * lsb / sv)%Q
      d).

Definition disableSegment (i : nat) (_ : unit) : M unit :=
  d <- get ;;
  pinMode (m_segmentPinsList d !!! i) INPUT.

Definition disableAllSegments : M unit := forSegments disableSegment tt.

Definition enableCounterElectrode (t_voltage : Q) : M unit :=
  d <- get ;;
  analogWrite (m_counterElectrodePin d)
    (truncQ (inject_Z ADC_DAC_MAX_LSB * (t_voltage / m_supplyVoltage d))%Q) ;;
  delay 50.

Definition disableCounterElectrode : M unit :=
  d <- get ;;
  analogWrite (m_counterElectrodePin d) 0.

(** *** Public methods *)

Definition setSegmentState (t_segment : nat) (t_state : bool) : M unit :=
  modify (fun d =>
    set_nextState (<[t_segment := stateOfBool t_state]> (m_nextState d)) d).

(** Body of the two [for] loops of [executeDisplay] (lines 83-104 with
    [SEGMENT_STATE_BLEACH], lines 124-144 with [SEGMENT_STATE_COLOR]); the
    threaded local is [isDelayRequired]. *)
Definition driveSegment (target : SegState) (i : nat) (isDelayRequired : bool)
  : M bool :=
  stopCheck ;;
  d <- get ;;
  if pendingTo target d i then
    pinMode (m_segmentPinsList d !!! i) OUTPUT ;;
    digitalWrite (m_segmentPinsList d !!! i)
      (levelOfState (m_nextState d !!! i)) ;;
    modify (markCurrent i) ;;
    ret true
  else ret isDelayRequired.

(** [if(isDelayRequired == true){ stop test; delay(ms); }] *)
Definition holdIfRequired (isDelayRequired : bool) (ms : Z) : M unit :=
  if isDelayRequired then stopCheck ;; delay ms else ret tt.

(** First [for] loop of [refreshDisplay] (lines 199-223); the threaded
    locals are [(refresh_color_needed, refresh_bleach_needed)]. *)
Definition classifySegment (i : nat) (needed : bool * bool)
  : M (bool * bool) :=
  stopCheck ;;
  d <- get ;;
  pinMode (m_segmentPinsList d !!! i) INPUT ;;
  analog_val <- analogRead (m_segmentPinsList d !!! i) ;;
  if bool_decide (m_currentState d !!! i = SEGMENT_STATE_COLOR)
     && Qltb (inject_Z analog_val) (m_refreshColorLimitL d) then
    modify (markRefreshNeeded i) ;;
    ret (true, snd needed)
  else if bool_decide (m_currentState d !!! i = SEGMENT_STATE_BLEACH)
          && Qltb (m_refreshBleachLimitH d) (inject_Z analog_val) then
    modify (markRefreshNeeded i) ;;
    ret (fst needed, true)
  else ret needed.

(** Pulse loops (lines 271-282 and 362-373). *)
Definition pulseSegment (phase : SegState) (level : bool) (i : nat)
  (_ : unit) : M unit :=
  stopCheck ;;
  d <- get ;;
  if bool_decide (m_currentState d !!! i = phase)
     && bool_decide (m_refreshSegmentNeeded d !!! i = true) then
    pinMode (m_segmentPinsList d !!! i) OUTPUT ;;
    digitalWrite (m_segmentPinsList d !!! i) level
  else ret tt.

(** Re-sampling loops (lines 295-314 and 386-405); [outOfRange] is the
    comparison of the sample with the loop's limit and the threaded local
    is [refresh_bleach_needed], respectively [refresh_color_needed]. *)
Definition resampleSegment (phase : SegState) (outOfRange : Z -> bool)
  (retries : Z) (i : nat) (needed : bool) : M bool :=
  stopCheck ;;
  d <- get ;;
  if bool_decide (m_currentState d !!! i = phase)
     && (retries <? MAX_REFRESH_RETRIES) then
    pinMode (m_segmentPinsList d !!! i) INPUT ;;
    analog_val <- analogRead (m_segmentPinsList d !!! i) ;;
    if outOfRange analog_val then
      modify (markRefreshNeeded i) ;;
      ret true
    else ret needed
  else ret needed.

(** [while (needed) { needed = body; retries++; }]: the shape shared by the
    two retry loops.  [fuel] bounds the number of iterations the model
    follows. *)
Fixpoint whileNeeded (fuel : nat) (iteration : Z -> M bool) (needed : bool)
  (retries : Z) : M unit :=
  if needed then
    match fuel with
    | O => outOfFuel
    | S fuel' =>
        needed' <- iteration retries ;;
        whileNeeded fuel' iteration needed' (retries + 1)
    end
  else ret tt.

(** Body of [while (refresh_bleach_needed)], lines 264-320; the result is
    the value of [refresh_bleach_needed] at the end of the iteration. *)
Definition refreshBleachIteration (retries : Z) : M bool :=
  stopCheck ;;
  forSegments (pulseSegment SEGMENT_STATE_BLEACH LOW) tt ;;
  d <- get ;;
  delay (refreshBleachPulseTime (m_cfg d)) ;;
  disableAllSegments ;;
  stopCheck ;;
  needed <- forSegments
    (resampleSegment SEGMENT_STATE_BLEACH
       (fun v => Qltb (m_refreshBleachLimitL d) (inject_Z v)) retries)
    false ;;
  delay 500 ;;
  ret needed.

(** Body of [while (refresh_color_needed)], lines 354-411; [currentLimit]
    is the local copy of [m_refreshColorLimitH] taken on line 326. *)
Definition refreshColorIteration (currentLimit : Q) (retries : Z) : M bool :=
  stopCheck ;;
  forSegments (pulseSegment SEGMENT_STATE_COLOR HIGH) tt ;;
  d <- get ;;
  delay (refreshColorPulseTime (m_cfg d)) ;;
  stopCheck ;;
  disableAllSegments ;;
  needed <- forSegments
    (resampleSegment SEGMENT_STATE_COLOR
       (fun v => Qltb (inject_Z v) currentLimit) retries)
    false ;;
  delay 500 ;;
  ret needed.

Definition refreshDisplay (fuel : nat) : M unit :=
  stopCheck ;;
  d <- get ;;
  enableCounterElectrode (m_supplyVoltage d / 2)%Q ;;
  disableAllSegments ;;
  needed <- forSegments classifySegment (false, false) ;;
  stopCheck ;;
  if negb (snd needed || fst needed) then returnFrom NoRefreshNeeded
  else
    d <- get ;;
    enableCounterElectrode (refreshBleachingVoltage (m_cfg d)) ;;
    whileNeeded fuel refreshBleachIteration (snd needed) 0 ;;
    d <- get ;;
    enableCounterElectrode
      (m_supplyVoltage d - refreshColoringVoltage (m_cfg d))%Q ;;
    whileNeeded fuel (refreshColorIteration (m_refreshColorLimitH d))
      (fst needed) 0 ;;
    disableCounterElectrode.

(** One phase of [executeDisplay]: lines 76-116 with the bleach values,
    lines 118-155 with the color values. *)
Definition drivePhase (target : SegState) (t_voltage : Q) (ms : Z) : M unit :=
  enableCounterElectrode t_voltage ;;
  isDelayRequired <- forSegments (driveSegment target) false ;;
  holdIfRequired isDelayRequired ms ;;
  disableAllSegments.

(** [executeDisplay] up to the call of [refreshDisplay] (lines 74-157). *)
Definition driveDisplay : M unit :=
  d <- get ;;
  drivePhase SEGMENT_STATE_BLEACH (bleachingVoltage (m_cfg d))
    (bleachingTime (m_cfg d)) ;;
  d <- get ;;
  drivePhase SEGMENT_STATE_COLOR
    (m_supplyVoltage d - coloringVoltage (m_cfg d))%Q
    (coloringTime (m_cfg d)) ;;
  disableCounterElectrode.

Definition executeDisplay (fuel : nat) : M unit :=
  driveDisplay ;;
  call (refreshDisplay fuel) ;;
  stopCheck.

Definition setAllSegments (t_state : bool) : M unit :=
  forSegments (fun i _ => setSegmentState i t_state) tt.

Definition begin (fuel : nat) : M unit :=
  setAllSegments true ;;
  call (executeDisplay fuel) ;;
  setAllSegments false ;;
  call (executeDisplay fuel).

Definition updateSupplyVoltage (t_supplyVoltage : Z) : M unit :=
  modify (set_supplyVoltage (inject_Z t_supplyVoltage)) ;;
  updateRefreshLimits.

Definition setStopDrivingFlag : M unit := modify (set_stopDrivingFlag true).

Definition clearStopDriving : M unit := modify (set_stopDrivingFlag false).

Definition setAllSegmentsBleach : M unit := setAllSegments false.

(** The constructor, run on the object's storage as it is found. *)
Definition constructSegment (t_segments : list Z) (i : nat) (_ : unit)
  : M unit :=
  modify (fun d =>
    set_segmentPinsList (<[i := t_segments !!! i]> (m_segmentPinsList d)) d) ;;
  d <- get ;;
  pinMode (m_segmentPinsList d !!! i) INPUT ;;
  modify (fun d =>
    set_currentState (<[i := SEGMENT_STATE_UNDEFINED]> (m_currentState d)) d) ;;
  modify (fun d =>
    set_nextState (<[i := SEGMENT_STATE_UNDEFINED]> (m_nextState d)) d).

Definition YNV_ECD (t_numberOfSegments : Z) (t_segments : list Z) : M unit :=
  modify (set_counterElectrodePin PIN_CE) ;;
  d <- get ;;
  pinMode (m_counterElectrodePin d) OUTPUT ;;
  modify (set_numberOfSegments t_numberOfSegments) ;;
  emit (EvAnalogReadResolution ADC_DAC_RESOLUTION) ;;
  emit (EvAnalogWriteResolution ADC_DAC_RESOLUTION) ;;
  forSegments (constructSegment t_segments) tt.

End Driver.

(** ** Vocabulary of the properties *)

Definition numSegments (d : Driver) : nat := Z.to_nat (m_numberOfSegments d).

Definition pinOf (d : Driver) (i : nat) : Z := m_segmentPinsList d !!! i.

(** The arrays hold at least [m_numberOfSegments] entries. *)
Definition wellFormed (d : Driver) : Prop :=
  (numSegments d <= length (m_segmentPinsList d))%nat
  /\ (numSegments d <= length (m_currentState d))%nat
  /\ (numSegments d <= length (m_nextState d))%nat
  /\ (numSegments d <= length (m_refreshSegmentNeeded d))%nat.

(** No two segments share a pin. *)
Definition distinctPins (d : Driver) : Prop :=
  forall i j : nat,
    (i < numSegments d)%nat -> (j < numSegments d)%nat ->
    pinOf d i = pinOf d j -> i = j.

(** The driver without the two members [refreshDisplay] may write. *)
Definition core (d : Driver) : Driver :=
  set_stopDrivingFlag false (set_refreshSegmentNeeded [] d).

Fixpoint countEvents (f : Event -> bool) (l : list Event) : nat :=
  match l with
  | [] => O
  | e :: l' => ((if f e then 1 else 0) + countEvents f l')%nat
  end.

Definition isDigitalWriteOn (pin : Z) (e : Event) : bool :=
  match e with
  | EvDigitalWrite p _ => Z.eqb p pin
  | _ => false
  end.

Definition isAnalogReadOn (pin : Z) (e : Event) : bool :=
  match e with
  | EvAnalogRead p _ => Z.eqb p pin
  | _ => false
  end.

(** Number of times a pin has been driven, and sampled, so far. *)
Definition pulsesOn (pin : Z) (w : World) : nat :=
  countEvents (isDigitalWriteOn pin) (events w).

Definition samplesOn (pin : Z) (w : World) : nat :=
  countEvents (isAnalogReadOn pin) (events w).

(** Value of the most recent [analogWrite] on a pin, if any. *)
Fixpoint lastAnalogWrite (pin : Z) (evs : list Event) : option Z :=
  match evs with
  | [] => None
  | EvAnalogWrite p v :: evs' =>
      if Z.eqb p pin then Some v else lastAnalogWrite pin evs'
  | _ :: evs' => lastAnalogWrite pin evs'
  end.



(** *** The drive phases of [executeDisplay], as functions of the driver *)

(** One iteration of a drive loop on the driver's members. *)
Definition driveStep (target : SegState) (d : Driver) (i : nat) : Driver :=
  if pendingTo target d i then markCurrent i d else d.

Definition applyPhase (target : SegState) (l : list nat) (d : Driver)
  : Driver :=
  foldl (driveStep target) d l.

Definition transitionEvents (d : Driver) (i : nat) : list Event :=
  [EvPinMode (pinOf d i) OUTPUT;
   EvDigitalWrite (pinOf d i) (levelOfState (m_nextState d !!! i))].

Fixpoint phaseEvents (target : SegState) (l : list nat) (d : Driver)
  : list Event :=
  match l with
  | [] => []
  | i :: l' =>
      (if pendingTo target d i then transitionEvents d i else [])
      ++ phaseEvents target l' (driveStep target d i)
  end.

Fixpoint phaseDelay (target : SegState) (l : list nat) (d : Driver)
  (isDelayRequired : bool) : bool :=
  match l with
  | [] => isDelayRequired
  | i :: l' =>
      phaseDelay target l' (driveStep target d i)
        (if pendingTo target d i then true else isDelayRequired)
  end.

(** Segments a phase has to transition, in the order the loop meets them. *)
Definition plan (target : SegState) (d : Driver) : list nat :=
  List.filter (pendingTo target d) (segmentIndices d).

Definition holdEvents (pl : list nat) (ms : Z) : list Event :=
  match pl with
  | [] => []
  | _ => [EvDelay ms]
  end.

Definition floatEvents (d : Driver) : list Event :=
  map (fun i => EvPinMode (pinOf d i) INPUT) (segmentIndices d).

Definition counterElectrodeEvents (ADC_DAC_MAX_LSB : Z) (d : Driver)
  (t_voltage : Q) : list Event :=
  [EvAnalogWrite (m_counterElectrodePin d)
     (truncQ (inject_Z ADC_DAC_MAX_LSB * (t_voltage / m_supplyVoltage d))%Q);
   EvDelay 50].

(** Events of one drive phase that runs to its end. *)
Definition phaseTrace (ADC_DAC_MAX_LSB : Z) (target : SegState)
  (t_voltage : Q) (ms : Z) (d : Driver) : list Event :=
  counterElectrodeEvents ADC_DAC_MAX_LSB d t_voltage
  ++ flat_map (transitionEvents d) (plan target d)
  ++ holdEvents (plan target d) ms
  ++ floatEvents d.

(** The driver as the bleach phase leaves it when it runs to its end. *)
Definition afterBleach (d : Driver) : Driver :=
  applyPhase SEGMENT_STATE_BLEACH (segmentIndices d) d.

(** The driver as both phases leave it. *)
Definition afterDrive (d : Driver) : Driver :=
  applyPhase SEGMENT_STATE_COLOR (segmentIndices d) (afterBleach d).

(** Events of [executeDisplay] before it calls [refreshDisplay], when no
    stop is requested. *)
Definition driveTrace (ADC_DAC_MAX_LSB : Z) (d : Driver) : list Event :=
  phaseTrace ADC_DAC_MAX_LSB SEGMENT_STATE_BLEACH
    (bleachingVoltage (m_cfg d)) (bleachingTime (m_cfg d)) d
  ++ phaseTrace ADC_DAC_MAX_LSB SEGMENT_STATE_COLOR
       (m_supplyVoltage d - coloringVoltage (m_cfg d))%Q
       (coloringTime (m_cfg d)) (afterBleach d)
  ++ [EvAnalogWrite (m_counterElectrodePin d) 0].

(** Drivers a drive loop cannot tell apart on the indices [l]. *)
Definition alikeOn (l : list nat) (d d' : Driver) : Prop :=
  m_nextState d = m_nextState d'
  /\ m_segmentPinsList d = m_segmentPinsList d'
  /\ length (m_currentState d) = length (m_currentState d')
  /\ forall i, i ∈ l -> m_currentState d !!! i = m_currentState d' !!! i.

(** The driver without the two members the drive phases may write. *)
Definition coreDrive (d : Driver) : Driver :=
  set_stopDrivingFlag false (set_currentState [] d).

(** State of segment [i] when the bleach loop has passed [kb] segments and
    the color loop [kc]. *)
Definition stateAfterCut (d : Driver) (kb kc i : nat) : SegState :=
  if (i <? kb)%nat && pendingTo SEGMENT_STATE_BLEACH d i
  then SEGMENT_STATE_BLEACH
  else if (i <? kc)%nat && pendingTo SEGMENT_STATE_COLOR d i
  then SEGMENT_STATE_COLOR
  else m_currentState d !!! i.

(** Flags set in [w] are set in [w']. *)
Definition flagsKept (w w' : World) : Prop :=
  forall i : nat,
    m_refreshSegmentNeeded (drv w) !! i = Some true ->
    m_refreshSegmentNeeded (drv w') !! i = Some true.

(** No interrupt asks for a stop at the flag tests [p], ..., [p' - 1]. *)
Definition noRequestBetween (env : Env) (p p' : nat) : Prop :=
  forall j : nat, (p <= j < p')%nat -> irq env j = false.

(** The run from [w] to [w'] ended at the first flag test that saw a stop
    request: it is the last test made, and no earlier test of the run was
    reached by a request. *)
Definition stoppedAtFirstRequest (env : Env) (w w' : World) : Prop :=
  (polls w < polls w')%nat
  /\ noRequestBetween env (polls w) (polls w' - 1)
  /\ (m_stopDrivingFlag (drv w) = false -> irq env (polls w' - 1) = true).

(** A stop request seen by a flag test stays in the flag: when the flag is
    clear at the end of a run, it was clear at the start and none of the
    run's tests was reached by a request. *)
Definition requestsLatched (env : Env) (w w' : World) : Prop :=
  (polls w <= polls w')%nat
  /\ (m_stopDrivingFlag (drv w') = false ->
      m_stopDrivingFlag (drv w) = false
      /\ noRequestBetween env (polls w) (polls w')).

(** What [refreshDisplay] leaves alone. *)
Definition refreshFrame (env : Env) (w w' : World) : Prop :=
  core (drv w) = core (drv w')
  /\ length (m_refreshSegmentNeeded (drv w'))
     = length (m_refreshSegmentNeeded (drv w))
  /\ flagsKept w w'
  /\ events w `suffix_of` events w'
  /\ requestsLatched env w w'.

(** What the drive phases leave alone. *)
Definition driveFrame (env : Env) (w w' : World) : Prop :=
  coreDrive (drv w) = coreDrive (drv w')
  /\ length (m_currentState (drv w')) = length (m_currentState (drv w))
  /\ events w `suffix_of` events w'
  /\ requestsLatched env w w'.

(** The driver without the three members [executeDisplay] may write. *)
Definition coreExecute (d : Driver) : Driver :=
  set_stopDrivingFlag false
    (set_currentState [] (set_refreshSegmentNeeded [] d)).

(** What [executeDisplay] leaves alone. *)
Definition executeFrame (env : Env) (w w' : World) : Prop :=
  coreExecute (drv w) = coreExecute (drv w')
  /\ length (m_currentState (drv w')) = length (m_currentState (drv w))
  /\ length (m_refreshSegmentNeeded (drv w'))
     = length (m_refreshSegmentNeeded (drv w))
  /\ flagsKept w w'
  /\ events w `suffix_of` events w'
  /\ requestsLatched env w w'.

(** Events that do not drive a segment pin: pins are only floated, the
    counter electrode is written, and every delay is the 50 ms settling
    delay of [enableCounterElectrode]. *)
Definition isIdleEvent (e : Event) : Prop :=
  match e with
  | EvPinMode _ INPUT => True
  | EvAnalogWrite _ _ => True
  | EvDelay ms => ms = 50
  | _ => False
  end.

(** A relation every run of a computation satisfies. *)
Definition preserves {A : Type} (R : World -> World -> Prop) (m : M A)
  : Prop :=
  forall w : World, R w (snd (m w)).

(** *** Runs of [refreshDisplay] without a stop request *)

(** The computation runs to its end from [w], with a result and a final
    world that satisfy [Q]. *)
Definition runsTo {A : Type} (m : M A) (w : World) (Q : A -> World -> Prop)
  : Prop :=
  exists (a : A) (w' : World), m w = (Done a, w') /\ Q a w'.

Definition stateOf (w : World) (i : nat) : SegState :=
  m_currentState (drv w) !!! i.

Definition flagOf (w : World) (i : nat) : bool :=
  m_refreshSegmentNeeded (drv w) !!! i.

Definition countIf (f : nat -> bool) (l : list nat) : nat :=
  length (List.filter f l).

(** The comparison of the first loop of [refreshDisplay] (lines 212 and
    217) for a segment in state [phase]. *)
Definition classifyOut (phase : SegState) (d : Driver) (v : Z) : bool :=
  match phase with
  | SEGMENT_STATE_COLOR => Qltb (inject_Z v) (m_refreshColorLimitL d)
  | SEGMENT_STATE_BLEACH => Qltb (m_refreshBleachLimitH d) (inject_Z v)
  | SEGMENT_STATE_UNDEFINED => false
  end.

(** The comparison of the retry loops (lines 307 and 398). *)
Definition retryOut (phase : SegState) (d : Driver) (v : Z) : bool :=
  match phase with
  | SEGMENT_STATE_COLOR => Qltb (inject_Z v) (m_refreshColorLimitH d)
  | SEGMENT_STATE_BLEACH => Qltb (m_refreshBleachLimitL d) (inject_Z v)
  | SEGMENT_STATE_UNDEFINED => false
  end.

(** Segment [i] is driven by the pulse loop of [phase]. *)
Definition pulsed (phase : SegState) (w : World) (i : nat) : bool :=
  bool_decide (stateOf w i = phase) && bool_decide (flagOf w i = true).

(** The world is one [refreshDisplay] can have reached from [w0] without a
    stop request: only refresh flags differ, and none was cleared. *)
Definition quietSince (w0 w : World) : Prop :=
  m_stopDrivingFlag (drv w) = false
  /\ core (drv w) = core (drv w0)
  /\ length (m_refreshSegmentNeeded (drv w))
     = length (m_refreshSegmentNeeded (drv w0))
  /\ flagsKept w0 w
  /\ events w0 `suffix_of` events w.

(** What one pass of a retry loop does when no stop is requested: which
    pins it drives and samples, and which refresh flags and loop condition
    it leaves, for samples that stay on one side of the loop's limit. *)
Definition iterationPost (env : Env) (MAX_REFRESH_RETRIES : Z)
  (phase : SegState) (outOfRange : Z -> bool) (retries : Z) (w : World)
  (needed' : bool) (w' : World) : Prop :=
  quietSince w w'
  /\ (forall p : Z,
        pulsesOn p w'
        = (pulsesOn p w
           + countIf (fun j => Z.eqb (pinOf (drv w) j) p && pulsed phase w j)
               (segmentIndices (drv w)))%nat)
  /\ (forall p : Z,
        samplesOn p w'
        = (samplesOn p w
           + countIf (fun j => Z.eqb (pinOf (drv w) j) p
                               && bool_decide (stateOf w j = phase)
                               && bool_decide (retries < MAX_REFRESH_RETRIES)%Z)
               (segmentIndices (drv w)))%nat)
  /\ (MAX_REFRESH_RETRIES <= retries -> needed' = false)
  /\ (forall i : nat,
        (i < numSegments (drv w))%nat -> stateOf w i = phase ->
        retries < MAX_REFRESH_RETRIES ->
        (forall t, outOfRange (adc env t (pinOf (drv w) i)) = true) ->
        needed' = true /\ flagOf w' i = true)
  /\ (forall i : nat,
        flagOf w i = false ->
        (stateOf w i <> phase
         \/ forall t, outOfRange (adc env t (pinOf (drv w) i)) = false) ->
        flagOf w' i = false).

(** A step that touches neither the driver nor the counts of pulses and
    samples. *)
Definition neutralStep (w w' : World) : Prop :=
  drv w' = drv w
  /\ events w `suffix_of` events w'
  /\ (forall p, pulsesOn p w' = pulsesOn p w)
  /\ (forall p, samplesOn p w' = samplesOn p w).

(** What a retry loop does to segment [i] when no stop is requested, by
    the side its samples stay on. *)
Definition loopPost (env : Env) (MAX_REFRESH_RETRIES : Z) (phase : SegState)
  (outOfRange : Z -> bool) (needed : bool) (retries : Z) (w w' : World)
  : Prop :=
  quietSince w w'
  /\ (needed = false -> neutralStep w w')
  /\ forall i : nat,
       (i < numSegments (drv w))%nat ->
       let pin := pinOf (drv w) i in
       (stateOf w i <> phase ->
        pulsesOn pin w' = pulsesOn pin w
        /\ samplesOn pin w' = samplesOn pin w
        /\ (flagOf w i = false -> flagOf w' i = false))
       /\ (flagOf w i = false ->
           (forall t, outOfRange (adc env t pin) = false) ->
           pulsesOn pin w' = pulsesOn pin w /\ flagOf w' i = false)
       /\ (stateOf w i = phase ->
           (forall t, outOfRange (adc env t pin) = true) ->
           needed = true -> retries <= MAX_REFRESH_RETRIES ->
           pulsesOn pin w'
           = (pulsesOn pin w + Z.to_nat (MAX_REFRESH_RETRIES - retries)
              + (if flagOf w i then 1 else 0))%nat
           /\ samplesOn pin w'
              = (samplesOn pin w
                 + Z.to_nat (MAX_REFRESH_RETRIES - retries))%nat
           /\ (retries < MAX_REFRESH_RETRIES -> flagOf w' i = true))
       /\ (stateOf w i = phase -> flagOf w i = true -> needed = true ->
           (pulsesOn pin w + 1 <= pulsesOn pin w')%nat).

(** What the classification loop does when no stop is requested. *)
Definition classifyPost (env : Env) (w : World) (needed : bool * bool)
  (w' : World) : Prop :=
  quietSince w w'
  /\ (forall p, pulsesOn p w' = pulsesOn p w)
  /\ (forall p,
        samplesOn p w'
        = (samplesOn p w
           + countIf (fun j => Z.eqb (pinOf (drv w) j) p)
               (segmentIndices (drv w)))%nat)
  /\ (forall i : nat,
        (i < numSegments (drv w))%nat ->
        (forall t, classifyOut (stateOf w i) (drv w)
                     (adc env t (pinOf (drv w) i)) = true) ->
        flagOf w' i = true
        /\ (stateOf w i = SEGMENT_STATE_COLOR -> fst needed = true)
        /\ (stateOf w i = SEGMENT_STATE_BLEACH -> snd needed = true))
  /\ (forall i : nat,
        flagOf w i = false ->
        (forall t, classifyOut (stateOf w i) (drv w)
                     (adc env t (pinOf (drv w) i)) = false) ->
        flagOf w' i = false)
  /\ (fst needed = false -> snd needed = false -> drv w' = drv w).

(** The computation ends from [w] with an outcome and a final world that
    satisfy [Q]. *)
Definition endsIn {A : Type} (m : M A) (w : World)
  (Q : Outcome A -> World -> Prop) : Prop :=
  exists (o : Outcome A) (w' : World), m w = (o, w') /\ Q o w'.

(** What [refreshDisplay] does when no stop is requested: the
    classification, then either the early return or the two retry loops. *)
Definition refreshPost (env : Env) (MAX_REFRESH_RETRIES : Z) (w : World)
  (o : Outcome unit) (w' : World) : Prop :=
  exists (needed : bool * bool) (wc : World),
    classifyPost env w needed wc
    /\ ((fst needed = false /\ snd needed = false
         /\ o = Returned NoRefreshNeeded /\ neutralStep wc w')
        \/ ((fst needed = true \/ snd needed = true)
            /\ o = Done tt
            /\ exists wb : World,
                 loopPost env MAX_REFRESH_RETRIES SEGMENT_STATE_BLEACH
                   (retryOut SEGMENT_STATE_BLEACH (drv w)) (snd needed) 0
                   wc wb
                 /\ loopPost env MAX_REFRESH_RETRIES SEGMENT_STATE_COLOR
                      (retryOut SEGMENT_STATE_COLOR (drv w)) (fst needed) 0
                      wb w')).

(** The loop condition that starts the retry loop of [phase]. *)
Definition neededFor (phase : SegState) (needed : bool * bool) : bool :=
  match phase with
  | SEGMENT_STATE_BLEACH => snd needed
  | SEGMENT_STATE_COLOR => fst needed
  | SEGMENT_STATE_UNDEFINED => false
  end.

(** The refresh flags are as they were. *)
Definition flagsUntouched (w w' : World) : Prop :=
  m_refreshSegmentNeeded (drv w') = m_refreshSegmentNeeded (drv w).

(** *** Specifications by the way a run ends *)

(** What a run leaves: [Qd] when it reaches the end of the method, [Qx
    (Some s)] when it leaves by the [return] at [s], [Qx None] when the
    model stops following a loop. *)
Definition post {A : Type} (Qd : A -> World -> Prop)
  (Qx : option ReturnSite -> World -> Prop) (r : Outcome A * World) : Prop :=
  match r with
  | (Done a, w) => Qd a w
  | (Returned s, w) => Qx (Some s) w
  | (OutOfFuel, w) => Qx None w
  end.

Definition hoare {A : Type} (P : World -> Prop) (m : M A)
  (Qd : A -> World -> Prop) (Qx : option ReturnSite -> World -> Prop)
  : Prop :=
  forall w : World, P w -> post Qd Qx (m w).

(** *** Electrical state of the pins, read off the trace *)

(** The most recent [pinMode], [digitalWrite] or [analogWrite] on [pin] is
    [pinMode(pin, INPUT)]: the pin is in high impedance.  The trace is
    given newest event first. *)
Fixpoint highZ (pin : Z) (evs : list Event) : bool :=
  match evs with
  | [] => false
  | EvPinMode p mode :: evs' =>
      if Z.eqb p pin then bool_decide (mode = INPUT) else highZ pin evs'
  | EvDigitalWrite p _ :: evs' =>
      if Z.eqb p pin then false else highZ pin evs'
  | EvAnalogWrite p _ :: evs' =>
      if Z.eqb p pin then false else highZ pin evs'
  | _ :: evs' => highZ pin evs'
  end.

(** Every segment pin is in high impedance. *)
Definition segmentsHighZ (w : World) : Prop :=
  forall i : nat,
    (i < numSegments (drv w))%nat -> highZ (pinOf (drv w) i) (events w) = true.

(** The members that say which pins the driver uses. *)
Definition wiring (d : Driver) : Z * Z * list Z :=
  (m_counterElectrodePin d, m_numberOfSegments d, m_segmentPinsList d).

(** The counter electrode is on a pin of its own. *)
Definition counterElectrodeApart (d : Driver) : Prop :=
  forall i : nat,
    (i < numSegments d)%nat -> pinOf d i <> m_counterElectrodePin d.

(** The wiring is [wr], with the counter electrode on a pin of its own. *)
Definition wired (wr : Z * Z * list Z) (w : World) : Prop :=
  wiring (drv w) = wr /\ counterElectrodeApart (drv w).

(** A call ended on the stop flag leaves the flag set; the early return of
    [refreshDisplay] leaves what [G] says. *)
Definition atReturn (G : World -> Prop) (e : option ReturnSite) (w : World)
  : Prop :=
  match e with
  | Some StopRequested => m_stopDrivingFlag (drv w) = true
  | Some NoRefreshNeeded => G w
  | None => True
  end.

(** The run did not stop for lack of fuel. *)
Definition fuelSufficed (e : option ReturnSite) (w : World) : Prop :=
  e <> None.

(** *** Values written to the counter electrode *)

(** An [analogWrite] within the range of the converter. *)
Definition dacInRange (ADC_DAC_MAX_LSB : Z) (e : Event) : Prop :=
  match e with
  | EvAnalogWrite _ v => 0 <= v <= ADC_DAC_MAX_LSB
  | _ => True
  end.

(** The supply is positive and every voltage of the configuration that
    reaches the counter electrode lies between ground and the supply. *)
Definition voltagesWithinSupply (d : Driver) : Prop :=
  let sv := m_supplyVoltage d in
  let c := m_cfg d in
  (0 < sv)%Q
  /\ (0 <= bleachingVoltage c <= sv)%Q
  /\ (0 <= coloringVoltage c <= sv)%Q
  /\ (0 <= refreshBleachingVoltage c <= sv)%Q
  /\ (0 <= refreshColoringVoltage c <= sv)%Q.

(** Since [w0], the supply voltage and the configuration are unchanged and
    every [analogWrite] was within the range of the converter. *)
Definition inRangeSince (ADC_DAC_MAX_LSB : Z) (w0 w : World) : Prop :=
  m_supplyVoltage (drv w) = m_supplyVoltage (drv w0)
  /\ m_cfg (drv w) = m_cfg (drv w0)
  /\ exists new : list Event,
       events w = new ++ events w0
       /\ Forall (dacInRange ADC_DAC_MAX_LSB) new.

(** The driver has the supply voltage and the configuration of [w0]. *)
Definition suppliedAs (w0 : World) (d : Driver) : Prop :=
  m_supplyVoltage d = m_supplyVoltage (drv w0) /\ m_cfg d = m_cfg (drv w0).

(** *** States of all segments *)

(** The list [l] with [f i] stored at every index [i] of [idx], in order. *)
Definition fillAt {A : Type} (f : nat -> A) (idx : list nat) (l : list A)
  : list A :=
  foldl (fun a i => <[i := f i]> a) l idx.

(** The three arrays as the constructor's loop leaves them when it has
    passed the indices [idx]. *)
Definition constructedSegments (t_segments : list Z) (idx : list nat)
  (d : Driver) : Driver :=
  set_nextState
    (fillAt (fun _ => SEGMENT_STATE_UNDEFINED) idx (m_nextState d))
    (set_currentState
       (fillAt (fun _ => SEGMENT_STATE_UNDEFINED) idx (m_currentState d))
       (set_segmentPinsList
          (fillAt (fun i => t_segments !!! i) idx (m_segmentPinsList d)) d)).

(** The members the constructor does not assign. *)
Definition unassigned (d : Driver)
  : list bool * Q * Config * (Q * Q * Q * Q) * bool :=
  (m_refreshSegmentNeeded d, m_supplyVoltage d, m_cfg d,
   (m_refreshColorLimitH d, m_refreshColorLimitL d,
    m_refreshBleachLimitH d, m_refreshBleachLimitL d),
   m_stopDrivingFlag d).

(** The constructor's events, oldest first. *)
Definition constructorEvents (PIN_CE ADC_DAC_RESOLUTION : Z)
  (t_numberOfSegments : Z) (t_segments : list Z) : list Event :=
  [EvPinMode PIN_CE OUTPUT;
   EvAnalogReadResolution ADC_DAC_RESOLUTION;
   EvAnalogWriteResolution ADC_DAC_RESOLUTION]
  ++ map (fun i => EvPinMode (t_segments !!! i) INPUT)
       (seq 0 (Z.to_nat t_numberOfSegments)).

(** Every segment's two states agree: the display shows what was asked. *)
Definition settled (d : Driver) : Prop :=
  forall i : nat,
    (i < numSegments d)%nat -> m_nextState d !!! i = m_currentState d !!! i.

(** Events that leave every segment pin as it is or put one in high
    impedance, when the counter electrode is on [cePin]. *)
Definition keepsHighZ (cePin : Z) (e : Event) : Prop :=
  match e with
  | EvPinMode _ mode => mode = INPUT
  | EvDigitalWrite _ _ => False
  | EvAnalogWrite p _ => p = cePin
  | _ => True
  end.

(** The wiring is [wr], the counter electrode is on a pin of its own and
    every segment pin is in high impedance. *)
Definition floating (wr : Z * Z * list Z) (w : World) : Prop :=
  wired wr w /\ segmentsHighZ w.

(** The events of the drive part of [executeDisplay] when segment [i] alone
    has a state to reach, [t_state] as [setSegmentState] takes it. *)
Definition singleTransitionTrace (ADC_DAC_MAX_LSB : Z) (d : Driver) (i : nat)
  (t_state : bool) : list Event :=
  let drive := [EvPinMode (pinOf d i) OUTPUT;
                EvDigitalWrite (pinOf d i) t_state] in
  counterElectrodeEvents ADC_DAC_MAX_LSB d (bleachingVoltage (m_cfg d))
  ++ (if t_state then [] else drive ++ [EvDelay (bleachingTime (m_cfg d))])
  ++ floatEvents d
  ++ counterElectrodeEvents ADC_DAC_MAX_LSB d
       (m_supplyVoltage d - coloringVoltage (m_cfg d))%Q
  ++ (if t_state then drive ++ [EvDelay (coloringTime (m_cfg d))] else [])
  ++ floatEvents d
  ++ [EvAnalogWrite (m_counterElectrodePin d) 0].

(** The driver after [setSegmentState(i, t_state)]. *)
Definition withRequest (d : Driver) (i : nat) (t_state : bool) : Driver :=
  set_nextState (<[i := stateOfBool t_state]> (m_nextState d)) d.

(** The driver is [d] and at least [T] events have happened. *)
Definition unchangedAfter (d : Driver) (T : nat) (w : World) : Prop :=
  drv w = d /\ (T <= length (events w))%nat.

(** From the event count [T] on, every segment of [d] in state [phase]
    reads within the limit of the retry loop of that state. *)
Definition withinRetryLimitFrom (env : Env) (d : Driver) (T : nat)
  (phase : SegState) : Prop :=
  forall j : nat,
    (j < numSegments d)%nat -> m_currentState d !!! j = phase ->
    forall t : nat,
      (T <= t)%nat -> retryOut phase d (adc env t (pinOf d j)) = false.

(** The driver is [d] and the last value written to pin [ce] is [v]. *)
Definition idleAt (d : Driver) (ce v : Z) (w : World) : Prop :=
  drv w = d /\ lastAnalogWrite ce (events w) = Some v.

(** Every segment of [d] reads within the limit of the refresh check, at
    all times. *)
Definition withinCheckLimits (env : Env) (d : Driver) : Prop :=
  forall j : nat,
    (j < numSegments d)%nat ->
    forall t : nat,
      classifyOut (m_currentState d !!! j) d (adc env t (pinOf d j)) = false.

(** The value [enableCounterElectrode] writes for half the supply. *)
Definition halfScale (ADC_DAC_MAX_LSB : Z) (d : Driver) : Z :=
  truncQ (inject_Z ADC_DAC_MAX_LSB
          * (m_supplyVoltage d / 2 / m_supplyVoltage d))%Q.

(** ** A concrete display, for the examples *)

Module Example.

Definition PIN_CE : Z := 14.
Definition ADC_DAC_RESOLUTION : Z := 10.
Definition ADC_DAC_MAX_LSB : Z := 1023.
Definition MAX_REFRESH_RETRIES : Z := 3.

Definition config : Config :=
  mkConfig 3 1 1000 800 1 1 200 150 0 (3 # 10) (3 # 10) (2 # 10).

(** A driver on pins 2, 3 and 4 with the given per-segment arrays, a 5 V
    supply and the limits [updateSupplyVoltage] computes for it. *)
Definition driverOf (n : Z) (cur next : list SegState) (flags : list bool)
  : Driver :=
  drv (snd (updateSupplyVoltage ADC_DAC_MAX_LSB 5
              (mkWorld
                 (mkDriver PIN_CE n [2; 3; 4] cur next flags 0 config
                    0 0 0 0 false)
                 [] O))).

Definition worldOf (d : Driver) : World := mkWorld d [] O.

(** No stop request; pin 2 reads [a], every other pin reads [b]. *)
Definition quietEnv (a b : Z) : Env :=
  mkEnv (fun _ => false) (fun _ pin => if Z.eqb pin 2 then a else b).

(** A stop request reaches the [k]-th test of the flag. *)
Definition stopEnv (k : nat) : Env :=
  mkEnv (fun j => Nat.eqb j k) (fun _ _ => 300).

(** Three segments, two of them with a state to reach. *)
Definition mixed : World :=
  worldOf (driverOf 3
    [SEGMENT_STATE_UNDEFINED; SEGMENT_STATE_COLOR; SEGMENT_STATE_BLEACH]
    [SEGMENT_STATE_BLEACH; SEGMENT_STATE_COLOR; SEGMENT_STATE_COLOR]
    [false; false; false]).

(** Two bleached segments. *)
Definition bleached (flag0 : bool) : World :=
  worldOf (driverOf 2 [SEGMENT_STATE_BLEACH; SEGMENT_STATE_BLEACH]
    [SEGMENT_STATE_BLEACH; SEGMENT_STATE_BLEACH] [flag0; false]).


(** A bleached segment whose flag is set, next to a colored one. *)
Definition flaggedBleachedAndColored : World :=
  worldOf (driverOf 2 [SEGMENT_STATE_BLEACH; SEGMENT_STATE_COLOR]
    [SEGMENT_STATE_BLEACH; SEGMENT_STATE_COLOR] [true; false]).

Definition refresh (e : Env) (w : World) : Outcome unit * World :=
  refreshDisplay ADC_DAC_MAX_LSB MAX_REFRESH_RETRIES e 10 w.

Definition execute (e : Env) (w : World) : Outcome unit * World :=
  executeDisplay ADC_DAC_MAX_LSB MAX_REFRESH_RETRIES e 10 w.

(** The runs the examples look at. *)

(** Both bleached segments always read 1000, far above their limits. *)
Definition cappedRun : Outcome unit * World :=
  refresh (quietEnv 1000 1000) (bleached false).


(** Flagged bleached segment 0 and colored segment 1 both read 100. *)
Definition otherPhaseRun : Outcome unit * World :=
  refresh (quietEnv 100 100) flaggedBleachedAndColored.

(** Both bleached segments read 300, within their limits. *)
Definition idleRun : Outcome unit * World :=
  refresh (quietEnv 300 300) (bleached false).

End Example.

(** ** Further situations on the concrete display *)

Module Scenario.

Import Example.

(** Storage as the constructor may find it. *)
Definition rawStorage : World :=
  mkWorld
    (mkDriver 0 0 [9; 9; 9]
       [SEGMENT_STATE_COLOR; SEGMENT_STATE_BLEACH; SEGMENT_STATE_COLOR]
       [SEGMENT_STATE_BLEACH; SEGMENT_STATE_BLEACH; SEGMENT_STATE_COLOR]
       [false; true; false] 5 config 0 0 0 0 false)
    [] O.

(** The display of [mixed], with the stop flag set. *)
Definition stopped : World :=
  worldOf (set_stopDrivingFlag true (drv mixed)).

(** No stop request; every pin reads [a] until [T] events have happened
    and [b] from then on. *)
Definition stepEnv (T : nat) (a b : Z) : Env :=
  mkEnv (fun _ => false) (fun t _ => if (t <? T)%nat then a else b).

(** Both bleached segments read 1000 during the refresh check and 100
    after it. *)
Definition recoveringRun : Outcome unit * World :=
  refresh (stepEnv 8 1000 100) (bleached false).

(** The display of [mixed] stopped by a request at the fifth flag test. *)
Definition stoppedRun : Outcome unit * World := execute (stopEnv 4) mixed.

(** Segment 0 of the settled display [bleached false] asked to color. *)
Definition oneRequest : World :=
  snd (setSegmentState 0 true (bleached false)).

Definition start (e : Env) (w : World) : Outcome unit * World :=
  begin ADC_DAC_MAX_LSB MAX_REFRESH_RETRIES e 10 w.

End Scenario.

(** ** Running computations *)

Lemma bind_Done {A B} (m : M A) (k : A -> M B) (w w1 : World) (a : A) :
  m w = (Done a, w1) -> bind m k w = k a w1.
Proof. intros H. unfold bind. rewrite H. reflexivity. Qed.

Lemma bind_Returned {A B} (m : M A) (k : A -> M B) (w w1 : World) s :
  m w = (Returned s, w1) -> bind m k w = (Returned s, w1).
Proof. intros H. unfold bind. rewrite H. reflexivity. Qed.

Lemma bind_OutOfFuel {A B} (m : M A) (k : A -> M B) (w w1 : World) :
  m w = (OutOfFuel, w1) -> bind m k w = (OutOfFuel, w1).
Proof. intros H. unfold bind. rewrite H. reflexivity. Qed.

Lemma bind_inv_Done {A B} (m : M A) (k : A -> M B) (w w' : World) (b : B) :
  bind m k w = (Done b, w') ->
  exists a w1, m w = (Done a, w1) /\ k a w1 = (Done b, w').
Proof.
  unfold bind. destruct (m w) as [[a|s|] w1]; intros H; try discriminate.
  exists a, w1. split; [reflexivity | exact H].
Qed.

Lemma bind_inv {A B} (m : M A) (k : A -> M B) (w w' : World) (o : Outcome B) :
  bind m k w = (o, w') ->
  (exists a w1, m w = (Done a, w1) /\ k a w1 = (o, w'))
  \/ (exists s, m w = (Returned s, w') /\ o = Returned s)
  \/ (m w = (OutOfFuel, w') /\ o = OutOfFuel).
Proof.
  unfold bind. destruct (m w) as [[a|s|] w1]; intros H.
  - left. exists a, w1. split; [reflexivity | exact H].
  - right. left. exists s. inversion H. subst. split; reflexivity.
  - right. right. inversion H. subst. split; reflexivity.
Qed.

Lemma driver_eta (d : Driver) :
  mkDriver (m_counterElectrodePin d) (m_numberOfSegments d)
    (m_segmentPinsList d) (m_currentState d) (m_nextState d)
    (m_refreshSegmentNeeded d) (m_supplyVoltage d) (m_cfg d)
    (m_refreshColorLimitH d) (m_refreshColorLimitL d)
    (m_refreshBleachLimitH d) (m_refreshBleachLimitL d)
    (m_stopDrivingFlag d) = d.
Proof. destruct d. reflexivity. Qed.

Lemma world_eta (w : World) : mkWorld (drv w) (events w) (polls w) = w.
Proof. destruct w. reflexivity. Qed.

(** ** [setSegmentState] *)

Section Bookkeeping.

Variable ADC_DAC_MAX_LSB : Z.

(** C8: [setSegmentState(index, state)] with [index] in range stores the
    state in [nextState[index]] and changes nothing else: the trace of
    hardware events and the count of stop-flag tests are as before, every
    other entry of [nextState] and every other member of the driver keeps
    its value. *)
Theorem setSegmentState_frame (w : World) (t_segment : nat) (t_state : bool) :
  (t_segment < numSegments (drv w))%nat ->
  wellFormed (drv w) ->
  exists w',
    setSegmentState t_segment t_state w = (Done tt, w')
    /\ m_nextState (drv w') !! t_segment = Some (stateOfBool t_state)
    /\ (forall j : nat, j <> t_segment ->
          m_nextState (drv w') !! j = m_nextState (drv w) !! j)
    /\ length (m_nextState (drv w')) = length (m_nextState (drv w))
    /\ events w' = events w
    /\ polls w' = polls w
    /\ set_nextState (m_nextState (drv w)) (drv w') = drv w
    /\ m_currentState (drv w') = m_currentState (drv w)
    /\ m_refreshSegmentNeeded (drv w') = m_refreshSegmentNeeded (drv w)
    /\ m_stopDrivingFlag (drv w') = m_stopDrivingFlag (drv w)
    /\ m_segmentPinsList (drv w') = m_segmentPinsList (drv w)
    /\ (m_refreshColorLimitH (drv w'), m_refreshColorLimitL (drv w'),
        m_refreshBleachLimitH (drv w'), m_refreshBleachLimitL (drv w'))
       = (m_refreshColorLimitH (drv w), m_refreshColorLimitL (drv w),
          m_refreshBleachLimitH (drv w), m_refreshBleachLimitL (drv w)).
Proof.
  intros Hi (_ & _ & Hn & _).
  eexists. split; [reflexivity|]. cbn.
  split; [apply list_lookup_insert_eq; lia|].
  split; [intros j Hj; apply list_lookup_insert_ne; congruence|].
  split; [apply length_insert|].
  split; [reflexivity|]. split; [reflexivity|].
  split; [unfold set_nextState; cbn; apply driver_eta|].
  repeat (split; [reflexivity|]). reflexivity.
Qed.

(** ** [updateSupplyVoltage] *)




End Bookkeeping.

(** ** Relations kept by every run *)

Section Preserves.

Context (R : World -> World -> Prop) `{!Reflexive R} `{!Transitive R}.

Lemma preserves_ret {A} (a : A) : preserves R (ret a).
Proof. intros w. reflexivity. Qed.

Lemma preserves_returnFrom {A} s : preserves R (@returnFrom A s).
Proof. intros w. reflexivity. Qed.

Lemma preserves_outOfFuel {A} : preserves R (@outOfFuel A).
Proof. intros w. reflexivity. Qed.

Lemma preserves_get : preserves R get.
Proof. intros w. reflexivity. Qed.

Lemma preserves_bind {A B} (m : M A) (k : A -> M B) :
  preserves R m -> (forall a, preserves R (k a)) -> preserves R (bind m k).
Proof.
  intros Hm Hk w. unfold bind. specialize (Hm w).
  destruct (m w) as [[a|s|] w1]; cbn in *; try exact Hm.
  etransitivity; [exact Hm | apply Hk].
Qed.

Lemma preserves_call (m : M unit) : preserves R m -> preserves R (call m).
Proof.
  intros Hm w. unfold call. specialize (Hm w).
  destruct (m w) as [[a|s|] w1]; exact Hm.
Qed.

Lemma preserves_forEach {S} (l : list nat) (body : nat -> S -> M S) :
  (forall i s, preserves R (body i s)) ->
  forall s, preserves R (forEach l body s).
Proof.
  intros Hb. induction l as [|i l IH]; intros s; cbn.
  - apply preserves_ret.
  - apply preserves_bind; [apply Hb | exact IH].
Qed.

Lemma preserves_forSegments {S} (body : nat -> S -> M S) (s : S) :
  (forall i s, preserves R (body i s)) -> preserves R (forSegments body s).
Proof.
  intros Hb. unfold forSegments.
  apply preserves_bind; [apply preserves_get|].
  intros d. apply preserves_forEach. exact Hb.
Qed.

Lemma preserves_whileNeeded (iteration : Z -> M bool) :
  (forall r, preserves R (iteration r)) ->
  forall fuel needed r, preserves R (whileNeeded fuel iteration needed r).
Proof.
  intros Hi fuel. induction fuel as [|fuel IH]; intros needed r; cbn.
  - destruct needed; [apply preserves_outOfFuel | apply preserves_ret].
  - destruct needed; [|apply preserves_ret].
    apply preserves_bind; [apply Hi | intros b; apply IH].
Qed.

End Preserves.

Lemma preserves_weaken {A} (R R' : World -> World -> Prop) (m : M A) :
  (forall w w', R w w' -> R' w w') -> preserves R m -> preserves R' m.
Proof. intros HR Hm w. apply HR, Hm. Qed.

#[global] Instance flagsKept_refl : Reflexive flagsKept.
Proof. intros w i H. exact H. Qed.

#[global] Instance flagsKept_trans : Transitive flagsKept.
Proof. intros w1 w2 w3 H1 H2 i H. apply H2, H1, H. Qed.

#[global] Instance requestsLatched_refl env : Reflexive (requestsLatched env).
Proof.
  intros w. split; [lia|]. intros H. split; [exact H|]. intros j Hj. lia.
Qed.

#[global] Instance requestsLatched_trans env :
  Transitive (requestsLatched env).
Proof.
  intros w1 w2 w3 (A1 & B1) (A2 & B2). split; [lia|].
  intros H. destruct (B2 H) as (H2 & N2). destruct (B1 H2) as (H1 & N1).
  split; [exact H1|]. intros j Hj.
  destruct (Nat.lt_ge_cases j (polls w2)); [apply N1 | apply N2]; lia.
Qed.

#[global] Instance refreshFrame_refl env : Reflexive (refreshFrame env).
Proof.
  intros w. unfold refreshFrame. do 4 (split; [reflexivity|]). reflexivity.
Qed.

#[global] Instance refreshFrame_trans env : Transitive (refreshFrame env).
Proof.
  intros w1 w2 w3 (A1 & B1 & C1 & E1 & F1) (A2 & B2 & C2 & E2 & F2).
  unfold refreshFrame. split; [congruence|]. split; [congruence|].
  split; [etransitivity; eassumption|].
  split; etransitivity; eassumption.
Qed.

#[global] Instance driveFrame_refl env : Reflexive (driveFrame env).
Proof.
  intros w. unfold driveFrame. do 3 (split; [reflexivity|]). reflexivity.
Qed.

#[global] Instance driveFrame_trans env : Transitive (driveFrame env).
Proof.
  intros w1 w2 w3 (A1 & B1 & E1 & F1) (A2 & B2 & E2 & F2).
  unfold driveFrame. split; [congruence|]. split; [congruence|].
  split; etransitivity; eassumption.
Qed.

#[global] Instance executeFrame_refl env : Reflexive (executeFrame env).
Proof.
  intros w. unfold executeFrame. do 5 (split; [reflexivity|]). reflexivity.
Qed.

#[global] Instance executeFrame_trans env : Transitive (executeFrame env).
Proof.
  intros w1 w2 w3 (A1 & B1 & L1 & C1 & E1 & F1) (A2 & B2 & L2 & C2 & E2 & F2).
  unfold executeFrame. split; [congruence|]. split; [congruence|].
  split; [congruence|].
  split; [etransitivity; eassumption|].
  split; etransitivity; eassumption.
Qed.

Lemma core_fields d d' :
  core d = core d' ->
  m_currentState d = m_currentState d'
  /\ m_nextState d = m_nextState d'
  /\ m_segmentPinsList d = m_segmentPinsList d'
  /\ m_numberOfSegments d = m_numberOfSegments d'
  /\ m_counterElectrodePin d = m_counterElectrodePin d'
  /\ m_supplyVoltage d = m_supplyVoltage d'
  /\ m_cfg d = m_cfg d'
  /\ (m_refreshColorLimitH d, m_refreshColorLimitL d,
      m_refreshBleachLimitH d, m_refreshBleachLimitL d)
     = (m_refreshColorLimitH d', m_refreshColorLimitL d',
        m_refreshBleachLimitH d', m_refreshBleachLimitL d').
Proof.
  intros H.
  repeat split.
  - exact (f_equal m_currentState H).
  - exact (f_equal m_nextState H).
  - exact (f_equal m_segmentPinsList H).
  - exact (f_equal m_numberOfSegments H).
  - exact (f_equal m_counterElectrodePin H).
  - exact (f_equal m_supplyVoltage H).
  - exact (f_equal m_cfg H).
  - exact (f_equal (fun x => (m_refreshColorLimitH x, m_refreshColorLimitL x,
      m_refreshBleachLimitH x, m_refreshBleachLimitL x)) H).
Qed.

Lemma coreDrive_fields d d' :
  coreDrive d = coreDrive d' ->
  m_nextState d = m_nextState d'
  /\ m_segmentPinsList d = m_segmentPinsList d'
  /\ m_numberOfSegments d = m_numberOfSegments d'
  /\ m_counterElectrodePin d = m_counterElectrodePin d'
  /\ m_supplyVoltage d = m_supplyVoltage d'
  /\ m_cfg d = m_cfg d'
  /\ m_refreshSegmentNeeded d = m_refreshSegmentNeeded d'.
Proof.
  intros H.
  repeat split.
  - exact (f_equal m_nextState H).
  - exact (f_equal m_segmentPinsList H).
  - exact (f_equal m_numberOfSegments H).
  - exact (f_equal m_counterElectrodePin H).
  - exact (f_equal m_supplyVoltage H).
  - exact (f_equal m_cfg H).
  - exact (f_equal m_refreshSegmentNeeded H).
Qed.

Lemma coreExecute_fields d d' :
  coreExecute d = coreExecute d' ->
  m_nextState d = m_nextState d'
  /\ m_segmentPinsList d = m_segmentPinsList d'
  /\ m_numberOfSegments d = m_numberOfSegments d'
  /\ m_counterElectrodePin d = m_counterElectrodePin d'
  /\ m_supplyVoltage d = m_supplyVoltage d'
  /\ m_cfg d = m_cfg d'.
Proof.
  intros H.
  repeat split.
  - exact (f_equal m_nextState H).
  - exact (f_equal m_segmentPinsList H).
  - exact (f_equal m_numberOfSegments H).
  - exact (f_equal m_counterElectrodePin H).
  - exact (f_equal m_supplyVoltage H).
  - exact (f_equal m_cfg H).
Qed.

Lemma refreshFrame_executeFrame env w w' :
  refreshFrame env w w' -> executeFrame env w w'.
Proof.
  intros (A & B & C & E & F).
  unfold executeFrame. split; [|split; [|split]].
  - exact (f_equal (set_currentState []) A).
  - apply core_fields in A. destruct A as (Hc & _). rewrite Hc. reflexivity.
  - exact B.
  - auto.
Qed.

Lemma driveFrame_executeFrame env w w' :
  driveFrame env w w' -> executeFrame env w w'.
Proof.
  intros (A & B & E & F).
  unfold executeFrame. split; [|split; [|split]].
  - exact (f_equal (set_refreshSegmentNeeded []) A).
  - exact B.
  - apply coreDrive_fields in A.
    destruct A as (_ & _ & _ & _ & _ & _ & Hf). rewrite Hf. reflexivity.
  - apply coreDrive_fields in A.
    destruct A as (_ & _ & _ & _ & _ & _ & Hf).
    unfold flagsKept. rewrite Hf. auto.
Qed.

Lemma markRefreshNeeded_kept (d : Driver) (i j : nat) :
  m_refreshSegmentNeeded d !! j = Some true ->
  m_refreshSegmentNeeded (markRefreshNeeded i d) !! j = Some true.
Proof.
  cbn. intros H. destruct (decide (i = j)) as [->|Hne].
  - rewrite list_lookup_insert_eq; [reflexivity|].
    apply lookup_lt_Some in H. exact H.
  - rewrite list_lookup_insert_ne by exact Hne. exact H.
Qed.

Create HintDb frames.

Ltac frame_steps :=
  repeat first
    [ solve [auto with frames]
    | apply preserves_forSegments; try typeclasses eauto; intros ? ?
    | apply preserves_call; try typeclasses eauto
    | apply preserves_ret; typeclasses eauto
    | apply preserves_get; typeclasses eauto
    | apply preserves_returnFrom; typeclasses eauto
    | apply preserves_bind; try typeclasses eauto; [| intros ?]
    | match goal with
      | |- preserves _ (if ?b then _ else _) => destruct b
      end ].

Section Frames.

Variable ADC_DAC_MAX_LSB : Z.
Variable MAX_REFRESH_RETRIES : Z.
Variable env : Env.

Lemma emit_requestsLatched e : preserves (requestsLatched env) (emit e).
Proof.
  intros w. cbn. split; [cbn; lia|]. cbn. intros H. split; [exact H|].
  intros j Hj. lia.
Qed.

Lemma analogRead_requestsLatched pin :
  preserves (requestsLatched env) (analogRead env pin).
Proof.
  intros w. cbn. split; [cbn; lia|]. cbn. intros H. split; [exact H|].
  intros j Hj. lia.
Qed.

Lemma stopCheck_requestsLatched : preserves (requestsLatched env) (stopCheck env).
Proof.
  intros w. unfold stopCheck.
  destruct (irq env (polls w)) eqn:Ei; cbn.
  - split; [cbn; lia|]. cbn. discriminate.
  - destruct (m_stopDrivingFlag (drv w)) eqn:Ef; cbn.
    + split; [cbn; lia|]. cbn. congruence.
    + split; [cbn; lia|]. cbn. intros _. split; [exact Ef|].
      intros j Hj. assert (j = polls w) as -> by lia. exact Ei.
Qed.

Lemma modify_requestsLatched f :
  (forall d, m_stopDrivingFlag (f d) = m_stopDrivingFlag d) ->
  preserves (requestsLatched env) (modify f).
Proof.
  intros Hf w. cbn. split; [cbn; lia|]. cbn. rewrite Hf.
  intros H. split; [exact H|]. intros j Hj. lia.
Qed.

Lemma emit_refreshFrame e : preserves (refreshFrame env) (emit e).
Proof.
  intros w. pose proof (emit_requestsLatched e w) as HL.
  unfold refreshFrame. split; [reflexivity|]. split; [reflexivity|].
  split; [intros i H; exact H|].
  split; [apply suffix_cons_r; reflexivity | exact HL].
Qed.

Lemma analogRead_refreshFrame pin :
  preserves (refreshFrame env) (analogRead env pin).
Proof.
  intros w. pose proof (analogRead_requestsLatched pin w) as HL.
  unfold refreshFrame. split; [reflexivity|]. split; [reflexivity|].
  split; [intros i H; exact H|].
  split; [apply suffix_cons_r; reflexivity | exact HL].
Qed.

Lemma stopCheck_refreshFrame : preserves (refreshFrame env) (stopCheck env).
Proof.
  intros w. pose proof (stopCheck_requestsLatched w) as HL.
  unfold refreshFrame. split; [|split; [|split; [|split]]]; try exact HL.
  - unfold stopCheck.
    destruct (irq env (polls w)); [reflexivity|].
    destruct (m_stopDrivingFlag (drv w)); reflexivity.
  - unfold stopCheck.
    destruct (irq env (polls w)); [reflexivity|].
    destruct (m_stopDrivingFlag (drv w)); reflexivity.
  - unfold stopCheck, flagsKept.
    destruct (irq env (polls w)); [cbn; auto|].
    destruct (m_stopDrivingFlag (drv w)); cbn; auto.
  - unfold stopCheck.
    destruct (irq env (polls w)); [reflexivity|].
    destruct (m_stopDrivingFlag (drv w)); reflexivity.
Qed.

Lemma markRefreshNeeded_refreshFrame i :
  preserves (refreshFrame env) (modify (markRefreshNeeded i)).
Proof.
  intros w.
  pose proof (modify_requestsLatched (markRefreshNeeded i)
                (fun d => eq_refl) w) as HL.
  unfold refreshFrame. split; [|split; [|split; [|split]]]; try exact HL.
  - reflexivity.
  - cbn. apply length_insert.
  - intros j Hj. apply (markRefreshNeeded_kept (drv w) i j Hj).
  - reflexivity.
Qed.

Lemma emit_driveFrame e : preserves (driveFrame env) (emit e).
Proof.
  intros w. pose proof (emit_requestsLatched e w) as HL.
  unfold driveFrame. split; [reflexivity|]. split; [reflexivity|].
  split; [apply suffix_cons_r; reflexivity | exact HL].
Qed.

Lemma stopCheck_driveFrame : preserves (driveFrame env) (stopCheck env).
Proof.
  intros w. pose proof (stopCheck_requestsLatched w) as HL.
  unfold driveFrame. split; [|split; [|split]]; try exact HL.
  - unfold stopCheck.
    destruct (irq env (polls w)); [reflexivity|].
    destruct (m_stopDrivingFlag (drv w)); reflexivity.
  - unfold stopCheck.
    destruct (irq env (polls w)); [reflexivity|].
    destruct (m_stopDrivingFlag (drv w)); reflexivity.
  - unfold stopCheck.
    destruct (irq env (polls w)); [reflexivity|].
    destruct (m_stopDrivingFlag (drv w)); reflexivity.
Qed.

Lemma markCurrent_driveFrame i :
  preserves (driveFrame env) (modify (markCurrent i)).
Proof.
  intros w.
  pose proof (modify_requestsLatched (markCurrent i) (fun d => eq_refl) w)
    as HL.
  unfold driveFrame. split; [|split; [|split]]; try exact HL.
  - reflexivity.
  - cbn. apply length_insert.
  - reflexivity.
Qed.

Hint Resolve emit_refreshFrame analogRead_refreshFrame stopCheck_refreshFrame
  markRefreshNeeded_refreshFrame emit_driveFrame stopCheck_driveFrame
  markCurrent_driveFrame : frames.

Lemma disableAllSegments_refreshFrame :
  preserves (refreshFrame env) disableAllSegments.
Proof.
  unfold disableAllSegments, disableSegment, pinMode. frame_steps.
Qed.

Lemma enableCounterElectrode_refreshFrame v :
  preserves (refreshFrame env) (enableCounterElectrode ADC_DAC_MAX_LSB v).
Proof.
  unfold enableCounterElectrode, analogWrite, delay. frame_steps.
Qed.

Lemma disableCounterElectrode_refreshFrame :
  preserves (refreshFrame env) disableCounterElectrode.
Proof.
  unfold disableCounterElectrode, analogWrite. frame_steps.
Qed.

Hint Resolve disableAllSegments_refreshFrame
  enableCounterElectrode_refreshFrame
  disableCounterElectrode_refreshFrame : frames.

Lemma pulseSegment_refreshFrame phase level i u :
  preserves (refreshFrame env) (pulseSegment env phase level i u).
Proof.
  unfold pulseSegment, pinMode, digitalWrite. frame_steps.
Qed.

Lemma resampleSegment_refreshFrame phase oor r i b :
  preserves (refreshFrame env)
    (resampleSegment MAX_REFRESH_RETRIES env phase oor r i b).
Proof.
  unfold resampleSegment, pinMode. frame_steps.
Qed.

Lemma classifySegment_refreshFrame i n :
  preserves (refreshFrame env) (classifySegment env i n).
Proof.
  unfold classifySegment, pinMode. frame_steps.
Qed.

Hint Resolve pulseSegment_refreshFrame resampleSegment_refreshFrame
  classifySegment_refreshFrame : frames.

Lemma refreshBleachIteration_refreshFrame r :
  preserves (refreshFrame env)
    (refreshBleachIteration MAX_REFRESH_RETRIES env r).
Proof.
  unfold refreshBleachIteration, delay. frame_steps.
Qed.

Lemma refreshColorIteration_refreshFrame lim r :
  preserves (refreshFrame env)
    (refreshColorIteration MAX_REFRESH_RETRIES env lim r).
Proof.
  unfold refreshColorIteration, delay. frame_steps.
Qed.

(** [refreshDisplay] writes no member other than the per-segment refresh
    flags, which it only sets, and the stop flag an interrupt sets. *)
Lemma refreshDisplay_refreshFrame fuel :
  preserves (refreshFrame env)
    (refreshDisplay ADC_DAC_MAX_LSB MAX_REFRESH_RETRIES env fuel).
Proof.
  unfold refreshDisplay. frame_steps.
  - apply preserves_whileNeeded; try typeclasses eauto.
    apply refreshBleachIteration_refreshFrame.
  - apply preserves_whileNeeded; try typeclasses eauto.
    apply refreshColorIteration_refreshFrame.
Qed.

Lemma disableAllSegments_driveFrame :
  preserves (driveFrame env) disableAllSegments.
Proof.
  unfold disableAllSegments, disableSegment, pinMode. frame_steps.
Qed.

Lemma enableCounterElectrode_driveFrame v :
  preserves (driveFrame env) (enableCounterElectrode ADC_DAC_MAX_LSB v).
Proof.
  unfold enableCounterElectrode, analogWrite, delay. frame_steps.
Qed.

Lemma disableCounterElectrode_driveFrame :
  preserves (driveFrame env) disableCounterElectrode.
Proof.
  unfold disableCounterElectrode, analogWrite. frame_steps.
Qed.

Hint Resolve disableAllSegments_driveFrame enableCounterElectrode_driveFrame
  disableCounterElectrode_driveFrame : frames.

Lemma driveSegment_driveFrame target i b :
  preserves (driveFrame env) (driveSegment env target i b).
Proof.
  unfold driveSegment, pinMode, digitalWrite. frame_steps.
Qed.

Hint Resolve driveSegment_driveFrame : frames.

Lemma drivePhase_driveFrame target v ms :
  preserves (driveFrame env) (drivePhase ADC_DAC_MAX_LSB env target v ms).
Proof.
  unfold drivePhase, holdIfRequired, delay. frame_steps.
Qed.

Hint Resolve drivePhase_driveFrame : frames.

Lemma driveDisplay_driveFrame :
  preserves (driveFrame env) (driveDisplay ADC_DAC_MAX_LSB env).
Proof. unfold driveDisplay. frame_steps. Qed.

(** [executeDisplay] never writes [m_nextState], never clears a refresh
    flag and never clears the stop flag. *)
Lemma executeDisplay_executeFrame fuel :
  preserves (executeFrame env)
    (executeDisplay ADC_DAC_MAX_LSB MAX_REFRESH_RETRIES env fuel).
Proof.
  unfold executeDisplay.
  apply preserves_bind; try typeclasses eauto.
  - apply (preserves_weaken (driveFrame env));
      [apply driveFrame_executeFrame | apply driveDisplay_driveFrame].
  - intros _. apply preserves_bind; try typeclasses eauto.
    + apply preserves_call.
      apply (preserves_weaken (refreshFrame env));
        [apply refreshFrame_executeFrame | apply refreshDisplay_refreshFrame].
    + intros _. apply (preserves_weaken (refreshFrame env));
        [apply refreshFrame_executeFrame | apply stopCheck_refreshFrame].
Qed.

#[local] Instance flagsUntouched_refl : Reflexive flagsUntouched.
Proof. intros w. reflexivity. Qed.

#[local] Instance flagsUntouched_trans : Transitive flagsUntouched.
Proof. intros w1 w2 w3 H1 H2. unfold flagsUntouched in *. congruence. Qed.

Lemma flagsUntouched_flagsKept (w w' : World) :
  flagsUntouched w w' -> flagsKept w w'.
Proof. intros H i Hi. rewrite H. exact Hi. Qed.

Lemma modify_flagsUntouched f :
  (forall d, m_refreshSegmentNeeded (f d) = m_refreshSegmentNeeded d) ->
  preserves flagsUntouched (modify f).
Proof. intros Hf w. apply Hf. Qed.

Lemma emit_flagsUntouched e : preserves flagsUntouched (emit e).
Proof. intros w. reflexivity. Qed.

Lemma setSegmentState_flagsUntouched i b :
  preserves flagsUntouched (setSegmentState i b).
Proof. intros w. reflexivity. Qed.

Lemma setAllSegments_flagsUntouched b :
  preserves flagsUntouched (setAllSegments b).
Proof.
  unfold setAllSegments. apply preserves_forSegments; try typeclasses eauto.
  intros i _. apply setSegmentState_flagsUntouched.
Qed.

Lemma updateSupplyVoltage_flagsUntouched v :
  preserves flagsUntouched (updateSupplyVoltage ADC_DAC_MAX_LSB v).
Proof. intros w. reflexivity. Qed.

(** The constructor assigns no refresh flag. *)
Lemma YNV_ECD_flagsUntouched PIN_CE ADC_DAC_RESOLUTION n segs :
  preserves flagsUntouched (YNV_ECD PIN_CE ADC_DAC_RESOLUTION n segs).
Proof.
  unfold YNV_ECD, constructSegment, pinMode.
  repeat first
    [ apply emit_flagsUntouched
    | apply modify_flagsUntouched; intros d; reflexivity
    | apply preserves_forSegments; try typeclasses eauto; intros ? ?
    | apply preserves_get; typeclasses eauto
    | apply preserves_bind; try typeclasses eauto; [| intros ?] ].
Qed.

Lemma executeDisplay_flagsKept fuel :
  preserves flagsKept
    (executeDisplay ADC_DAC_MAX_LSB MAX_REFRESH_RETRIES env fuel).
Proof.
  apply (preserves_weaken (executeFrame env));
    [|apply executeDisplay_executeFrame].
  intros w w' H. apply H.
Qed.

Lemma refreshDisplay_flagsKept fuel :
  preserves flagsKept
    (refreshDisplay ADC_DAC_MAX_LSB MAX_REFRESH_RETRIES env fuel).
Proof.
  apply (preserves_weaken (refreshFrame env));
    [|apply refreshDisplay_refreshFrame].
  intros w w' H. apply H.
Qed.

Lemma begin_flagsKept fuel :
  preserves flagsKept (begin ADC_DAC_MAX_LSB MAX_REFRESH_RETRIES env fuel).
Proof.
  unfold begin.
  assert (Hs : forall b, preserves flagsKept (setAllSegments b)).
  { intros b. apply (preserves_weaken flagsUntouched);
      [apply flagsUntouched_flagsKept | apply setAllSegments_flagsUntouched]. }
  apply preserves_bind; try typeclasses eauto; [apply Hs | intros _].
  apply preserves_bind; try typeclasses eauto;
    [apply preserves_call, executeDisplay_flagsKept | intros _].
  apply preserves_bind; try typeclasses eauto; [apply Hs | intros _].
  apply preserves_call, executeDisplay_flagsKept.
Qed.

End Frames.

(** ** The drive phases on the driver's members *)

Lemma driveStep_coreDrive target d i :
  coreDrive (driveStep target d i) = coreDrive d.
Proof. unfold driveStep. destruct (pendingTo target d i); reflexivity. Qed.

Lemma driveStep_flag target d i :
  m_stopDrivingFlag (driveStep target d i) = m_stopDrivingFlag d.
Proof. unfold driveStep. destruct (pendingTo target d i); reflexivity. Qed.

Lemma driveStep_length target d i :
  length (m_currentState (driveStep target d i)) = length (m_currentState d).
Proof.
  unfold driveStep. destruct (pendingTo target d i); [|reflexivity].
  cbn. apply length_insert.
Qed.

Lemma applyPhase_cons target i l d :
  applyPhase target (i :: l) d = applyPhase target l (driveStep target d i).
Proof. reflexivity. Qed.

Lemma applyPhase_coreDrive target l d :
  coreDrive (applyPhase target l d) = coreDrive d.
Proof.
  revert d. induction l as [|i l IH]; intros d; [reflexivity|].
  rewrite applyPhase_cons, IH. apply driveStep_coreDrive.
Qed.

Lemma applyPhase_flag target l d :
  m_stopDrivingFlag (applyPhase target l d) = m_stopDrivingFlag d.
Proof.
  revert d. induction l as [|i l IH]; intros d; [reflexivity|].
  rewrite applyPhase_cons, IH. apply driveStep_flag.
Qed.

Lemma applyPhase_length target l d :
  length (m_currentState (applyPhase target l d)) = length (m_currentState d).
Proof.
  revert d. induction l as [|i l IH]; intros d; [reflexivity|].
  rewrite applyPhase_cons, IH. apply driveStep_length.
Qed.

Lemma applyPhase_app target l1 l2 d :
  applyPhase target (l1 ++ l2) d = applyPhase target l2 (applyPhase target l1 d).
Proof. unfold applyPhase. apply foldl_app. Qed.

Lemma phaseEvents_app target l1 l2 d :
  phaseEvents target (l1 ++ l2) d
  = phaseEvents target l1 d ++ phaseEvents target l2 (applyPhase target l1 d).
Proof.
  revert d. induction l1 as [|i l1 IH]; intros d; cbn; [reflexivity|].
  rewrite IH, <- app_assoc. reflexivity.
Qed.

Lemma pendingTo_true target d i :
  pendingTo target d i = true ->
  m_nextState d !!! i = target /\ m_nextState d !!! i <> m_currentState d !!! i.
Proof.
  unfold pendingTo. intros H. apply andb_true_iff in H as [H1 H2].
  apply bool_decide_eq_true_1 in H1. apply bool_decide_eq_true_1 in H2.
  split; assumption.
Qed.

Lemma pendingTo_false target d i :
  pendingTo target d i = false ->
  m_nextState d !!! i = target -> m_currentState d !!! i = target.
Proof.
  unfold pendingTo. intros H Hn.
  rewrite (bool_decide_eq_true_2 _ Hn), andb_true_r in H.
  apply bool_decide_eq_false_1 in H.
  destruct (decide (m_nextState d !!! i = m_currentState d !!! i)) as [E|E].
  - congruence.
  - contradiction.
Qed.

Lemma pendingTo_ext target d d' i :
  m_nextState d !!! i = m_nextState d' !!! i ->
  m_currentState d !!! i = m_currentState d' !!! i ->
  pendingTo target d i = pendingTo target d' i.
Proof. unfold pendingTo. intros -> ->. reflexivity. Qed.

Lemma driveStep_lookup_ne target d i j :
  i <> j ->
  m_currentState (driveStep target d j) !!! i = m_currentState d !!! i.
Proof.
  intros Hne. unfold driveStep. destruct (pendingTo target d j); [|reflexivity].
  cbn. apply list_lookup_total_insert_ne. congruence.
Qed.

Lemma driveStep_lookup_eq target d i :
  (i < length (m_currentState d))%nat ->
  m_currentState (driveStep target d i) !!! i
  = if pendingTo target d i then target else m_currentState d !!! i.
Proof.
  intros Hi. unfold driveStep. destruct (pendingTo target d i) eqn:E.
  - cbn. rewrite list_lookup_total_insert_eq by exact Hi.
    apply pendingTo_true in E as [E _]. exact E.
  - reflexivity.
Qed.

Lemma driveStep_next target d i :
  m_nextState (driveStep target d i) = m_nextState d.
Proof.
  pose proof (driveStep_coreDrive target d i) as H.
  apply coreDrive_fields in H. destruct H as (H & _). exact H.
Qed.

(** The state a phase leaves in segment [i]. *)
Lemma applyPhase_lookup target l d i :
  (i < length (m_currentState d))%nat ->
  m_currentState (applyPhase target l d) !!! i
  = if bool_decide (i ∈ l) && pendingTo target d i then target
    else m_currentState d !!! i.
Proof.
  revert d. induction l as [|j l IH]; intros d Hi; [reflexivity|].
  rewrite applyPhase_cons, IH by (rewrite driveStep_length; exact Hi).
  destruct (decide (i = j)) as [->|Hne].
  - rewrite (bool_decide_eq_true_2 (j ∈ j :: l)) by (left).
    cbn [andb].
    assert (Hp : pendingTo target (driveStep target d j) j = false).
    { unfold pendingTo. rewrite driveStep_next, driveStep_lookup_eq by exact Hi.
      destruct (pendingTo target d j) eqn:E.
      - apply pendingTo_true in E as [E _].
        rewrite bool_decide_eq_false_2; [reflexivity|].
        intros H. apply H. exact E.
      - exact E. }
    rewrite Hp, andb_false_r. apply driveStep_lookup_eq. exact Hi.
  - rewrite (pendingTo_ext target (driveStep target d j) d i).
    + rewrite driveStep_lookup_ne by exact Hne.
      assert (Hin : bool_decide (i ∈ j :: l) = bool_decide (i ∈ l)).
      { apply bool_decide_ext. rewrite elem_of_cons.
        split; [intros [E|E]; [contradiction | exact E] | intros E; right; exact E]. }
      rewrite Hin. reflexivity.
    + rewrite driveStep_next. reflexivity.
    + apply driveStep_lookup_ne. exact Hne.
Qed.

Lemma alikeOn_cons_inv i l d d' :
  alikeOn (i :: l) d d' -> alikeOn l d d'.
Proof.
  intros (A & B & C & D). repeat split; auto.
  intros j Hj. apply D. right. exact Hj.
Qed.

Lemma alikeOn_pendingTo target i l d d' :
  alikeOn l d d' -> i ∈ l -> pendingTo target d i = pendingTo target d' i.
Proof.
  intros (A & B & C & D) Hi. apply pendingTo_ext; [rewrite A|]; auto.
Qed.

Lemma alikeOn_driveStep target j l d d' :
  alikeOn (j :: l) d d' ->
  alikeOn l (driveStep target d j) (driveStep target d' j).
Proof.
  intros H. pose proof H as (A & B & C & D).
  assert (Hp : pendingTo target d j = pendingTo target d' j)
    by (apply (alikeOn_pendingTo target j (j :: l)); [exact H | left]).
  repeat split.
  - rewrite !driveStep_next. exact A.
  - pose proof (driveStep_coreDrive target d j) as H1.
    pose proof (driveStep_coreDrive target d' j) as H2.
    apply coreDrive_fields in H1 as (_ & -> & _).
    apply coreDrive_fields in H2 as (_ & -> & _). exact B.
  - rewrite !driveStep_length. exact C.
  - intros i Hi. unfold driveStep. rewrite Hp.
    destruct (pendingTo target d' j); [|apply D; right; exact Hi].
    cbn. rewrite !list_lookup_total_insert, A, C.
    rewrite (D i) by (right; exact Hi).
    destruct (decide (j = i ∧ (j < length (m_currentState d'))%nat));
      reflexivity.
Qed.

Lemma alikeOn_driveStep_notin target j l d :
  j ∉ l -> alikeOn l d (driveStep target d j).
Proof.
  intros Hj. repeat split.
  - rewrite driveStep_next. reflexivity.
  - pose proof (driveStep_coreDrive target d j) as H1.
    apply coreDrive_fields in H1 as (_ & -> & _). reflexivity.
  - rewrite driveStep_length. reflexivity.
  - intros i Hi. rewrite driveStep_lookup_ne; [reflexivity|].
    intros ->. contradiction.
Qed.

Lemma phaseEvents_ext target l : forall d d',
  alikeOn l d d' -> phaseEvents target l d = phaseEvents target l d'.
Proof.
  induction l as [|j l IH]; intros d d' H; cbn; [reflexivity|].
  rewrite (alikeOn_pendingTo target j (j :: l) d d' H) by left.
  pose proof H as (A & B & _).
  unfold transitionEvents, pinOf. rewrite A, B.
  f_equal. apply IH. apply alikeOn_driveStep. exact H.
Qed.

Lemma phaseDelay_ext target l : forall d d' acc,
  alikeOn l d d' -> phaseDelay target l d acc = phaseDelay target l d' acc.
Proof.
  induction l as [|j l IH]; intros d d' acc H; cbn; [reflexivity|].
  rewrite (alikeOn_pendingTo target j (j :: l) d d' H) by left.
  apply IH. apply alikeOn_driveStep. exact H.
Qed.

(** On distinct indices the loop meets every segment in its initial state:
    its events are those of the plan, and a hold is due exactly when the
    plan is not empty. *)
Lemma phaseEvents_filter target l : forall d,
  NoDup l ->
  phaseEvents target l d
  = flat_map (transitionEvents d) (List.filter (pendingTo target d) l).
Proof.
  induction l as [|j l IH]; intros d Hnd; cbn; [reflexivity|].
  apply NoDup_cons in Hnd as [Hj Hnd].
  rewrite <- (phaseEvents_ext target l d (driveStep target d j))
    by (apply alikeOn_driveStep_notin; exact Hj).
  rewrite IH by exact Hnd.
  destruct (pendingTo target d j); reflexivity.
Qed.

Lemma phaseDelay_true target l d : phaseDelay target l d true = true.
Proof.
  revert d. induction l as [|j l IH]; intros d; cbn; [reflexivity|].
  destruct (pendingTo target d j); apply IH.
Qed.

Lemma phaseDelay_filter target l : forall d,
  NoDup l ->
  phaseDelay target l d false
  = match List.filter (pendingTo target d) l with [] => false | _ => true end.
Proof.
  induction l as [|j l IH]; intros d Hnd; cbn; [reflexivity|].
  apply NoDup_cons in Hnd as [Hj Hnd].
  rewrite <- (phaseDelay_ext target l d (driveStep target d j))
    by (apply alikeOn_driveStep_notin; exact Hj).
  destruct (pendingTo target d j).
  - apply phaseDelay_true.
  - apply IH. exact Hnd.
Qed.

(** ** Running the drive phases *)

Section DriveRuns.

Variable ADC_DAC_MAX_LSB : Z.
Variable MAX_REFRESH_RETRIES : Z.
Variable env : Env.

(** A test of the stop flag either passes, leaving everything but the
    count of tests as it was, or returns at once with the flag set and no
    hardware event. *)
Lemma stopCheck_run (w : World) :
  (stopCheck env w = (Done tt, mkWorld (drv w) (events w) (S (polls w)))
   /\ irq env (polls w) = false /\ m_stopDrivingFlag (drv w) = false)
  \/ (stopCheck env w
      = (Returned StopRequested,
         mkWorld (set_stopDrivingFlag true (drv w)) (events w) (S (polls w)))
      /\ (m_stopDrivingFlag (drv w) = false -> irq env (polls w) = true)).
Proof.
  unfold stopCheck.
  destruct (irq env (polls w)) eqn:Ei; cbn.
  - right. split; [reflexivity | auto].
  - destruct (m_stopDrivingFlag (drv w)) eqn:Ef.
    + right. split; [|congruence].
      do 2 f_equal. rewrite <- Ef. unfold set_stopDrivingFlag.
      symmetry. apply driver_eta.
    + left. auto.
Qed.

Lemma driveSegment_run target i acc (w : World) :
  (driveSegment env target i acc w
   = (Done (if pendingTo target (drv w) i then true else acc),
      mkWorld (driveStep target (drv w) i)
        (rev (phaseEvents target [i] (drv w)) ++ events w) (S (polls w)))
   /\ irq env (polls w) = false /\ m_stopDrivingFlag (drv w) = false)
  \/ (driveSegment env target i acc w
      = (Returned StopRequested,
         mkWorld (set_stopDrivingFlag true (drv w)) (events w) (S (polls w)))
      /\ (m_stopDrivingFlag (drv w) = false -> irq env (polls w) = true)).
Proof.
  unfold driveSegment.
  destruct (stopCheck_run w) as [(E & Hi & Hf) | (E & Hi)].
  - left. split; [|auto].
    rewrite (bind_Done _ _ _ _ _ E). cbn.
    unfold driveStep. destruct (pendingTo target (drv w) i); reflexivity.
  - right. split; [|exact Hi].
    rewrite (bind_Returned _ _ _ _ _ E). reflexivity.
Qed.

(** A drive loop either passes all its segments, or returns at the first
    test that sees a stop request, with the segments before that test
    handled and the others untouched. *)
Lemma driveLoop_run target l : forall acc (w : World),
  (forEach l (driveSegment env target) acc w
   = (Done (phaseDelay target l (drv w) acc),
      mkWorld (applyPhase target l (drv w))
        (rev (phaseEvents target l (drv w)) ++ events w)
        (polls w + length l))
   /\ (forall j, (j < length l)%nat -> irq env (polls w + j) = false)
   /\ (l <> [] -> m_stopDrivingFlag (drv w) = false))
  \/ (exists k, (k < length l)%nat
      /\ forEach l (driveSegment env target) acc w
         = (Returned StopRequested,
            mkWorld
              (set_stopDrivingFlag true (applyPhase target (take k l) (drv w)))
              (rev (phaseEvents target (take k l) (drv w)) ++ events w)
              (polls w + k + 1))
      /\ (forall j, (j < k)%nat -> irq env (polls w + j) = false)
      /\ (m_stopDrivingFlag (drv w) = false -> irq env (polls w + k) = true)).
Proof.
  induction l as [|i l IH]; intros acc w.
  - left. cbn. rewrite Nat.add_0_r, world_eta.
    split; [reflexivity|]. split; [intros j Hj; lia | congruence].
  - cbn [forEach].
    destruct (driveSegment_run target i acc w) as [(E & Hi & Hf) | (E & Hi)].
    + rewrite (bind_Done _ _ _ _ _ E).
      destruct (IH (if pendingTo target (drv w) i then true else acc)
                  (mkWorld (driveStep target (drv w) i)
                     (rev (phaseEvents target [i] (drv w)) ++ events w)
                     (S (polls w))))
        as [(E2 & Hj & _) | (k & Hk & E2 & Hj & Hl)]; cbn in *.
      * left. rewrite E2. split; [|split].
        -- f_equal. f_equal; [|lia].
           rewrite app_nil_r, rev_app_distr, <- app_assoc. reflexivity.
        -- intros j Hlt. destruct j as [|j].
           ++ rewrite Nat.add_0_r. exact Hi.
           ++ replace (polls w + S j)%nat with (S (polls w + j)) by lia.
              apply Hj. lia.
        -- intros _. exact Hf.
      * right. exists (S k). split; [lia|]. rewrite E2. split; [|split].
        -- f_equal. f_equal; [|lia].
           cbn. rewrite app_nil_r, rev_app_distr, <- app_assoc. reflexivity.
        -- intros j Hlt. destruct j as [|j].
           ++ rewrite Nat.add_0_r. exact Hi.
           ++ replace (polls w + S j)%nat with (S (polls w + j)) by lia.
              apply Hj. lia.
        -- intros Hf'. replace (polls w + S k)%nat with (S (polls w + k)) by lia.
           apply Hl. rewrite driveStep_flag. exact Hf'.
    + right. exists 0%nat. cbn. split; [lia|].
      rewrite (bind_Returned _ _ _ _ _ E). split; [|split].
      * f_equal. f_equal. lia.
      * intros j Hj. lia.
      * rewrite Nat.add_0_r. exact Hi.
Qed.

Lemma forEach_disable l : forall (w : World),
  forEach l disableSegment tt w
  = (Done tt,
     mkWorld (drv w)
       (rev (map (fun i => EvPinMode (pinOf (drv w) i) INPUT) l) ++ events w)
       (polls w)).
Proof.
  induction l as [|i l IH]; intros w.
  - cbn. rewrite world_eta. reflexivity.
  - cbn [forEach]. unfold disableSegment at 1, pinMode.
    cbn. rewrite IH. cbn.
    rewrite <- app_assoc. reflexivity.
Qed.

Lemma disableAllSegments_run (w : World) :
  disableAllSegments w
  = (Done tt,
     mkWorld (drv w) (rev (floatEvents (drv w)) ++ events w) (polls w)).
Proof.
  unfold disableAllSegments, forSegments. cbn. apply forEach_disable.
Qed.

Lemma enableCounterElectrode_run v (w : World) :
  enableCounterElectrode ADC_DAC_MAX_LSB v w
  = (Done tt,
     mkWorld (drv w)
       (rev (counterElectrodeEvents ADC_DAC_MAX_LSB (drv w) v) ++ events w)
       (polls w)).
Proof. reflexivity. Qed.

Lemma segmentIndices_NoDup d : NoDup (segmentIndices d).
Proof. apply NoDup_seq. Qed.

Lemma segmentIndices_coreDrive d d' :
  coreDrive d = coreDrive d' -> segmentIndices d = segmentIndices d'.
Proof.
  intros H. apply coreDrive_fields in H. destruct H as (_ & _ & H & _).
  unfold segmentIndices. rewrite H. reflexivity.
Qed.

Lemma floatEvents_coreDrive d d' :
  coreDrive d = coreDrive d' -> floatEvents d = floatEvents d'.
Proof.
  intros H. unfold floatEvents, pinOf.
  rewrite (segmentIndices_coreDrive d d' H).
  apply coreDrive_fields in H. destruct H as (_ & -> & _). reflexivity.
Qed.

Lemma stoppedAtFirstRequest_after (w w1 w' : World) :
  (polls w <= polls w1)%nat ->
  noRequestBetween env (polls w) (polls w1) ->
  m_stopDrivingFlag (drv w1) = m_stopDrivingFlag (drv w) ->
  stoppedAtFirstRequest env w1 w' ->
  stoppedAtFirstRequest env w w'.
Proof.
  intros Hle Hno Hf (A & B & C). split; [lia|]. split.
  - intros j Hj. destruct (Nat.lt_ge_cases j (polls w1)).
    + apply Hno. lia.
    + apply B. lia.
  - intros H. apply C. congruence.
Qed.

Lemma forSegments_run {S} (body : nat -> S -> M S) (s : S) (w : World) :
  forSegments body s w = forEach (segmentIndices (drv w)) body s w.
Proof. reflexivity. Qed.

(** One drive phase: it runs to its end, or it returns at the first test
    that sees a stop request, having emitted a beginning of the phase's
    events and handled the segments before the cut [k]. *)
Lemma drivePhase_run target v ms (w : World) :
  let d := drv w in
  (exists p',
     drivePhase ADC_DAC_MAX_LSB env target v ms w
     = (Done tt,
        mkWorld (applyPhase target (segmentIndices d) d)
          (rev (phaseTrace ADC_DAC_MAX_LSB target v ms d) ++ events w) p')
     /\ (polls w <= p')%nat
     /\ noRequestBetween env (polls w) p')
  \/ (exists k new rest w',
        drivePhase ADC_DAC_MAX_LSB env target v ms w
        = (Returned StopRequested, w')
        /\ (k <= length (segmentIndices d))%nat
        /\ drv w'
           = set_stopDrivingFlag true
               (applyPhase target (take k (segmentIndices d)) d)
        /\ events w' = rev new ++ events w
        /\ phaseTrace ADC_DAC_MAX_LSB target v ms d = new ++ rest
        /\ stoppedAtFirstRequest env w w').
Proof.
  intros d. unfold drivePhase.
  rewrite (bind_Done _ _ _ _ _ (enableCounterElectrode_run v w)).
  set (w1 := mkWorld (drv w) _ _).
  destruct (driveLoop_run target (segmentIndices d) false w1)
    as [(E & Hj & _) | (k & Hk & E & Hj & Hl)];
    change (drv w1) with d in *.
  - (* the loop passes every segment *)
    rewrite (bind_Done _ _ _ _ _ (E : forSegments _ _ w1 = _)).
    rewrite phaseDelay_filter, phaseEvents_filter
      by apply segmentIndices_NoDup.
    fold (plan target d).
    unfold holdIfRequired.
    destruct (plan target d) as [|i0 pl] eqn:Epl.
    + (* nothing to hold for *)
      left. eexists.
      cbn [bind ret]. rewrite disableAllSegments_run. cbn [drv events polls].
      split; [|split].
      * f_equal. f_equal.
        unfold phaseTrace. rewrite Epl. cbn [flat_map holdEvents app].
        rewrite (floatEvents_coreDrive _ d)
          by apply applyPhase_coreDrive.
        unfold w1. cbn [events].
        rewrite !rev_app_distr, <- !app_assoc. reflexivity.
      * unfold w1. cbn. lia.
      * intros j Hlt. unfold w1 in *. cbn in *.
        replace j with (polls w + (j - polls w))%nat by lia.
        apply Hj. lia.
    + (* the hold, behind one more test *)
      set (w2 := mkWorld _ _ _).
      assert (Hno : noRequestBetween env (polls w) (polls w2)).
      { intros j Hlt. unfold w2, w1 in *. cbn in *.
        replace j with (polls w + (j - polls w))%nat by lia.
        apply Hj. lia. }
      destruct (stopCheck_run w2) as [(E2 & Hi & Hf) | (E2 & Hi)].
      * left. eexists.
        rewrite (bind_Done _ _ _ _ _ (bind_Done _ _ _ _ _ E2 : _ = _)).
        unfold delay, emit. cbn [drv events polls].
        rewrite disableAllSegments_run. cbn [drv events polls].
        split; [|split].
        -- f_equal. f_equal.
           unfold phaseTrace. rewrite Epl. cbn [holdEvents].
           rewrite (floatEvents_coreDrive _ d)
             by apply applyPhase_coreDrive.
           unfold w1. cbn [events].
           rewrite !rev_app_distr, <- !app_assoc. reflexivity.
        -- unfold w1. cbn. lia.
        -- intros j Hlt. destruct (Nat.eq_dec j (polls w2)) as [->|Hne].
           ++ exact Hi.
           ++ apply Hno. unfold w2, w1 in *. cbn in *. lia.
      * right.
        exists (length (segmentIndices d)),
          (counterElectrodeEvents ADC_DAC_MAX_LSB d v
             ++ flat_map (transitionEvents d) (plan target d)),
          (holdEvents (plan target d) ms ++ floatEvents d).
        eexists.
        rewrite (bind_Returned _ _ _ _ _
                   (bind_Returned _ _ _ _ _ E2 : _ = _)).
        split; [reflexivity|]. cbn [drv events polls].
        split; [lia|]. split; [|split; [|split]].
        -- rewrite firstn_all. unfold set_stopDrivingFlag.
           cbn. reflexivity.
        -- rewrite Epl. unfold w1. cbn [events].
           rewrite !rev_app_distr, <- !app_assoc. reflexivity.
        -- unfold phaseTrace. rewrite <- !app_assoc. reflexivity.
        -- split; [unfold w2, w1; cbn; lia|].
           cbn [polls]. replace (S (polls w2) - 1)%nat with (polls w2) by lia.
           split; [exact Hno|].
           intros Hf. apply Hi. unfold w2. cbn [drv].
           rewrite applyPhase_flag. exact Hf.
  - (* a test inside the loop sees the request *)
    right.
    exists k,
      (counterElectrodeEvents ADC_DAC_MAX_LSB d v
         ++ phaseEvents target (take k (segmentIndices d)) d),
      (phaseEvents target (drop k (segmentIndices d))
         (applyPhase target (take k (segmentIndices d)) d)
         ++ holdEvents (plan target d) ms ++ floatEvents d).
    eexists.
    rewrite (bind_Returned _ _ _ _ _ (E : forSegments _ _ w1 = _)).
    split; [reflexivity|]. cbn [drv events polls].
    split; [lia|]. split; [reflexivity|]. split; [|split].
    + unfold w1. cbn [events].
      rewrite !rev_app_distr, <- !app_assoc. reflexivity.
    + unfold phaseTrace, plan.
      rewrite <- phaseEvents_filter by apply segmentIndices_NoDup.
      rewrite <- (take_drop k (segmentIndices d)) at 1.
      rewrite phaseEvents_app, <- !app_assoc. reflexivity.
    + split; [unfold w1; cbn; lia|]. unfold w1 in *. cbn [polls] in *.
      replace (polls w + k + 1 - 1)%nat with (polls w + k)%nat by lia.
      split; [|exact Hl].
      intros j Hlt. replace j with (polls w + (j - polls w))%nat by lia.
      apply Hj. lia.
Qed.

Lemma bind_get {B} (k : Driver -> M B) (w : World) :
  bind get k w = k (drv w) w.
Proof. reflexivity. Qed.

Lemma disableCounterElectrode_run (w : World) :
  disableCounterElectrode w
  = (Done tt,
     mkWorld (drv w)
       (EvAnalogWrite (m_counterElectrodePin (drv w)) 0 :: events w)
       (polls w)).
Proof. reflexivity. Qed.

Lemma afterBleach_coreDrive d : coreDrive (afterBleach d) = coreDrive d.
Proof. apply applyPhase_coreDrive. Qed.

Lemma afterDrive_coreDrive d : coreDrive (afterDrive d) = coreDrive d.
Proof.
  unfold afterDrive. rewrite applyPhase_coreDrive. apply afterBleach_coreDrive.
Qed.

(** The two phases in sequence.  When a stop is requested the driver is
    left at a cut [(kb, kc)]: the bleach loop has passed [kb] segments and
    the color loop [kc], and the events emitted are a beginning of the
    events of the complete run. *)
Lemma driveDisplay_run (w : World) :
  let d := drv w in
  let idx := segmentIndices d in
  (exists p',
     driveDisplay ADC_DAC_MAX_LSB env w
     = (Done tt,
        mkWorld (afterDrive d)
          (rev (driveTrace ADC_DAC_MAX_LSB d) ++ events w) p')
     /\ (polls w <= p')%nat
     /\ noRequestBetween env (polls w) p')
  \/ (exists kb kc new rest w',
        driveDisplay ADC_DAC_MAX_LSB env w = (Returned StopRequested, w')
        /\ (kb <= length idx)%nat /\ (kc <= length idx)%nat
        /\ ((kb < length idx)%nat -> kc = 0%nat)
        /\ drv w'
           = set_stopDrivingFlag true
               (applyPhase SEGMENT_STATE_COLOR (take kc idx)
                  (applyPhase SEGMENT_STATE_BLEACH (take kb idx) d))
        /\ events w' = rev new ++ events w
        /\ driveTrace ADC_DAC_MAX_LSB d = new ++ rest
        /\ stoppedAtFirstRequest env w w').
Proof.
  intros d idx. unfold driveDisplay. rewrite bind_get.
  destruct (drivePhase_run SEGMENT_STATE_BLEACH
              (bleachingVoltage (m_cfg (drv w)))
              (bleachingTime (m_cfg (drv w))) w)
    as [(p1 & E1 & Hp1 & Hno1) | (k & new & rest & w' & E1 & Hk & Hd & He & Ht & Hs)];
    fold d in E1 |- *; fold idx in E1 |- *.
  - rewrite (bind_Done _ _ _ _ _ E1), bind_get. cbn [drv].
    change (applyPhase SEGMENT_STATE_BLEACH idx d) with (afterBleach d).
    pose proof (afterBleach_coreDrive d) as Hc.
    pose proof (coreDrive_fields _ _ Hc) as (_ & _ & _ & Hce & Hsv & Hcfg & _).
    match goal with
    | |- context [bind _ _ ?w0] => set (w1 := w0)
    end.
    pose proof (drivePhase_run SEGMENT_STATE_COLOR
                (m_supplyVoltage (afterBleach d)
                 - coloringVoltage (m_cfg (afterBleach d)))%Q
                (coloringTime (m_cfg (afterBleach d))) w1) as H2.
    cbn [drv w1] in H2.
    change (drv w1) with (afterBleach d) in H2.
    rewrite (segmentIndices_coreDrive _ _ Hc) in H2. fold idx in H2.
    destruct H2
      as [(p2 & E2 & Hp2 & Hno2)
         | (k & new & rest & w' & E2 & Hk & Hd & He & Ht & Hs)].
    + left. exists p2.
      change (applyPhase SEGMENT_STATE_COLOR idx (afterBleach d))
        with (afterDrive d) in *.
      rewrite (bind_Done _ _ _ _ _ E2), disableCounterElectrode_run.
      cbn [drv events polls].
      pose proof (afterDrive_coreDrive d) as Hc2.
      pose proof (coreDrive_fields _ _ Hc2) as (_ & _ & _ & Hce2 & _).
      split; [|split].
      * f_equal. f_equal.
        unfold driveTrace. unfold w1. cbn [events].
        rewrite Hce2, Hsv, Hcfg.
        rewrite !rev_app_distr, <- !app_assoc. reflexivity.
      * unfold w1 in Hp2. cbn in Hp2. lia.
      * intros j Hlt. unfold w1 in *. cbn in *.
        destruct (Nat.lt_ge_cases j p1).
        -- apply Hno1. lia.
        -- apply Hno2. lia.
    + right.
      exists (length idx), k,
        (phaseTrace ADC_DAC_MAX_LSB SEGMENT_STATE_BLEACH
           (bleachingVoltage (m_cfg d)) (bleachingTime (m_cfg d)) d ++ new),
        (rest ++ [EvAnalogWrite (m_counterElectrodePin d) 0]), w'.
      rewrite (bind_Returned _ _ _ _ _ E2).
      split; [reflexivity|]. split; [lia|]. split; [exact Hk|].
      split; [lia|]. split; [|split; [|split]].
      * rewrite firstn_all. exact Hd.
      * rewrite He. cbn [events].
        rewrite !rev_app_distr, <- !app_assoc. reflexivity.
      * unfold driveTrace. rewrite <- Hsv, <- Hcfg, Ht.
        rewrite <- !app_assoc. reflexivity.
      * apply (stoppedAtFirstRequest_after w w1 w').
        -- exact Hp1.
        -- exact Hno1.
        -- cbn. apply applyPhase_flag.
        -- exact Hs.
  - right. subst d idx.
    exists k, 0%nat, new,
      (rest ++ phaseTrace ADC_DAC_MAX_LSB SEGMENT_STATE_COLOR
         (m_supplyVoltage (drv w) - coloringVoltage (m_cfg (drv w)))%Q
         (coloringTime (m_cfg (drv w))) (afterBleach (drv w))
       ++ [EvAnalogWrite (m_counterElectrodePin (drv w)) 0]), w'.
    rewrite (bind_Returned _ _ _ _ _ E1).
    split; [reflexivity|]. split; [exact Hk|]. split; [lia|].
    split; [reflexivity|]. split; [exact Hd|]. split; [exact He|].
    split; [|exact Hs].
    unfold driveTrace. rewrite Ht, <- !app_assoc. reflexivity.
Qed.

End DriveRuns.

(** ** [executeDisplay] *)

Lemma elem_of_take_segmentIndices d k i :
  (i < numSegments d)%nat ->
  bool_decide (i ∈ take k (segmentIndices d)) = (i <? k)%nat.
Proof.
  intros Hi. unfold segmentIndices. fold (numSegments d).
  rewrite take_seq.
  destruct (i <? k)%nat eqn:E.
  - apply Nat.ltb_lt in E. apply bool_decide_eq_true_2.
    apply elem_of_seq. lia.
  - apply Nat.ltb_ge in E. apply bool_decide_eq_false_2.
    rewrite elem_of_seq. lia.
Qed.

(** The state of every segment at a cut of the two drive loops. *)
Lemma cut_lookup d kb kc i :
  wellFormed d -> (i < numSegments d)%nat ->
  m_currentState
    (applyPhase SEGMENT_STATE_COLOR (take kc (segmentIndices d))
       (applyPhase SEGMENT_STATE_BLEACH (take kb (segmentIndices d)) d)) !!! i
  = stateAfterCut d kb kc i.
Proof.
  intros (_ & Hc & _) Hi.
  assert (Hlen : (i < length (m_currentState d))%nat) by lia.
  set (d1 := applyPhase SEGMENT_STATE_BLEACH (take kb (segmentIndices d)) d).
  assert (H1 : m_currentState d1 !!! i
               = if (i <? kb)%nat && pendingTo SEGMENT_STATE_BLEACH d i
                 then SEGMENT_STATE_BLEACH else m_currentState d !!! i).
  { unfold d1. rewrite applyPhase_lookup by exact Hlen.
    rewrite elem_of_take_segmentIndices by exact Hi. reflexivity. }
  assert (Hn : m_nextState d1 = m_nextState d).
  { pose proof (applyPhase_coreDrive SEGMENT_STATE_BLEACH
                  (take kb (segmentIndices d)) d) as H.
    apply coreDrive_fields in H. destruct H as (H & _). exact H. }
  rewrite applyPhase_lookup
    by (unfold d1; rewrite applyPhase_length; exact Hlen).
  rewrite elem_of_take_segmentIndices by exact Hi.
  unfold stateAfterCut. rewrite H1.
  destruct ((i <? kb)%nat && pendingTo SEGMENT_STATE_BLEACH d i) eqn:Eb.
  - (* bleached by the first loop: not a candidate of the second *)
    apply andb_true_iff in Eb as [_ Eb].
    apply pendingTo_true in Eb as [Eb _].
    assert (Hp : pendingTo SEGMENT_STATE_COLOR d1 i = false).
    { unfold pendingTo. rewrite Hn, Eb.
      rewrite (bool_decide_eq_false_2
                 (SEGMENT_STATE_BLEACH = SEGMENT_STATE_COLOR)) by discriminate.
      apply andb_false_r. }
    rewrite Hp, andb_false_r. reflexivity.
  - rewrite (pendingTo_ext SEGMENT_STATE_COLOR d1 d i).
    + reflexivity.
    + rewrite Hn. reflexivity.
    + exact H1.
Qed.

Lemma stateAfterCut_old_or_new d kb kc i :
  stateAfterCut d kb kc i = m_currentState d !!! i
  \/ (stateAfterCut d kb kc i = m_nextState d !!! i
      /\ m_nextState d !!! i <> m_currentState d !!! i).
Proof.
  unfold stateAfterCut.
  destruct ((i <? kb)%nat && pendingTo SEGMENT_STATE_BLEACH d i) eqn:Eb.
  - right. apply andb_true_iff in Eb as [_ Eb].
    apply pendingTo_true in Eb as [E1 E2]. split; congruence.
  - destruct ((i <? kc)%nat && pendingTo SEGMENT_STATE_COLOR d i) eqn:Ec.
    + right. apply andb_true_iff in Ec as [_ Ec].
      apply pendingTo_true in Ec as [E1 E2]. split; congruence.
    + left. reflexivity.
Qed.

Lemma stateAfterCut_full d i :
  (i < numSegments d)%nat ->
  m_nextState d !!! i <> SEGMENT_STATE_UNDEFINED ->
  stateAfterCut d (numSegments d) (numSegments d) i = m_nextState d !!! i.
Proof.
  intros Hi Hn. unfold stateAfterCut.
  apply Nat.ltb_lt in Hi. rewrite Hi. cbn [andb].
  destruct (pendingTo SEGMENT_STATE_BLEACH d i) eqn:Eb.
  - apply pendingTo_true in Eb as [E _]. congruence.
  - destruct (pendingTo SEGMENT_STATE_COLOR d i) eqn:Ec.
    + apply pendingTo_true in Ec as [E _]. congruence.
    + destruct (m_nextState d !!! i) eqn:E.
      * apply (pendingTo_false _ _ _ Eb). exact E.
      * apply (pendingTo_false _ _ _ Ec). exact E.
      * contradiction.
Qed.

Lemma length_segmentIndices d : length (segmentIndices d) = numSegments d.
Proof. apply length_seq. Qed.

Lemma afterDrive_cut d :
  afterDrive d
  = applyPhase SEGMENT_STATE_COLOR (take (numSegments d) (segmentIndices d))
      (applyPhase SEGMENT_STATE_BLEACH
         (take (numSegments d) (segmentIndices d)) d).
Proof.
  rewrite <- length_segmentIndices, firstn_all. reflexivity.
Qed.

Lemma plan_pending target d i :
  i ∈ plan target d ->
  (i < numSegments d)%nat /\ pendingTo target d i = true.
Proof.
  unfold plan. rewrite list_elem_of_In, List.filter_In, <- list_elem_of_In.
  unfold segmentIndices. rewrite elem_of_seq. fold (numSegments d).
  intros [H1 H2]. split; [lia | exact H2].
Qed.

Section Execute.

Variable ADC_DAC_MAX_LSB : Z.
Variable MAX_REFRESH_RETRIES : Z.
Variable env : Env.

(** [executeDisplay] is its drive part, then the refresh, then one more
    test of the stop flag; only the drive part writes segment states. *)
Lemma executeDisplay_split fuel (w w' : World) o :
  executeDisplay ADC_DAC_MAX_LSB MAX_REFRESH_RETRIES env fuel w = (o, w') ->
  (exists wd,
     driveDisplay ADC_DAC_MAX_LSB env w = (Done tt, wd)
     /\ m_currentState (drv w') = m_currentState (drv wd)
     /\ events wd `suffix_of` events w'
     /\ (o = Done tt -> m_stopDrivingFlag (drv w') = false)
     /\ (o = Returned StopRequested -> m_stopDrivingFlag (drv w') = true))
  \/ (driveDisplay ADC_DAC_MAX_LSB env w = (Returned StopRequested, w')
      /\ o = Returned StopRequested).
Proof.
  unfold executeDisplay. intros H.
  apply bind_inv in H as [(u & wd & Hd & H) | [(s & Hd & ->) | (Hd & ->)]].
  - left. exists wd. destruct u. split; [exact Hd|].
    pose proof (preserves_call (refreshFrame env) _
                  (refreshDisplay_refreshFrame ADC_DAC_MAX_LSB
                     MAX_REFRESH_RETRIES env fuel) wd) as Hr.
    pose proof (stopCheck_refreshFrame env) as Hs.
    apply bind_inv in H as [(u & w2 & H2 & H) | [(s & H2 & ->) | (H2 & ->)]].
    + rewrite H2 in Hr. cbn in Hr. specialize (Hs w2). rewrite H in Hs.
      cbn in Hs. destruct Hr as (A & _ & _ & E & _).
      destruct Hs as (A' & _ & _ & E' & _).
      apply core_fields in A. destruct A as (A & _).
      apply core_fields in A'. destruct A' as (A' & _).
      split; [congruence|]. split; [etransitivity; eassumption|].
      destruct (stopCheck_run env w2) as [(E2 & _ & F2) | (E2 & _)];
        rewrite E2 in H; inversion H; subst; cbn; split; congruence.
    + unfold call in H2. destruct (refreshDisplay ADC_DAC_MAX_LSB MAX_REFRESH_RETRIES env fuel wd) as [[?|?|] ?];
        discriminate.
    + rewrite H2 in Hr. cbn in Hr. destruct Hr as (A & _ & _ & E & _).
      apply core_fields in A. destruct A as (A & _).
      split; [congruence|]. split; [exact E | split; discriminate].
  - right.
    destruct (driveDisplay_run ADC_DAC_MAX_LSB env w)
      as [(p' & E & _) | (kb & kc & new & rest & w1 & E & _)];
      rewrite E in Hd; inversion Hd; subst. split; [exact E | reflexivity].
  - destruct (driveDisplay_run ADC_DAC_MAX_LSB env w)
      as [(p' & E & _) | (kb & kc & new & rest & w1 & E & _)];
      rewrite E in Hd; discriminate.
Qed.

Lemma trace_app (w w' : World) new :
  events w' = rev new ++ events w -> trace w' = trace w ++ new.
Proof.
  intros H. unfold trace. rewrite H, rev_app_distr, rev_involutive.
  reflexivity.
Qed.

(** A completed [executeDisplay] leaves every segment at the full cut of
    the two loops. *)
Lemma executeDisplay_done_cut fuel (w w' : World) :
  wellFormed (drv w) ->
  executeDisplay ADC_DAC_MAX_LSB MAX_REFRESH_RETRIES env fuel w = (Done tt, w') ->
  exists wd,
    driveDisplay ADC_DAC_MAX_LSB env w = (Done tt, wd)
    /\ events wd = rev (driveTrace ADC_DAC_MAX_LSB (drv w)) ++ events w
    /\ m_currentState (drv w') = m_currentState (drv wd)
    /\ events wd `suffix_of` events w'
    /\ forall i, (i < numSegments (drv w))%nat ->
         m_currentState (drv w') !!! i
         = stateAfterCut (drv w) (numSegments (drv w)) (numSegments (drv w)) i.
Proof.
  intros Hwf H.
  destruct (executeDisplay_split _ _ _ _ H)
    as [(wd & Hd & Hc & Hs & _) | (_ & Ho)]; [|discriminate].
  exists wd. split; [exact Hd|].
  destruct (driveDisplay_run ADC_DAC_MAX_LSB env w)
    as [(p' & E & _) | (kb & kc & new & rest & w1 & E & _)];
    rewrite E in Hd; inversion Hd; subst wd; clear Hd.
  split; [reflexivity|]. split; [exact Hc|]. split; [exact Hs|].
  intros i Hi. rewrite Hc. cbn [drv]. rewrite afterDrive_cut.
  apply cut_lookup; assumption.
Qed.

(** C1: when [executeDisplay] runs to its end, every segment whose
    [nextState] is bleached or colored has [currentState = nextState]; a
    segment's state changes only if its two states differed, and the
    segment pins driven by the method are those of the segments the two
    plans list, which all have [nextState <> currentState]. *)
Theorem executeDisplay_reaches_next_state fuel (w w' : World) :
  wellFormed (drv w) ->
  executeDisplay ADC_DAC_MAX_LSB MAX_REFRESH_RETRIES env fuel w = (Done tt, w') ->
  let d := drv w in
  (forall i : nat, (i < numSegments d)%nat ->
     m_nextState d !!! i <> SEGMENT_STATE_UNDEFINED ->
     m_currentState (drv w') !!! i = m_nextState d !!! i)
  /\ (forall i : nat, (i < numSegments d)%nat ->
        m_currentState (drv w') !!! i <> m_currentState d !!! i ->
        m_nextState d !!! i <> m_currentState d !!! i
        /\ m_currentState (drv w') !!! i = m_nextState d !!! i)
  /\ m_nextState (drv w') = m_nextState d
  /\ (exists wd,
        driveDisplay ADC_DAC_MAX_LSB env w = (Done tt, wd)
        /\ trace wd = trace w ++ driveTrace ADC_DAC_MAX_LSB d
        /\ m_currentState (drv w') = m_currentState (drv wd)
        /\ events wd `suffix_of` events w')
  /\ (forall i : nat,
        i ∈ plan SEGMENT_STATE_BLEACH d
            ++ plan SEGMENT_STATE_COLOR (afterBleach d) ->
        (i < numSegments d)%nat
        /\ m_nextState d !!! i <> m_currentState d !!! i).
Proof.
  intros Hwf H d.
  pose proof (executeDisplay_executeFrame ADC_DAC_MAX_LSB MAX_REFRESH_RETRIES
                env fuel w) as Hf.
  rewrite H in Hf. cbn in Hf. destruct Hf as (Hnext & _).
  apply coreExecute_fields in Hnext. destruct Hnext as (Hnext & _).
  destruct (executeDisplay_done_cut fuel w w' Hwf H)
    as (wd & E & Hev & Hc & Hs & Hcut).
  fold d in Hcut.
  split; [|split; [|split; [|split]]].
  - intros i Hi Hn. rewrite Hcut by exact Hi.
    apply stateAfterCut_full; assumption.
  - intros i Hi Hne. rewrite Hcut in Hne |- * by exact Hi.
    destruct (stateAfterCut_old_or_new d (numSegments d) (numSegments d) i)
      as [E1 | [E1 E2]]; [contradiction|]. split; assumption.
  - symmetry. exact Hnext.
  - exists wd. split; [exact E|]. split; [|split].
    + apply trace_app. exact Hev.
    + exact Hc.
    + exact Hs.
  - intros i Hi. apply elem_of_app in Hi as [Hi|Hi].
    + apply plan_pending in Hi as [Hi Hp]. split; [exact Hi|].
      apply pendingTo_true in Hp as [_ Hp]. exact Hp.
    + apply plan_pending in Hi as [Hi Hp].
      assert (Hn : numSegments (afterBleach d) = numSegments d).
      { unfold numSegments.
        pose proof (afterBleach_coreDrive d) as Hcd.
        apply coreDrive_fields in Hcd. destruct Hcd as (_ & _ & -> & _).
        reflexivity. }
      rewrite Hn in Hi. split; [exact Hi|].
      apply pendingTo_true in Hp as [Hp1 Hp2].
      pose proof (afterBleach_coreDrive d) as Hcd.
      apply coreDrive_fields in Hcd. destruct Hcd as (Hnx & _).
      rewrite Hnx in Hp1, Hp2.
      assert (Hcur : m_currentState (afterBleach d) !!! i
                     = stateAfterCut d (numSegments d) 0 i).
      { rewrite <- (cut_lookup d (numSegments d) 0 i) by assumption.
        cbn [take applyPhase foldl]. rewrite <- length_segmentIndices.
        rewrite firstn_all. reflexivity. }
      rewrite Hcur in Hp2. unfold stateAfterCut in Hp2.
      destruct ((i <? numSegments d)%nat
                && pendingTo SEGMENT_STATE_BLEACH d i) eqn:Eb.
      * apply andb_true_iff in Eb as [_ Eb].
        apply pendingTo_true in Eb as [Eb _]. congruence.
      * cbn in Hp2. exact Hp2.
Qed.

Lemma wellFormed_executeFrame (w w' : World) :
  executeFrame env w w' -> wellFormed (drv w) -> wellFormed (drv w').
Proof.
  intros (A & B & C & _) (H1 & H2 & H3 & H4).
  apply coreExecute_fields in A. destruct A as (An & Ap & AN & _).
  unfold wellFormed, numSegments. rewrite <- An, <- Ap, <- AN, B, C.
  auto.
Qed.


Lemma filter_none {A} (f : A -> bool) (l : list A) :
  (forall x, x ∈ l -> f x = false) -> List.filter f l = [].
Proof.
  induction l as [|x l IH]; intros H; cbn; [reflexivity|].
  rewrite (H x) by left. apply IH. intros y Hy. apply H. right. exact Hy.
Qed.

Lemma applyPhase_idle target l : forall d,
  (forall i, i ∈ l -> pendingTo target d i = false) ->
  applyPhase target l d = d.
Proof.
  induction l as [|j l IH]; intros d H; [reflexivity|].
  rewrite applyPhase_cons. unfold driveStep. rewrite (H j) by left.
  apply IH. intros i Hi. apply H. right. exact Hi.
Qed.

Lemma elem_of_take_elem_of {A} (l : list A) k x : x ∈ take k l -> x ∈ l.
Proof.
  intros H. apply elem_of_take in H as (i & H & _).
  eapply list_elem_of_lookup_2. exact H.
Qed.

Lemma floatEvents_idle d : Forall isIdleEvent (floatEvents d).
Proof.
  unfold floatEvents. apply Forall_map. apply Forall_forall.
  intros i _. exact I.
Qed.

(** C7: a second [executeDisplay] right after a completed one finds no
    segment to transition: both plans are empty, so its drive part writes
    no segment state, drives no segment pin and holds for neither the
    bleaching nor the coloring time; its events are a beginning of the
    idle sequence (counter electrode set, its 50 ms settling delay, pins
    floated, twice, then the counter electrode cleared), and all of it
    when the call runs to its end.  No segment state changes in the whole
    second call. *)
Theorem executeDisplay_idempotent f1 f2 (w w1 w2 : World) o :
  wellFormed (drv w) ->
  executeDisplay ADC_DAC_MAX_LSB MAX_REFRESH_RETRIES env f1 w = (Done tt, w1) ->
  executeDisplay ADC_DAC_MAX_LSB MAX_REFRESH_RETRIES env f2 w1 = (o, w2) ->
  let d1 := drv w1 in
  plan SEGMENT_STATE_BLEACH d1 = []
  /\ plan SEGMENT_STATE_COLOR (afterBleach d1) = []
  /\ m_currentState (drv w2) = m_currentState d1
  /\ driveTrace ADC_DAC_MAX_LSB d1
     = counterElectrodeEvents ADC_DAC_MAX_LSB d1 (bleachingVoltage (m_cfg d1))
       ++ floatEvents d1
       ++ counterElectrodeEvents ADC_DAC_MAX_LSB d1
            (m_supplyVoltage d1 - coloringVoltage (m_cfg d1))%Q
       ++ floatEvents d1
       ++ [EvAnalogWrite (m_counterElectrodePin d1) 0]
  /\ Forall isIdleEvent (driveTrace ADC_DAC_MAX_LSB d1)
  /\ (exists od wd new rest,
        driveDisplay ADC_DAC_MAX_LSB env w1 = (od, wd)
        /\ trace wd = trace w1 ++ new
        /\ driveTrace ADC_DAC_MAX_LSB d1 = new ++ rest
        /\ events wd `suffix_of` events w2
        /\ (o = Done tt -> od = Done tt /\ rest = [])).
Proof.
  intros Hwf H1 H2 d1.
  pose proof (executeDisplay_executeFrame ADC_DAC_MAX_LSB MAX_REFRESH_RETRIES
                env f1 w) as Hf.
  rewrite H1 in Hf. cbn in Hf.
  pose proof (wellFormed_executeFrame _ _ Hf Hwf) as Hwf1. fold d1 in Hwf1.
  destruct Hf as (Hcore & _).
  apply coreExecute_fields in Hcore. destruct Hcore as (Hn & _ & HN & _).
  fold d1 in Hn, HN.
  destruct (executeDisplay_done_cut f1 w w1 Hwf H1)
    as (_ & _ & _ & _ & _ & Hcut1).
  assert (Hreach : forall i, (i < numSegments (drv w))%nat ->
            m_nextState (drv w) !!! i <> SEGMENT_STATE_UNDEFINED ->
            m_currentState (drv w1) !!! i = m_nextState (drv w) !!! i).
  { intros i Hi Hne. rewrite Hcut1 by exact Hi.
    apply stateAfterCut_full; assumption. }
  assert (Hidle : forall target i,
            target <> SEGMENT_STATE_UNDEFINED -> (i < numSegments d1)%nat ->
            pendingTo target d1 i = false).
  { intros target i Ht Hi.
    assert (Hi' : (i < numSegments (drv w))%nat)
      by (unfold numSegments in *; rewrite HN; exact Hi).
    specialize (Hreach i Hi'). fold d1 in Hreach. rewrite Hn in Hreach.
    unfold pendingTo.
    destruct (decide (m_nextState d1 !!! i = SEGMENT_STATE_UNDEFINED))
      as [E|E].
    - rewrite (bool_decide_eq_false_2 (m_nextState d1 !!! i = target))
        by congruence.
      apply andb_false_r.
    - rewrite (Hreach E).
      rewrite bool_decide_eq_false_2; [reflexivity|]. intros H; auto. }
  assert (HidleB : forall i, i ∈ segmentIndices d1 ->
            pendingTo SEGMENT_STATE_BLEACH d1 i = false).
  { intros i Hi. apply Hidle; [discriminate|].
    unfold segmentIndices in Hi. apply elem_of_seq in Hi.
    unfold numSegments. lia. }
  assert (HidleC : forall i, i ∈ segmentIndices d1 ->
            pendingTo SEGMENT_STATE_COLOR d1 i = false).
  { intros i Hi. apply Hidle; [discriminate|].
    unfold segmentIndices in Hi. apply elem_of_seq in Hi.
    unfold numSegments. lia. }
  assert (HaB : afterBleach d1 = d1)
    by (apply applyPhase_idle; exact HidleB).
  assert (HaD : afterDrive d1 = d1).
  { unfold afterDrive. rewrite HaB. apply applyPhase_idle. exact HidleC. }
  assert (HpB : plan SEGMENT_STATE_BLEACH d1 = [])
    by (apply filter_none; exact HidleB).
  assert (HpC : plan SEGMENT_STATE_COLOR d1 = [])
    by (apply filter_none; exact HidleC).
  assert (Htrace : driveTrace ADC_DAC_MAX_LSB d1
     = counterElectrodeEvents ADC_DAC_MAX_LSB d1 (bleachingVoltage (m_cfg d1))
       ++ floatEvents d1
       ++ counterElectrodeEvents ADC_DAC_MAX_LSB d1
            (m_supplyVoltage d1 - coloringVoltage (m_cfg d1))%Q
       ++ floatEvents d1
       ++ [EvAnalogWrite (m_counterElectrodePin d1) 0]).
  { unfold driveTrace, phaseTrace. rewrite HaB, HpB, HpC. cbn [flat_map holdEvents].
    rewrite <- !app_assoc. reflexivity. }
  split; [exact HpB|]. split; [rewrite HaB; exact HpC|].
  split; [|split; [exact Htrace|split]].
  - (* no state is written by the second call *)
    destruct (executeDisplay_split _ _ _ _ H2)
      as [(wd & Hd & Hc & _) | (Hd & _)].
    + destruct (driveDisplay_run ADC_DAC_MAX_LSB env w1)
        as [(p' & E & _) | (kb & kc & new & rest & wx & E & _)];
        rewrite E in Hd; inversion Hd; subst wd; clear Hd.
      rewrite Hc. cbn [drv]. fold d1. rewrite HaD. reflexivity.
    + destruct (driveDisplay_run ADC_DAC_MAX_LSB env w1)
        as [(p' & E & _)
           | (kb & kc & new & rest & wx & E & _ & _ & _ & Hdrv & _)];
        rewrite E in Hd; inversion Hd; subst wx; clear Hd.
      rewrite Hdrv. fold d1. cbn [m_currentState set_stopDrivingFlag].
      rewrite (applyPhase_idle SEGMENT_STATE_BLEACH)
        by (intros i Hi; apply HidleB; eapply elem_of_take_elem_of; exact Hi).
      rewrite (applyPhase_idle SEGMENT_STATE_COLOR)
        by (intros i Hi; apply HidleC; eapply elem_of_take_elem_of; exact Hi).
      reflexivity.
  - rewrite Htrace. unfold counterElectrodeEvents.
    repeat (apply Forall_app; split);
      try apply floatEvents_idle;
      repeat constructor.
  - destruct (executeDisplay_split _ _ _ _ H2)
      as [(wd & Hd & Hc & Hs & _) | (Hd & Ho)].
    + exists (Done tt), wd, (driveTrace ADC_DAC_MAX_LSB d1), [].
      split; [exact Hd|].
      destruct (driveDisplay_run ADC_DAC_MAX_LSB env w1)
        as [(p' & E & _) | (kb & kc & new & rest & wx & E & _)];
        rewrite E in Hd; inversion Hd; subst wd; clear Hd.
      split; [apply trace_app; reflexivity|].
      split; [rewrite app_nil_r; reflexivity|].
      split; [exact Hs|]. intros _. split; reflexivity.
    + destruct (driveDisplay_run ADC_DAC_MAX_LSB env w1)
        as [(p' & E & _)
           | (kb & kc & new & rest & wx & E & _ & _ & _ & _ & Hev & Htr & _)];
        rewrite E in Hd; inversion Hd; subst wx; clear Hd.
      exists (Returned StopRequested), w2, new, rest.
      split; [exact E|]. split; [apply trace_app; exact Hev|].
      split; [exact Htr|]. split; [reflexivity|].
      intros ->. discriminate.
Qed.

End Execute.

(** ** Runs without a stop request *)

Lemma runsTo_ret {A} (a : A) (w : World) (Q : A -> World -> Prop) :
  Q a w -> runsTo (ret a) w Q.
Proof. intros H. exists a, w. split; [reflexivity | exact H]. Qed.

Lemma runsTo_bind {A B} (m : M A) (k : A -> M B) (w : World)
  (Q : B -> World -> Prop) :
  runsTo m w (fun a w1 => runsTo (k a) w1 Q) -> runsTo (bind m k) w Q.
Proof.
  intros (a & w1 & E & (b & w2 & E2 & H)).
  exists b, w2. split; [|exact H]. rewrite (bind_Done _ _ _ _ _ E). exact E2.
Qed.

Lemma runsTo_weaken {A} (m : M A) (w : World) (Q Q' : A -> World -> Prop) :
  runsTo m w Q -> (forall a w', Q a w' -> Q' a w') -> runsTo m w Q'.
Proof.
  intros (a & w' & E & H) HQ. exists a, w'. split; [exact E | auto].
Qed.

Lemma runsTo_get (w : World) (Q : Driver -> World -> Prop) :
  Q (drv w) w -> runsTo get w Q.
Proof. intros H. exists (drv w), w. split; [reflexivity | exact H]. Qed.

Lemma runsTo_modify f (w : World) (Q : unit -> World -> Prop) :
  Q tt (mkWorld (f (drv w)) (events w) (polls w)) -> runsTo (modify f) w Q.
Proof. intros H. eexists _, _. split; [reflexivity | exact H]. Qed.

Lemma runsTo_emit e (w : World) (Q : unit -> World -> Prop) :
  Q tt (mkWorld (drv w) (e :: events w) (polls w)) -> runsTo (emit e) w Q.
Proof. intros H. eexists _, _. split; [reflexivity | exact H]. Qed.

(** A loop with an invariant over the indices already passed. *)
Lemma runsTo_forEach {S} (body : nat -> S -> M S)
  (I : list nat -> S -> World -> Prop) (l : list nat) :
  forall (pre : list nat) (s : S) (w : World),
    I pre s w ->
    (forall pre' i s w,
       (exists post, pre ++ l = pre' ++ i :: post) ->
       I pre' s w ->
       runsTo (body i s) w (fun s' w' => I (pre' ++ [i]) s' w')) ->
    runsTo (forEach l body s) w (fun s' w' => I (pre ++ l) s' w').
Proof.
  induction l as [|i l IH]; intros pre s w HI Hbody.
  - cbn. apply runsTo_ret. rewrite app_nil_r. exact HI.
  - cbn [forEach]. apply runsTo_bind.
    eapply runsTo_weaken.
    + apply Hbody; [exists l; reflexivity | exact HI].
    + intros s' w' HI'. cbn beta.
      replace (pre ++ i :: l) with ((pre ++ [i]) ++ l)
        by (rewrite <- app_assoc; reflexivity).
      apply IH; [exact HI'|].
      intros pre' j s2 w2 (post & E) H2. apply Hbody; [|exact H2].
      exists post. rewrite <- E, <- app_assoc. reflexivity.
Qed.

Lemma countEvents_app f l1 l2 :
  countEvents f (l1 ++ l2) = (countEvents f l1 + countEvents f l2)%nat.
Proof.
  induction l1 as [|e l1 IH]; cbn; [reflexivity|]. rewrite IH. lia.
Qed.

Lemma countEvents_suffix f l1 l2 :
  l1 `suffix_of` l2 -> (countEvents f l1 <= countEvents f l2)%nat.
Proof. intros (k & ->). rewrite countEvents_app. lia. Qed.

Lemma countIf_app f l1 l2 :
  countIf f (l1 ++ l2) = (countIf f l1 + countIf f l2)%nat.
Proof. unfold countIf. rewrite List.filter_app, length_app. reflexivity. Qed.

Lemma countIf_none f l :
  (forall x, x ∈ l -> f x = false) -> countIf f l = 0%nat.
Proof. intros H. unfold countIf. rewrite filter_none by exact H. reflexivity. Qed.

(** Among distinct indices, a test only [i] can pass counts [i] once. *)
Lemma countIf_only f l i :
  NoDup l -> i ∈ l ->
  (forall j, j ∈ l -> f j = true -> j = i) ->
  countIf f l = if f i then 1%nat else 0%nat.
Proof.
  intros Hnd Hi Hf.
  apply list_elem_of_split in Hi as (l1 & l2 & ->).
  apply NoDup_app in Hnd as (_ & Hd & Hnd2).
  apply NoDup_cons in Hnd2 as (Hi2 & _).
  rewrite countIf_app.
  change (i :: l2) with ([i] ++ l2). rewrite countIf_app.
  rewrite (countIf_none f l1), (countIf_none f l2).
  - unfold countIf. cbn. destruct (f i); reflexivity.
  - intros j Hj. destruct (f j) eqn:E; [|reflexivity].
    assert (j = i) as -> by (apply Hf; [|exact E];
      apply elem_of_app; right; right; exact Hj).
    contradiction.
  - intros j Hj. destruct (f j) eqn:E; [|reflexivity].
    assert (j = i) as -> by (apply Hf; [|exact E];
      apply elem_of_app; left; exact Hj).
    exfalso. apply (Hd i Hj). left.
Qed.

#[global] Instance quietSince_trans : Transitive quietSince.
Proof.
  intros w1 w2 w3 (A1 & B1 & C1 & D1 & E1) (A2 & B2 & C2 & D2 & E2).
  unfold quietSince. split; [exact A2|]. split; [congruence|].
  split; [congruence|]. split; etransitivity; eassumption.
Qed.

Lemma quietSince_refl (w : World) :
  m_stopDrivingFlag (drv w) = false -> quietSince w w.
Proof.
  intros H. unfold quietSince. split; [exact H|].
  do 3 (split; [reflexivity|]). reflexivity.
Qed.

Lemma quietSince_fields (w0 w : World) :
  quietSince w0 w ->
  (forall i, stateOf w i = stateOf w0 i)
  /\ (forall i, pinOf (drv w) i = pinOf (drv w0) i)
  /\ segmentIndices (drv w) = segmentIndices (drv w0)
  /\ numSegments (drv w) = numSegments (drv w0)
  /\ m_cfg (drv w) = m_cfg (drv w0)
  /\ m_supplyVoltage (drv w) = m_supplyVoltage (drv w0)
  /\ m_counterElectrodePin (drv w) = m_counterElectrodePin (drv w0)
  /\ (forall phase v, classifyOut phase (drv w) v = classifyOut phase (drv w0) v)
  /\ (forall phase v, retryOut phase (drv w) v = retryOut phase (drv w0) v).
Proof.
  intros (_ & H & _). apply core_fields in H.
  destruct H as (Hc & Hn & Hp & HN & Hce & Hsv & Hcfg & Hl).
  inversion Hl as [[H1 H2 H3 H4]].
  unfold stateOf, pinOf, segmentIndices, numSegments, classifyOut, retryOut.
  rewrite Hc, Hp, HN, Hcfg, Hsv, Hce, H1, H2, H3, H4. repeat split.
Qed.

Lemma wellFormed_quietSince (w0 w : World) :
  quietSince w0 w -> wellFormed (drv w0) -> wellFormed (drv w).
Proof.
  intros Hq (H1 & H2 & H3 & H4). pose proof Hq as (_ & H & L & _).
  apply core_fields in H. destruct H as (Hc & Hn & Hp & HN & _).
  unfold wellFormed, numSegments. rewrite Hc, Hn, Hp, HN, L. auto.
Qed.

Lemma flagOf_true_lookup (w : World) i :
  (i < length (m_refreshSegmentNeeded (drv w)))%nat ->
  flagOf w i = true -> m_refreshSegmentNeeded (drv w) !! i = Some true.
Proof.
  intros Hi H. unfold flagOf in H.
  rewrite (list_lookup_lookup_total_lt _ _ Hi), H. reflexivity.
Qed.

Lemma flagOf_kept (w0 w : World) i :
  quietSince w0 w ->
  (i < length (m_refreshSegmentNeeded (drv w0)))%nat ->
  flagOf w0 i = true -> flagOf w i = true.
Proof.
  intros (_ & _ & _ & Hk & _) Hi H. unfold flagOf.
  apply list_lookup_total_correct. apply Hk.
  apply flagOf_true_lookup; assumption.
Qed.

Section Quiet.

Variable ADC_DAC_MAX_LSB : Z.
Variable MAX_REFRESH_RETRIES : Z.
Variable env : Env.

(** No interrupt asks for a stop. *)
Hypothesis no_request : forall k : nat, irq env k = false.

Lemma stopCheck_quiet (w : World) (Q : unit -> World -> Prop) :
  m_stopDrivingFlag (drv w) = false ->
  Q tt (mkWorld (drv w) (events w) (S (polls w))) ->
  runsTo (stopCheck env) w Q.
Proof.
  intros Hf HQ. exists tt. eexists. split; [|exact HQ].
  unfold stopCheck. rewrite no_request. cbn. rewrite Hf. reflexivity.
Qed.

Lemma analogRead_quiet pin (w : World) (Q : Z -> World -> Prop) :
  Q (adc env (length (events w)) pin)
    (mkWorld (drv w)
       (EvAnalogRead pin (adc env (length (events w)) pin) :: events w)
       (polls w)) ->
  runsTo (analogRead env pin) w Q.
Proof. intros H. eexists _, _. split; [reflexivity | exact H]. Qed.

(** The pulse loop drives the pins of the flagged segments of its phase,
    and nothing else changes. *)
Lemma pulsePass_quiet phase level (w : World) :
  m_stopDrivingFlag (drv w) = false ->
  runsTo (forSegments (pulseSegment env phase level) tt) w
    (fun _ w' =>
       drv w' = drv w
       /\ events w `suffix_of` events w'
       /\ (forall p, samplesOn p w' = samplesOn p w)
       /\ (forall p,
             pulsesOn p w'
             = (pulsesOn p w
                + countIf (fun j => Z.eqb (pinOf (drv w) j) p
                                    && pulsed phase w j)
                    (segmentIndices (drv w)))%nat)).
Proof.
  intros Hf. unfold forSegments. apply runsTo_bind, runsTo_get.
  apply (runsTo_forEach _
           (fun pre _ w' =>
              drv w' = drv w
              /\ events w `suffix_of` events w'
              /\ (forall p, samplesOn p w' = samplesOn p w)
              /\ (forall p,
                    pulsesOn p w'
                    = (pulsesOn p w
                       + countIf (fun j => Z.eqb (pinOf (drv w) j) p
                                           && pulsed phase w j) pre)%nat))
           (segmentIndices (drv w)) []).
  - split; [reflexivity|]. split; [reflexivity|]. split; [reflexivity|].
    intros p. unfold countIf. cbn. lia.
  - intros pre i [] w1 _ (Hd & Hs & Hsm & Hp).
    unfold pulseSegment. apply runsTo_bind, stopCheck_quiet.
    { rewrite Hd. exact Hf. }
    apply runsTo_bind, runsTo_get. cbn [drv].
    assert (Hpulsed : bool_decide (m_currentState (drv w1) !!! i = phase)
                      && bool_decide (m_refreshSegmentNeeded (drv w1) !!! i
                                      = true)
                      = pulsed phase w i)
      by (rewrite Hd; reflexivity).
    rewrite Hpulsed.
    destruct (pulsed phase w i) eqn:E.
    + unfold pinMode, digitalWrite.
      apply runsTo_bind, runsTo_emit, runsTo_emit. cbn [drv events].
      split; [exact Hd|]. split; [do 2 apply suffix_cons_r; exact Hs|].
      split.
      * intros p. unfold samplesOn in *. cbn. apply Hsm.
      * intros p. unfold pulsesOn in *. cbn [events countEvents].
        rewrite countIf_app, Hp. unfold countIf at 3. cbn.
        rewrite E, andb_true_r. rewrite Hd. fold (pinOf (drv w) i).
        cbn. destruct (pinOf (drv w) i =? p); cbn; lia.
    + apply runsTo_ret. cbn [drv events].
      split; [exact Hd|]. split; [exact Hs|]. split.
      * intros p. unfold samplesOn in *. cbn. apply Hsm.
      * intros p. unfold pulsesOn in *. cbn [events].
        rewrite countIf_app, Hp. unfold countIf at 3. cbn.
        rewrite E, andb_false_r. cbn. lia.
Qed.

(** Steps that keep a world within [quietSince]: events are added, and a
    refresh flag may be set. *)
Lemma quietSince_step (w0 w : World) d' ev' p :
  quietSince w0 w ->
  (d' = drv w \/ exists j, d' = markRefreshNeeded j (drv w)) ->
  events w `suffix_of` ev' ->
  quietSince w0 (mkWorld d' ev' p).
Proof.
  intros (A & B & C & D & E) Hd Hev. unfold quietSince. cbn [drv events].
  destruct Hd as [->|(j & ->)].
  - split; [exact A|]. split; [exact B|]. split; [exact C|].
    split; [exact D|]. etransitivity; eassumption.
  - split; [exact A|]. split; [exact B|].
    split; [cbn; rewrite length_insert; exact C|].
    split; [|etransitivity; eassumption].
    intros i Hi. cbn [drv]. apply markRefreshNeeded_kept. apply D. exact Hi.
Qed.

Lemma flagOf_mark (w : World) j i ev p :
  flagOf (mkWorld (markRefreshNeeded j (drv w)) ev p) i
  = if decide (j = i /\ (j < length (m_refreshSegmentNeeded (drv w)))%nat)
    then true else flagOf w i.
Proof. unfold flagOf. cbn. apply list_lookup_total_insert. Qed.

(** The re-sampling loop samples the segments of its phase while the
    retry count is below the cap, flags those it finds out of range and
    reports whether it found one. *)
Lemma resamplePass_quiet phase oor r (w : World) :
  wellFormed (drv w) ->
  m_stopDrivingFlag (drv w) = false ->
  runsTo (forSegments
            (resampleSegment MAX_REFRESH_RETRIES env phase oor r) false) w
    (fun needed' w' =>
       quietSince w w'
       /\ (forall p, pulsesOn p w' = pulsesOn p w)
       /\ (forall p,
             samplesOn p w'
             = (samplesOn p w
                + countIf (fun j => Z.eqb (pinOf (drv w) j) p
                                    && bool_decide (stateOf w j = phase)
                                    && bool_decide (r < MAX_REFRESH_RETRIES)%Z)
                    (segmentIndices (drv w)))%nat)
       /\ (MAX_REFRESH_RETRIES <= r -> needed' = false)
       /\ (forall i : nat,
             (i < numSegments (drv w))%nat -> stateOf w i = phase ->
             r < MAX_REFRESH_RETRIES ->
             (forall t, oor (adc env t (pinOf (drv w) i)) = true) ->
             needed' = true /\ flagOf w' i = true)
       /\ (forall i : nat,
             flagOf w i = false ->
             (stateOf w i <> phase
              \/ forall t, oor (adc env t (pinOf (drv w) i)) = false) ->
             flagOf w' i = false)).
Proof.
  intros Hwf Hf. unfold forSegments. apply runsTo_bind, runsTo_get.
  eapply runsTo_weaken.
  - apply (runsTo_forEach _
      (fun pre needed w' =>
         quietSince w w'
         /\ (forall p, pulsesOn p w' = pulsesOn p w)
         /\ (forall p,
               samplesOn p w'
               = (samplesOn p w
                  + countIf (fun j => Z.eqb (pinOf (drv w) j) p
                                      && bool_decide (stateOf w j = phase)
                                      && bool_decide (r < MAX_REFRESH_RETRIES)%Z)
                      pre)%nat)
         /\ (MAX_REFRESH_RETRIES <= r -> needed = false)
         /\ (forall i : nat,
               i ∈ pre -> (i < numSegments (drv w))%nat ->
               stateOf w i = phase -> r < MAX_REFRESH_RETRIES ->
               (forall t, oor (adc env t (pinOf (drv w) i)) = true) ->
               needed = true /\ flagOf w' i = true)
         /\ (forall i : nat,
               flagOf w i = false ->
               (stateOf w i <> phase
                \/ forall t, oor (adc env t (pinOf (drv w) i)) = false) ->
               flagOf w' i = false))
      (segmentIndices (drv w)) [] false w).
    + split; [apply quietSince_refl; exact Hf|].
      split; [reflexivity|]. split; [intros p; unfold countIf; cbn; lia|].
      split; [reflexivity|]. split; [|auto].
      intros i Hi. apply elem_of_nil in Hi. contradiction.
    + intros pre j needed w1 (post & Hsplit) (Hq & Hp & Hs & Ha & Hb & Hc).
      cbn [app] in Hsplit.
      assert (Hj : (j < numSegments (drv w))%nat).
      { assert (Hin : j ∈ segmentIndices (drv w))
          by (rewrite Hsplit; apply elem_of_app; right; left).
        unfold segmentIndices in Hin. apply elem_of_seq in Hin.
        unfold numSegments. lia. }
      pose proof (quietSince_fields _ _ Hq) as (Hst & Hpin & _).
      pose proof Hq as (Hf1 & _ & Hlen & _).
      unfold resampleSegment. apply runsTo_bind, stopCheck_quiet;
        [exact Hf1|].
      apply runsTo_bind, runsTo_get. cbn [drv].
      change (m_currentState (drv w1) !!! j) with (stateOf w1 j).
      change (m_segmentPinsList (drv w1) !!! j) with (pinOf (drv w1) j).
      rewrite Hst, Hpin.
      destruct (bool_decide (stateOf w j = phase)) eqn:Est;
        [destruct (r <? MAX_REFRESH_RETRIES) eqn:Er|]; cbn [andb].
      * (* sampled *)
        apply Z.ltb_lt in Er. apply bool_decide_eq_true_1 in Est.
        unfold pinMode. apply runsTo_bind, runsTo_emit.
        apply runsTo_bind, analogRead_quiet. cbn [drv events polls].
        set (v := adc env _ _).
        assert (HsmplS : forall (w2 : World),
                  events w2
                  = EvAnalogRead (pinOf (drv w) j) v
                      :: EvPinMode (pinOf (drv w) j) INPUT :: events w1 ->
                  (forall p, pulsesOn p w2 = pulsesOn p w)
                  /\ (forall p,
                        samplesOn p w2
                        = (samplesOn p w
                           + countIf
                               (fun j => Z.eqb (pinOf (drv w) j) p
                                  && bool_decide (stateOf w j = phase)
                                  && bool_decide (r < MAX_REFRESH_RETRIES)%Z)
                               (pre ++ [j]))%nat)).
        { intros w2 Hev. split; intros p.
          - unfold pulsesOn in *. rewrite Hev. cbn. apply Hp.
          - unfold samplesOn in *. rewrite Hev. cbn [countEvents isAnalogReadOn].
            rewrite countIf_app, Hs. unfold countIf at 3. cbn.
            rewrite (bool_decide_eq_true_2 _ Est).
            rewrite (bool_decide_eq_true_2 _ Er). rewrite !andb_true_r.
            destruct (pinOf (drv w) j =? p); cbn; lia. }
        destruct (oor v) eqn:Eo.
        -- apply runsTo_bind, runsTo_modify, runsTo_ret.
           cbn [drv events polls].
           match goal with
           | |- context [quietSince w ?w2] =>
               destruct (HsmplS w2 eq_refl) as (Hp2 & Hs2)
           end.
           split; [apply (quietSince_step w w1);
                   [exact Hq | right; eexists; reflexivity
                   | do 2 apply suffix_cons_r; reflexivity]|].
           split; [exact Hp2|]. split; [exact Hs2|].
           split; [intros Hge; lia|]. split.
           ++ intros i Hi HiN Hsi Hr Ht. split; [reflexivity|].
              rewrite flagOf_mark. cbn [drv].
              destruct (decide (j = i /\ _)) as [_|Hn]; [reflexivity|].
              apply elem_of_app in Hi as [Hi|Hi].
              ** destruct (Hb i Hi HiN Hsi Hr Ht) as (_ & Hfl). exact Hfl.
              ** apply list_elem_of_singleton in Hi. subst i.
                 exfalso. apply Hn. split; [reflexivity|].
                 destruct Hwf as (_ & _ & _ & Hwf). lia.
           ++ intros i Hfi Hor. rewrite flagOf_mark. cbn [drv].
              destruct (decide (j = i /\ _)) as [[-> _]|Hn].
              ** destruct Hor as [Hor|Hor]; [contradiction|].
                 unfold v in Eo. rewrite Hor in Eo. discriminate.
              ** apply Hc; assumption.
        -- apply runsTo_ret. cbn [drv events polls].
           match goal with
           | |- context [quietSince w ?w2] =>
               destruct (HsmplS w2 eq_refl) as (Hp2 & Hs2)
           end.
           split; [apply (quietSince_step w w1);
                   [exact Hq | left; reflexivity
                   | do 2 apply suffix_cons_r; reflexivity]|].
           split; [exact Hp2|]. split; [exact Hs2|].
           split; [exact Ha|]. split.
           ++ intros i Hi HiN Hsi Hr Ht.
              apply elem_of_app in Hi as [Hi|Hi].
              ** apply (Hb i Hi HiN Hsi Hr Ht).
              ** apply list_elem_of_singleton in Hi. subst i.
                 unfold v in Eo. rewrite Ht in Eo. discriminate.
           ++ intros i Hfi Hor. apply (Hc i Hfi Hor).
      * (* the cap is reached: not sampled *)
        apply runsTo_ret. cbn [drv events polls].
        split; [apply (quietSince_step w w1);
                [exact Hq | left; reflexivity | reflexivity]|].
        split; [exact Hp|]. split.
        -- apply Z.ltb_ge in Er.
           intros p. unfold samplesOn in *. cbn [events].
           rewrite countIf_app, Hs. unfold countIf at 3. cbn.
           rewrite (bool_decide_eq_false_2 (r < MAX_REFRESH_RETRIES)) by lia.
           rewrite !andb_false_r. cbn. lia.
        -- split; [exact Ha|]. split; [|exact Hc].
           intros i Hi HiN Hsi Hr Ht. apply Z.ltb_ge in Er. lia.
      * (* a segment of the other phase *)
        apply runsTo_ret. cbn [drv events polls].
        apply bool_decide_eq_false_1 in Est.
        split; [apply (quietSince_step w w1);
                [exact Hq | left; reflexivity | reflexivity]|].
        split; [exact Hp|]. split.
        -- intros p. unfold samplesOn in *. cbn [events].
           rewrite countIf_app, Hs. unfold countIf at 3. cbn.
           rewrite (bool_decide_eq_false_2 _ Est), andb_false_r. cbn. lia.
        -- split; [exact Ha|]. split; [|exact Hc].
           intros i Hi HiN Hsi Hr Ht.
           apply elem_of_app in Hi as [Hi|Hi].
           ++ apply (Hb i Hi HiN Hsi Hr Ht).
           ++ apply list_elem_of_singleton in Hi. subst i. contradiction.
  - cbn beta. intros needed' w' (Hq & Hp & Hs & Ha & Hb & Hc).
    split; [exact Hq|]. split; [exact Hp|]. split; [exact Hs|].
    split; [exact Ha|]. split; [|exact Hc].
    intros i HiN. apply Hb; [|exact HiN]. cbn [app].
    unfold segmentIndices. apply elem_of_seq. unfold numSegments in HiN. lia.
Qed.

Lemma countEvents_none f l :
  Forall (fun e => f e = false) l -> countEvents f l = 0%nat.
Proof.
  induction 1 as [|e l He _ IH]; cbn; [reflexivity|]. rewrite He, IH.
  reflexivity.
Qed.

Lemma countIf_ext f g l :
  (forall j, j ∈ l -> f j = g j) -> countIf f l = countIf g l.
Proof.
  intros H. unfold countIf. f_equal.
  induction l as [|x l IH]; cbn; [reflexivity|].
  rewrite (H x) by left. rewrite IH; [reflexivity|].
  intros j Hj. apply H. right. exact Hj.
Qed.

(** With distinct pins, the segments on the pin of segment [i] are [i]
    alone. *)
Lemma countIf_pin d (g : nat -> bool) i :
  distinctPins d -> (i < numSegments d)%nat ->
  countIf (fun j => Z.eqb (pinOf d j) (pinOf d i) && g j) (segmentIndices d)
  = if g i then 1%nat else 0%nat.
Proof.
  intros Hd Hi.
  rewrite (countIf_only _ _ i).
  - rewrite Z.eqb_refl. reflexivity.
  - apply NoDup_seq.
  - unfold segmentIndices. apply elem_of_seq. unfold numSegments in Hi. lia.
  - intros j Hj H. apply andb_true_iff in H as [H _].
    apply Z.eqb_eq in H. apply Hd; [|exact Hi|exact H].
    unfold segmentIndices in Hj. apply elem_of_seq in Hj.
    unfold numSegments. lia.
Qed.

Lemma neutralStep_refl (w : World) : neutralStep w w.
Proof. unfold neutralStep. auto. Qed.

Lemma neutralStep_trans (w1 w2 w3 : World) :
  neutralStep w1 w2 -> neutralStep w2 w3 -> neutralStep w1 w3.
Proof.
  intros (A1 & B1 & C1 & D1) (A2 & B2 & C2 & D2). unfold neutralStep.
  split; [congruence|]. split; [etransitivity; eassumption|].
  split; intros p; [rewrite C2; apply C1 | rewrite D2; apply D1].
Qed.

Lemma neutralStep_events (w : World) new p :
  Forall (fun e => forall pin, isDigitalWriteOn pin e = false
                               /\ isAnalogReadOn pin e = false) new ->
  neutralStep w (mkWorld (drv w) (new ++ events w) p).
Proof.
  intros H. unfold neutralStep, pulsesOn, samplesOn. cbn [drv events].
  split; [reflexivity|]. split; [apply suffix_app_r; reflexivity|].
  split; intros pin; rewrite countEvents_app, countEvents_none;
    try reflexivity.
  - eapply Forall_impl; [exact H|]. intros e He. apply He.
  - eapply Forall_impl; [exact H|]. intros e He. apply He.
Qed.

Lemma stopCheck_neutral (w : World) :
  m_stopDrivingFlag (drv w) = false ->
  runsTo (stopCheck env) w (fun _ w' => neutralStep w w').
Proof.
  intros Hf. apply stopCheck_quiet; [exact Hf|].
  apply (neutralStep_events w [] (S (polls w))). constructor.
Qed.

Lemma emit_neutral e (w : World) :
  (forall pin, isDigitalWriteOn pin e = false
               /\ isAnalogReadOn pin e = false) ->
  runsTo (emit e) w (fun _ w' => neutralStep w w').
Proof.
  intros H. apply runsTo_emit.
  apply (neutralStep_events w [e] (polls w)). constructor; [exact H|].
  constructor.
Qed.

Lemma disableAllSegments_neutral (w : World) :
  runsTo disableAllSegments w (fun _ w' => neutralStep w w').
Proof.
  eexists _, _. split; [apply disableAllSegments_run|].
  apply neutralStep_events. apply Forall_rev. unfold floatEvents.
  apply Forall_map. apply Forall_forall. intros i _ pin. split; reflexivity.
Qed.

Lemma enableCounterElectrode_neutral v (w : World) :
  runsTo (enableCounterElectrode ADC_DAC_MAX_LSB v) w
    (fun _ w' => neutralStep w w').
Proof.
  eexists _, _. split; [apply enableCounterElectrode_run|].
  apply neutralStep_events. repeat constructor.
Qed.

Lemma disableCounterElectrode_neutral (w : World) :
  runsTo disableCounterElectrode w (fun _ w' => neutralStep w w').
Proof.
  eexists _, _. split; [apply disableCounterElectrode_run|].
  apply (neutralStep_events w [_]). repeat constructor.
Qed.

Lemma quietSince_neutral (w0 w w' : World) :
  quietSince w0 w -> neutralStep w w' -> quietSince w0 w'.
Proof.
  intros Hq (A & B & _).
  destruct w' as [d' ev' p']. cbn in A, B. subst d'.
  apply (quietSince_step w0 w); [exact Hq | left; reflexivity | exact B].
Qed.

Ltac quiet_step lem :=
  apply runsTo_bind; eapply runsTo_weaken; [apply lem | cbn beta].

(** The parts of one retry pass, put together: tests and delays around a
    pulse loop and a re-sampling loop. *)
Lemma iteration_parts phase oor r (w w1 w2 w3 w4 w5 : World) needed' :
  m_stopDrivingFlag (drv w) = false ->
  neutralStep w w1 ->
  (drv w2 = drv w1
   /\ events w1 `suffix_of` events w2
   /\ (forall p, samplesOn p w2 = samplesOn p w1)
   /\ (forall p,
         pulsesOn p w2
         = (pulsesOn p w1
            + countIf (fun j => Z.eqb (pinOf (drv w1) j) p
                                && pulsed phase w1 j)
                (segmentIndices (drv w1)))%nat)) ->
  neutralStep w2 w3 ->
  (quietSince w3 w4
   /\ (forall p, pulsesOn p w4 = pulsesOn p w3)
   /\ (forall p,
         samplesOn p w4
         = (samplesOn p w3
            + countIf (fun j => Z.eqb (pinOf (drv w3) j) p
                                && bool_decide (stateOf w3 j = phase)
                                && bool_decide (r < MAX_REFRESH_RETRIES)%Z)
                (segmentIndices (drv w3)))%nat)
   /\ (MAX_REFRESH_RETRIES <= r -> needed' = false)
   /\ (forall i : nat,
         (i < numSegments (drv w3))%nat -> stateOf w3 i = phase ->
         r < MAX_REFRESH_RETRIES ->
         (forall t, oor (adc env t (pinOf (drv w3) i)) = true) ->
         needed' = true /\ flagOf w4 i = true)
   /\ (forall i : nat,
         flagOf w3 i = false ->
         (stateOf w3 i <> phase
          \/ forall t, oor (adc env t (pinOf (drv w3) i)) = false) ->
         flagOf w4 i = false)) ->
  neutralStep w4 w5 ->
  iterationPost env MAX_REFRESH_RETRIES phase oor r w needed' w5.
Proof.
  intros Hf (D1 & E1 & P1 & S1) (D2 & E2 & S2 & P2) (D3 & E3 & P3 & S3)
    (Hq & P4 & S4 & Ha & Hb & Hc) N5.
  pose proof N5 as (D5 & E5 & P5 & S5).
  assert (D3' : drv w3 = drv w) by congruence.
  unfold iterationPost, pulsed, stateOf, flagOf in *.
  rewrite D5. rewrite D3' in *. rewrite D1 in *.
  split; [|split; [|split; [|split; [|split]]]].
  - apply (quietSince_neutral w w4 w5); [|exact N5].
    destruct Hq as (A & B & C & D & E).
    unfold quietSince, flagsKept in *. rewrite D3' in *.
    split; [exact A|]. split; [exact B|]. split; [exact C|].
    split; [exact D|].
    etransitivity; [exact E1|]. etransitivity; [exact E2|].
    etransitivity; [exact E3|]. exact E.
  - intros p. rewrite P5, P4, P3, P2, P1. reflexivity.
  - intros p. rewrite S5, S4, S3, S2, S1. reflexivity.
  - exact Ha.
  - exact Hb.
  - exact Hc.
Qed.

Lemma refreshBleachIteration_quiet r (w : World) lim :
  wellFormed (drv w) ->
  m_stopDrivingFlag (drv w) = false ->
  m_refreshBleachLimitL (drv w) = lim ->
  runsTo (refreshBleachIteration MAX_REFRESH_RETRIES env r) w
    (fun needed' w' =>
       iterationPost env MAX_REFRESH_RETRIES SEGMENT_STATE_BLEACH
         (fun v => Qltb lim (inject_Z v)) r w needed' w').
Proof.
  intros Hwf Hf Hlim. unfold refreshBleachIteration.
  quiet_step stopCheck_neutral; [exact Hf|]. intros [] w1 N1.
  pose proof N1 as (D1 & _).
  quiet_step pulsePass_quiet; [rewrite D1; exact Hf|]. intros [] w2 N2.
  pose proof N2 as (D2 & _).
  apply runsTo_bind, runsTo_get.
  unfold delay.
  quiet_step emit_neutral; [intros pin; split; reflexivity|]. intros [] w3 N3.
  pose proof N3 as (D3 & _).
  quiet_step disableAllSegments_neutral. intros [] w4 N4.
  pose proof N4 as (D4 & _).
  quiet_step stopCheck_neutral; [congruence|]. intros [] w5 N5.
  pose proof N5 as (D5 & _).
  assert (D5' : drv w5 = drv w) by congruence.
  quiet_step resamplePass_quiet; [rewrite D5'; exact Hwf | congruence|].
  intros needed' w6 N6.
  quiet_step emit_neutral; [intros pin; split; reflexivity|]. intros [] w7 N7.
  apply runsTo_ret.
  replace (m_refreshBleachLimitL (drv w2)) with lim in N6 by congruence.
  apply (iteration_parts _ _ _ w w1 w2 w5 w6 w7); try assumption.
  eapply neutralStep_trans; [exact N3|].
  eapply neutralStep_trans; [exact N4|]. exact N5.
Qed.

Lemma refreshColorIteration_quiet r (w : World) lim :
  wellFormed (drv w) ->
  m_stopDrivingFlag (drv w) = false ->
  runsTo (refreshColorIteration MAX_REFRESH_RETRIES env lim r) w
    (fun needed' w' =>
       iterationPost env MAX_REFRESH_RETRIES SEGMENT_STATE_COLOR
         (fun v => Qltb (inject_Z v) lim) r w needed' w').
Proof.
  intros Hwf Hf. unfold refreshColorIteration.
  quiet_step stopCheck_neutral; [exact Hf|]. intros [] w1 N1.
  pose proof N1 as (D1 & _).
  quiet_step pulsePass_quiet; [rewrite D1; exact Hf|]. intros [] w2 N2.
  pose proof N2 as (D2 & _).
  apply runsTo_bind, runsTo_get.
  unfold delay.
  quiet_step emit_neutral; [intros pin; split; reflexivity|]. intros [] w3 N3.
  pose proof N3 as (D3 & _).
  quiet_step stopCheck_neutral; [congruence|]. intros [] w4 N4.
  pose proof N4 as (D4 & _).
  quiet_step disableAllSegments_neutral. intros [] w5 N5.
  pose proof N5 as (D5 & _).
  assert (D5' : drv w5 = drv w) by congruence.
  quiet_step resamplePass_quiet; [rewrite D5'; exact Hwf | congruence|].
  intros needed' w6 N6.
  quiet_step emit_neutral; [intros pin; split; reflexivity|]. intros [] w7 N7.
  apply runsTo_ret.
  apply (iteration_parts _ _ _ w w1 w2 w5 w6 w7); try assumption.
  eapply neutralStep_trans; [exact N3|].
  eapply neutralStep_trans; [exact N4|]. exact N5.
Qed.

Lemma distinctPins_quietSince (w0 w : World) :
  quietSince w0 w -> distinctPins (drv w0) -> distinctPins (drv w).
Proof.
  intros Hq Hd. pose proof (quietSince_fields _ _ Hq) as (_ & Hp & _ & HN & _).
  intros i j Hi Hj. rewrite !Hp. rewrite HN in Hi, Hj. apply Hd; assumption.
Qed.

(** A retry loop, for any body that behaves as [iterationPost] says: it
    ends within [MAX_REFRESH_RETRIES - retries + 1] passes. *)
Lemma whileNeeded_quiet phase oor (iteration : Z -> M bool) (w0 : World) :
  wellFormed (drv w0) ->
  distinctPins (drv w0) ->
  (forall r w,
     quietSince w0 w ->
     runsTo (iteration r) w
       (fun n w' => iterationPost env MAX_REFRESH_RETRIES phase oor r w n w')) ->
  forall fuel needed r (w : World),
    quietSince w0 w ->
    (needed = true -> (Z.to_nat (MAX_REFRESH_RETRIES - r) < fuel)%nat) ->
    runsTo (whileNeeded fuel iteration needed r) w
      (fun _ w' => loopPost env MAX_REFRESH_RETRIES phase oor needed r w w').
Proof.
  intros Hwf0 Hdp0 Hiter fuel.
  induction fuel as [|fuel IH]; intros needed r w Hq Hfuel.
  - destruct needed; [specialize (Hfuel eq_refl); lia|].
    cbn. apply runsTo_ret.
    split; [apply quietSince_refl; apply Hq|].
    split; [intros _; apply neutralStep_refl|].
    intros i Hi pin. repeat split; try reflexivity; try discriminate; auto.
  - destruct needed.
    2:{ cbn. apply runsTo_ret.
        split; [apply quietSince_refl; apply Hq|].
        split; [intros _; apply neutralStep_refl|].
        intros i Hi pin. repeat split; try reflexivity; try discriminate;
          auto. }
    cbn [whileNeeded]. apply runsTo_bind.
    eapply runsTo_weaken; [apply Hiter; exact Hq|]. cbn beta.
    intros n1 w1 (Hq1 & Hp1 & Hs1 & Ha & Hb & Hc).
    assert (Hq01 : quietSince w0 w1) by (etransitivity; eassumption).
    eapply runsTo_weaken.
    { apply (IH n1 (r + 1) w1 Hq01).
      intros ->.
      destruct (Z_lt_ge_dec r MAX_REFRESH_RETRIES) as [Hlt|Hge].
      - specialize (Hfuel eq_refl). lia.
      - specialize (Ha ltac:(lia)). discriminate. }
    cbn beta. intros _ w' (Hq' & Hstop & Hseg).
    pose proof (wellFormed_quietSince _ _ Hq Hwf0) as Hwf.
    pose proof (distinctPins_quietSince _ _ Hq Hdp0) as Hdp.
    pose proof (quietSince_fields _ _ Hq1) as (Hst1 & Hpin1 & _ & HN1 & _).
    split; [etransitivity; eassumption|]. split; [discriminate|].
    intros i Hi pin.
    assert (HiLen : (i < length (m_refreshSegmentNeeded (drv w1)))%nat).
    { destruct Hq1 as (_ & _ & -> & _). destruct Hwf as (_ & _ & _ & Hwf).
      lia. }
    (* what the first pass does on the pin of segment [i] *)
    assert (Hp1i : pulsesOn pin w1
                   = (pulsesOn pin w
                      + if pulsed phase w i then 1 else 0)%nat).
    { unfold pin. rewrite Hp1. f_equal. apply countIf_pin; assumption. }
    assert (Hs1i : samplesOn pin w1
                   = (samplesOn pin w
                      + if bool_decide (stateOf w i = phase)
                           && bool_decide (r < MAX_REFRESH_RETRIES)%Z
                        then 1 else 0)%nat).
    { unfold pin. rewrite Hs1. f_equal.
      rewrite <- (countIf_pin (drv w)
                    (fun j => bool_decide (stateOf w j = phase)
                              && bool_decide (r < MAX_REFRESH_RETRIES)) i)
        by assumption.
      apply countIf_ext. intros j _. rewrite andb_assoc. reflexivity. }
    rewrite <- HN1 in Hi.
    specialize (Hseg i Hi). cbn zeta in Hseg. rewrite Hpin1, Hst1 in Hseg.
    fold pin in Hseg. rewrite HN1 in Hi.
    destruct Hseg as (L1 & L2 & L3 & L4).
    split; [|split; [|split]].
    + (* a segment of the other phase *)
      intros Hne.
      assert (Hfl : flagOf w i = false -> flagOf w1 i = false)
        by (intros H; apply Hc; [exact H | left; exact Hne]).
      destruct (L1 Hne) as (A & B & C).
      rewrite A, B, Hp1i, Hs1i. unfold pulsed.
      rewrite (bool_decide_eq_false_2 _ Hne). cbn.
      split; [lia|]. split; [lia|]. auto.
    + (* unflagged and in range *)
      intros Hfl Hin.
      assert (Hfl1 : flagOf w1 i = false)
        by (apply Hc; [exact Hfl | right; exact Hin]).
      destruct (L2 Hfl1 Hin) as (A & B).
      rewrite A, Hp1i. unfold pulsed. rewrite Hfl.
      rewrite (bool_decide_eq_false_2 (false = true)) by discriminate.
      rewrite andb_false_r. split; [lia | exact B].
    + (* always out of range *)
      intros Hst Hout _ Hle.
      assert (Hpl : pulsed phase w i = flagOf w i).
      { unfold pulsed. rewrite (bool_decide_eq_true_2 _ Hst). cbn.
        destruct (flagOf w i); [apply bool_decide_eq_true_2; reflexivity|].
        apply bool_decide_eq_false_2. discriminate. }
      rewrite Hpl in Hp1i.
      rewrite (bool_decide_eq_true_2 _ Hst) in Hs1i. cbn [andb] in Hs1i.
      destruct (Z_lt_ge_dec r MAX_REFRESH_RETRIES) as [Hlt|Hge].
      * destruct (Hb i Hi Hst Hlt Hout) as (-> & Hfl1).
        destruct (L3 Hst Hout eq_refl ltac:(lia)) as (A & B & _).
        rewrite A, B, Hp1i, Hs1i, Hfl1.
        rewrite (bool_decide_eq_true_2 _ Hlt).
        split; [|split].
        -- destruct (flagOf w i); lia.
        -- lia.
        -- intros _. apply (flagOf_kept w1 w' i Hq' HiLen Hfl1).
      * assert (n1 = false) as -> by (apply Ha; lia).
        destruct (Hstop eq_refl) as (_ & _ & Pn & Sn).
        rewrite Pn, Sn. rewrite Hp1i, Hs1i.
        rewrite (bool_decide_eq_false_2 (r < MAX_REFRESH_RETRIES)) by lia.
        split; [|split].
        -- destruct (flagOf w i); lia.
        -- lia.
        -- intros Hlt. lia.
    + (* flagged: pulsed by the first pass *)
      intros Hst Hfl _.
      assert (Hpl : pulsed phase w i = true).
      { unfold pulsed. rewrite (bool_decide_eq_true_2 _ Hst).
        rewrite (bool_decide_eq_true_2 _ Hfl). reflexivity. }
      rewrite Hpl in Hp1i.
      assert (pulsesOn pin w1 <= pulsesOn pin w')%nat.
      { unfold pulsesOn. apply countEvents_suffix. apply Hq'. }
      lia.
Qed.

(** One step of the classification loop: the segment is floated and
    sampled, and it is flagged exactly when it is colored with a sample
    below [m_refreshColorLimitL] or bleached with a sample above
    [m_refreshBleachLimitH]; the loop's two conditions record which. *)
Lemma classifySegment_exact i (needed : bool * bool) (w : World) :
  m_stopDrivingFlag (drv w) = false ->
  let pin := pinOf (drv w) i in
  let v := adc env (S (length (events w))) pin in
  let out := classifyOut (stateOf w i) (drv w) v in
  classifySegment env i needed w
  = (Done (fst needed
           || (out && bool_decide (stateOf w i = SEGMENT_STATE_COLOR)),
           snd needed
           || (out && bool_decide (stateOf w i = SEGMENT_STATE_BLEACH))),
     mkWorld (if out then markRefreshNeeded i (drv w) else drv w)
       (EvAnalogRead pin v :: EvPinMode pin INPUT :: events w)
       (S (polls w))).
Proof.
  intros Hf pin v out. unfold classifySegment, stopCheck.
  unfold bind at 1. rewrite no_request. cbn [drv events polls]. rewrite Hf.
  cbn. subst out v pin. unfold stateOf, classifyOut, pinOf.
  destruct needed as [c b].
  destruct (m_currentState (drv w) !!! i) eqn:Est.
  - rewrite (bool_decide_eq_false_2
               (SEGMENT_STATE_BLEACH = SEGMENT_STATE_COLOR)) by discriminate.
    rewrite (bool_decide_eq_true_2
               (SEGMENT_STATE_BLEACH = SEGMENT_STATE_BLEACH)) by reflexivity.
    cbn [andb fst snd].
    destruct (Qltb (m_refreshBleachLimitH (drv w)) _); cbn;
      rewrite ?orb_false_r, ?orb_true_r; reflexivity.
  - rewrite (bool_decide_eq_true_2
               (SEGMENT_STATE_COLOR = SEGMENT_STATE_COLOR)) by reflexivity.
    rewrite (bool_decide_eq_false_2
               (SEGMENT_STATE_COLOR = SEGMENT_STATE_BLEACH)) by discriminate.
    cbn [andb fst snd].
    destruct (Qltb _ (m_refreshColorLimitL (drv w))); cbn;
      rewrite ?orb_false_r, ?orb_true_r; reflexivity.
  - rewrite (bool_decide_eq_false_2
               (SEGMENT_STATE_UNDEFINED = SEGMENT_STATE_COLOR)) by discriminate.
    rewrite (bool_decide_eq_false_2
               (SEGMENT_STATE_UNDEFINED = SEGMENT_STATE_BLEACH)) by discriminate.
    cbn. rewrite !orb_false_r. reflexivity.
Qed.

(** The classification loop: every segment is sampled once and none is
    driven. *)
Lemma classifyPass_quiet (w : World) :
  wellFormed (drv w) ->
  m_stopDrivingFlag (drv w) = false ->
  runsTo (forSegments (classifySegment env) (false, false)) w
    (fun needed w' => classifyPost env w needed w').
Proof.
  intros Hwf Hf. unfold forSegments. apply runsTo_bind, runsTo_get.
  eapply runsTo_weaken.
  - apply (runsTo_forEach _
      (fun pre needed w' =>
         quietSince w w'
         /\ (forall p, pulsesOn p w' = pulsesOn p w)
         /\ (forall p,
               samplesOn p w'
               = (samplesOn p w
                  + countIf (fun j => Z.eqb (pinOf (drv w) j) p) pre)%nat)
         /\ (forall i : nat,
               i ∈ pre -> (i < numSegments (drv w))%nat ->
               (forall t, classifyOut (stateOf w i) (drv w)
                            (adc env t (pinOf (drv w) i)) = true) ->
               flagOf w' i = true
               /\ (stateOf w i = SEGMENT_STATE_COLOR -> fst needed = true)
               /\ (stateOf w i = SEGMENT_STATE_BLEACH -> snd needed = true))
         /\ (forall i : nat,
               flagOf w i = false ->
               (forall t, classifyOut (stateOf w i) (drv w)
                            (adc env t (pinOf (drv w) i)) = false) ->
               flagOf w' i = false)
         /\ (fst needed = false -> snd needed = false -> drv w' = drv w))
      (segmentIndices (drv w)) [] (false, false) w).
    + split; [apply quietSince_refl; exact Hf|].
      split; [reflexivity|]. split; [intros p; unfold countIf; cbn; lia|].
      split; [|auto].
      intros i Hi. apply elem_of_nil in Hi. contradiction.
    + intros pre j needed w1 (post & Hsplit)
        (Hq & Hp & Hs & Hb & Hc & He).
      cbn [app] in Hsplit.
      pose proof (quietSince_fields _ _ Hq)
        as (Hst & Hpin & _ & _ & _ & _ & _ & Hco & _).
      pose proof Hq as (Hf1 & _ & Hlen & _).
      eexists _, _. split; [apply classifySegment_exact; exact Hf1|].
      cbn zeta. rewrite Hst, Hpin, Hco.
      set (v := adc env _ _).
      set (out := classifyOut (stateOf w j) (drv w) v).
      split; [|split; [|split; [|split; [|split]]]].
      * apply (quietSince_step w w1); [exact Hq | |].
        -- destruct out; [right; eexists; reflexivity | left; reflexivity].
        -- do 2 apply suffix_cons_r. reflexivity.
      * intros p. unfold pulsesOn in *. cbn. apply Hp.
      * intros p. unfold samplesOn in *. cbn [events countEvents isAnalogReadOn].
        rewrite countIf_app, Hs. unfold countIf at 3. cbn.
        destruct (pinOf (drv w) j =? p); cbn; lia.
      * intros i Hi HiN Ht.
        assert (Hkeep : flagOf w1 i = true ->
                  flagOf (mkWorld (if out then markRefreshNeeded j (drv w1)
                                   else drv w1)
                            (EvAnalogRead (pinOf (drv w) j) v
                               :: EvPinMode (pinOf (drv w) j) INPUT
                               :: events w1) (S (polls w1))) i = true).
        { intros H. destruct out; [|exact H].
          rewrite flagOf_mark. destruct (decide _); [reflexivity | exact H]. }
        apply elem_of_app in Hi as [Hi|Hi].
        -- destruct (Hb i Hi HiN Ht) as (A & B & C).
           split; [apply Hkeep; exact A|]. cbn [fst snd].
           split; intros H; [rewrite (B H) | rewrite (C H)]; reflexivity.
        -- apply list_elem_of_singleton in Hi. subst i.
           assert (Ho : out = true) by (unfold out, v; apply Ht).
           rewrite Ho. cbn [fst snd andb].
           split; [|split].
           ++ rewrite flagOf_mark.
              destruct (decide _) as [_|Hn]; [reflexivity|].
              exfalso. apply Hn. split; [reflexivity|].
              destruct Hwf as (_ & _ & _ & Hwf). lia.
           ++ intros H. rewrite (bool_decide_eq_true_2 _ H).
              apply orb_true_r.
           ++ intros H. rewrite (bool_decide_eq_true_2 _ H).
              apply orb_true_r.
      * intros i Hfi Ht.
        destruct out eqn:Ho; [|apply Hc; assumption].
        rewrite flagOf_mark. destruct (decide _) as [[-> _]|Hn].
        -- unfold out, v in Ho. rewrite Ht in Ho. discriminate.
        -- apply Hc; assumption.
      * cbn [fst snd drv]. intros H1 H2.
        apply orb_false_iff in H1 as [H1 H1'].
        apply orb_false_iff in H2 as [H2 H2'].
        destruct out eqn:Ho; [|apply He; assumption].
        exfalso. cbn in H1', H2'.
        unfold out, classifyOut in Ho.
        destruct (stateOf w j); cbn in *;
          rewrite ?bool_decide_eq_true_2 in * by reflexivity; discriminate.
  - cbn beta. intros needed w' (Hq & Hp & Hs & Hb & Hc & He).
    split; [exact Hq|]. split; [exact Hp|]. split; [exact Hs|].
    split; [|split; [exact Hc | exact He]].
    intros i HiN. apply Hb; [|exact HiN]. cbn [app].
    unfold segmentIndices. apply elem_of_seq. unfold numSegments in HiN. lia.
Qed.

Lemma runsTo_endsIn {A B} (m : M A) (k : A -> M B) (w : World)
  (P : A -> World -> Prop) (Q : Outcome B -> World -> Prop) :
  runsTo m w P ->
  (forall a w1, P a w1 -> endsIn (k a) w1 Q) ->
  endsIn (bind m k) w Q.
Proof.
  intros (a & w1 & E & HP) Hk. destruct (Hk a w1 HP) as (o & w' & E2 & HQ).
  exists o, w'. split; [|exact HQ]. rewrite (bind_Done _ _ _ _ _ E). exact E2.
Qed.

Lemma endsIn_get {B} (k : Driver -> M B) (w : World)
  (Q : Outcome B -> World -> Prop) :
  endsIn (k (drv w)) w Q -> endsIn (bind get k) w Q.
Proof. intros H. exact H. Qed.

Lemma runsTo_endsIn_Done {A} (m : M A) (w : World)
  (Q : Outcome A -> World -> Prop) :
  runsTo m w (fun a w' => Q (Done a) w') -> endsIn m w Q.
Proof. intros (a & w' & E & HQ). exists (Done a), w'. auto. Qed.

Lemma neutralStep_drv_views (w w' : World) :
  neutralStep w w' ->
  (forall i, stateOf w' i = stateOf w i)
  /\ (forall i, flagOf w' i = flagOf w i)
  /\ (forall i, pinOf (drv w') i = pinOf (drv w) i)
  /\ numSegments (drv w') = numSegments (drv w).
Proof.
  intros (D & _). unfold stateOf, flagOf. rewrite D. auto.
Qed.

Lemma quietSince_neutral_l (w w1 w' : World) :
  neutralStep w w1 -> quietSince w1 w' -> quietSince w w'.
Proof.
  intros (D & E & _) (A & B & C & F & G). unfold quietSince, flagsKept in *.
  rewrite D in *. split; [exact A|]. split; [exact B|]. split; [exact C|].
  split; [exact F|]. etransitivity; eassumption.
Qed.

(** A retry loop between two neutral steps. *)
Lemma loopPost_neutral phase oor needed r (wa wa' wb wb' : World) :
  neutralStep wa wa' ->
  loopPost env MAX_REFRESH_RETRIES phase oor needed r wa' wb ->
  neutralStep wb wb' ->
  loopPost env MAX_REFRESH_RETRIES phase oor needed r wa wb'.
Proof.
  intros Na (Hq & Hn & Hseg) Nb.
  pose proof (neutralStep_drv_views _ _ Na) as (Sa & Fa & Pa & NNa).
  pose proof (neutralStep_drv_views _ _ Nb) as (Sb & Fb & Pb & NNb).
  pose proof Na as (_ & _ & PPa & SSa). pose proof Nb as (_ & _ & PPb & SSb).
  split; [|split].
  - apply (quietSince_neutral_l wa wa' wb'); [exact Na|].
    apply (quietSince_neutral wa' wb wb'); assumption.
  - intros H. eapply neutralStep_trans; [exact Na|].
    eapply neutralStep_trans; [apply Hn; exact H | exact Nb].
  - intros i Hi. rewrite <- NNa in Hi. specialize (Hseg i Hi).
    cbn zeta in *. rewrite Pa, Sa, Fa in Hseg.
    rewrite !PPb, !SSb, !Fb. rewrite !PPa, !SSa in Hseg. exact Hseg.
Qed.

Lemma classifyPost_neutral needed (wa wa' wb wb' : World) :
  neutralStep wa wa' ->
  classifyPost env wa' needed wb ->
  neutralStep wb wb' ->
  classifyPost env wa needed wb'.
Proof.
  intros Na (Hq & Hp & Hs & Hb & Hc & He) Nb.
  pose proof (neutralStep_drv_views _ _ Na) as (Sa & Fa & Pa & NNa).
  pose proof (neutralStep_drv_views _ _ Nb) as (Sb & Fb & Pb & NNb).
  pose proof Na as (Da & _ & PPa & SSa). pose proof Nb as (Db & _ & PPb & SSb).
  unfold classifyPost. rewrite Da in *.
  split; [|split; [|split; [|split; [|split]]]].
  - apply (quietSince_neutral_l wa wa' wb'); [exact Na|].
    apply (quietSince_neutral wa' wb wb'); assumption.
  - intros p. rewrite PPb, Hp, PPa. reflexivity.
  - intros p. rewrite SSb, Hs, SSa. reflexivity.
  - intros i Hi Ht. rewrite Fb.
    rewrite <- Sa. apply (Hb i Hi). intros t. rewrite Sa. apply Ht.
  - intros i Hf Ht. rewrite Fb. apply Hc; [rewrite Fa; exact Hf|].
    intros t. rewrite Sa. apply Ht.
  - intros H1 H2. rewrite Db. apply He; assumption.
Qed.

(** [refreshDisplay] without a stop request, given fuel for
    [MAX_REFRESH_RETRIES + 1] passes of each loop. *)
Lemma refreshDisplay_quiet fuel (w : World) :
  wellFormed (drv w) ->
  distinctPins (drv w) ->
  m_stopDrivingFlag (drv w) = false ->
  (Z.to_nat MAX_REFRESH_RETRIES < fuel)%nat ->
  endsIn (refreshDisplay ADC_DAC_MAX_LSB MAX_REFRESH_RETRIES env fuel) w
    (refreshPost env MAX_REFRESH_RETRIES w).
Proof.
  intros Hwf Hdp Hf Hfuel. unfold refreshDisplay.
  eapply runsTo_endsIn; [apply stopCheck_neutral; exact Hf|].
  intros [] w1 N1. pose proof N1 as (D1 & _).
  apply endsIn_get.
  eapply runsTo_endsIn; [apply enableCounterElectrode_neutral|].
  intros [] w2 N2. pose proof N2 as (D2 & _).
  eapply runsTo_endsIn; [apply disableAllSegments_neutral|].
  intros [] w3 N3. pose proof N3 as (D3 & _).
  assert (N03 : neutralStep w w3).
  { eapply neutralStep_trans; [exact N1|].
    eapply neutralStep_trans; [exact N2 | exact N3]. }
  assert (D03 : drv w3 = drv w) by apply N03.
  eapply runsTo_endsIn;
    [apply classifyPass_quiet; rewrite D03; assumption|].
  intros needed w4 C4. pose proof C4 as (Hq4 & _).
  eapply runsTo_endsIn; [apply stopCheck_neutral; apply Hq4|].
  intros [] w5 N5.
  pose proof (classifyPost_neutral _ _ _ _ _ N03 C4 N5) as C5.
  pose proof C5 as (Hq5 & _).
  destruct (negb (snd needed || fst needed)) eqn:En.
  - (* nothing to refresh *)
    exists (Returned NoRefreshNeeded), w5. split; [reflexivity|].
    exists needed, w5. split; [exact C5|]. left.
    apply negb_true_iff, orb_false_iff in En as [E2 E1].
    split; [exact E1|]. split; [exact E2|]. split; [reflexivity|].
    apply neutralStep_refl.
  - apply negb_false_iff, orb_true_iff in En.
    apply runsTo_endsIn_Done.
    apply runsTo_bind, runsTo_get.
    quiet_step enableCounterElectrode_neutral. intros [] w6 N6.
    assert (Hq6 : quietSince w w6)
      by (apply (quietSince_neutral w w5 w6); assumption).
    pose proof (wellFormed_quietSince _ _ Hq6 Hwf) as Hwf6.
    pose proof (distinctPins_quietSince _ _ Hq6 Hdp) as Hdp6.
    apply runsTo_bind. eapply runsTo_weaken.
    { apply (whileNeeded_quiet SEGMENT_STATE_BLEACH
               (retryOut SEGMENT_STATE_BLEACH (drv w))
               (refreshBleachIteration MAX_REFRESH_RETRIES env) w6 Hwf6 Hdp6).
      - intros r wx Hqx.
        assert (Hq0x : quietSince w wx) by (etransitivity; eassumption).
        apply refreshBleachIteration_quiet.
        + apply (wellFormed_quietSince _ _ Hq0x Hwf).
        + apply Hqx.
        + destruct Hq0x as (_ & Hc & _). apply core_fields in Hc.
          destruct Hc as (_ & _ & _ & _ & _ & _ & _ & Hl).
          inversion Hl. reflexivity.
      - apply quietSince_refl. apply Hq6.
      - intros _. rewrite Z.sub_0_r. exact Hfuel. }
    cbn beta. intros [] w7 L7. pose proof L7 as (Hq7 & _).
    assert (Hq07 : quietSince w w7) by (etransitivity; eassumption).
    apply runsTo_bind, runsTo_get.
    quiet_step enableCounterElectrode_neutral. intros [] w8 N8.
    assert (Hq8 : quietSince w w8)
      by (apply (quietSince_neutral w w7 w8); assumption).
    pose proof (wellFormed_quietSince _ _ Hq8 Hwf) as Hwf8.
    pose proof (distinctPins_quietSince _ _ Hq8 Hdp) as Hdp8.
    assert (Hlim : m_refreshColorLimitH (drv w7) = m_refreshColorLimitH (drv w)).
    { destruct Hq07 as (_ & Hc & _). apply core_fields in Hc.
      destruct Hc as (_ & _ & _ & _ & _ & _ & _ & Hl).
      inversion Hl. reflexivity. }
    rewrite Hlim.
    apply runsTo_bind. eapply runsTo_weaken.
    { apply (whileNeeded_quiet SEGMENT_STATE_COLOR
               (retryOut SEGMENT_STATE_COLOR (drv w))
               (refreshColorIteration MAX_REFRESH_RETRIES env
                  (m_refreshColorLimitH (drv w))) w8 Hwf8 Hdp8).
      - intros r wx Hqx.
        assert (Hq0x : quietSince w wx) by (etransitivity; eassumption).
        apply refreshColorIteration_quiet.
        + apply (wellFormed_quietSince _ _ Hq0x Hwf).
        + apply Hqx.
      - apply quietSince_refl. apply Hq8.
      - intros _. rewrite Z.sub_0_r. exact Hfuel. }
    cbn beta. intros [] w9 L9.
    eapply runsTo_weaken; [apply disableCounterElectrode_neutral|].
    cbn beta. intros [] w10 N10.
    exists needed, w5. split; [exact C5|]. right.
    split; [tauto|]. split; [reflexivity|].
    exists w7. split.
    + apply (loopPost_neutral _ _ _ _ w5 w6 w7 w7);
        [exact N6 | exact L7 | apply neutralStep_refl].
    + apply (loopPost_neutral _ _ _ _ w7 w8 w9 w10); assumption.
Qed.

(** The two retry loops in sequence, seen from a segment of [phase]: the
    loop of the other phase leaves it alone, the loop of its own phase
    acts on it. *)
Lemma loops_segment phase (needed : bool * bool) (w wc wb w' : World) i :
  wellFormed (drv w) ->
  quietSince w wc ->
  (i < numSegments (drv w))%nat ->
  stateOf w i = phase ->
  phase <> SEGMENT_STATE_UNDEFINED ->
  loopPost env MAX_REFRESH_RETRIES SEGMENT_STATE_BLEACH
    (retryOut SEGMENT_STATE_BLEACH (drv w)) (snd needed) 0 wc wb ->
  loopPost env MAX_REFRESH_RETRIES SEGMENT_STATE_COLOR
    (retryOut SEGMENT_STATE_COLOR (drv w)) (fst needed) 0 wb w' ->
  let pin := pinOf (drv w) i in
  quietSince w w'
  /\ (flagOf wc i = true -> flagOf w' i = true)
  /\ (flagOf wc i = false ->
      (forall t, retryOut phase (drv w) (adc env t pin) = false) ->
      pulsesOn pin w' = pulsesOn pin wc /\ flagOf w' i = false)
  /\ ((forall t, retryOut phase (drv w) (adc env t pin) = true) ->
      neededFor phase needed = true -> 0 <= MAX_REFRESH_RETRIES ->
      pulsesOn pin w'
      = (pulsesOn pin wc + Z.to_nat MAX_REFRESH_RETRIES
         + (if flagOf wc i then 1 else 0))%nat
      /\ samplesOn pin w'
         = (samplesOn pin wc + Z.to_nat MAX_REFRESH_RETRIES)%nat
      /\ (0 < MAX_REFRESH_RETRIES -> flagOf w' i = true))
  /\ (flagOf wc i = true -> neededFor phase needed = true ->
      (pulsesOn pin wc + 1 <= pulsesOn pin w')%nat).
Proof.
  intros Hwf Hqc Hi Hst Hph (Hqb & _ & LB) (Hq' & _ & LC) pin.
  assert (Hq0b : quietSince w wb) by (etransitivity; eassumption).
  assert (Hq0' : quietSince w w') by (etransitivity; eassumption).
  pose proof (quietSince_fields _ _ Hqc) as (Sc & Pc & _ & Nc & _).
  pose proof (quietSince_fields _ _ Hq0b) as (Sb & Pb & _ & Nb & _).
  assert (Hic : (i < numSegments (drv wc))%nat) by (rewrite Nc; exact Hi).
  assert (Hib : (i < numSegments (drv wb))%nat) by (rewrite Nb; exact Hi).
  specialize (LB i Hic). specialize (LC i Hib). cbn zeta in LB, LC.
  rewrite Pc, Sc in LB. rewrite Pb, Sb in LC. fold pin in LB, LC.
  rewrite Z.sub_0_r in LB, LC.
  destruct LB as (B1 & B2 & B3 & B4). destruct LC as (C1 & C2 & C3 & C4).
  assert (Hlenc : (i < length (m_refreshSegmentNeeded (drv wc)))%nat).
  { pose proof (wellFormed_quietSince _ _ Hqc Hwf) as (_ & _ & _ & H).
    lia. }
  assert (Hlenb : (i < length (m_refreshSegmentNeeded (drv wb)))%nat).
  { pose proof (wellFormed_quietSince _ _ Hq0b Hwf) as (_ & _ & _ & H).
    lia. }
  assert (Kcb : flagOf wc i = true -> flagOf wb i = true)
    by (apply flagOf_kept; assumption).
  assert (Kb' : flagOf wb i = true -> flagOf w' i = true)
    by (apply flagOf_kept; assumption).
  split; [exact Hq0'|]. split; [auto|].
  destruct phase; [| |contradiction].
  - (* a bleached segment: the first loop is its own *)
    assert (Hne : stateOf w i <> SEGMENT_STATE_COLOR) by congruence.
    destruct (C1 Hne) as (CP & CS & CF).
    split; [|split].
    + intros Hfl Hin. destruct (B2 Hfl Hin) as (A & B).
      split; [congruence | auto].
    + intros Hout Hn Hmax. cbn [neededFor] in Hn.
      destruct (B3 Hst Hout Hn Hmax) as (A & B & C).
      rewrite CP, CS, A, B. split; [reflexivity|]. split; [reflexivity|].
      intros H. apply Kb', C. exact H.
    + intros Hfl Hn. cbn [neededFor] in Hn.
      specialize (B4 Hst Hfl Hn). lia.
  - (* a colored segment: the second loop is its own *)
    assert (Hne : stateOf w i <> SEGMENT_STATE_BLEACH) by congruence.
    destruct (B1 Hne) as (BP & BS & BF).
    split; [|split].
    + intros Hfl Hin. destruct (C2 (BF Hfl) Hin) as (A & B).
      split; [congruence | exact B].
    + intros Hout Hn Hmax. cbn [neededFor] in Hn.
      destruct (C3 Hst Hout Hn Hmax) as (A & B & C).
      rewrite A, B, BP, BS. split; [|split; [reflexivity | exact C]].
      destruct (flagOf wc i) eqn:Efc.
      * rewrite (Kcb eq_refl). reflexivity.
      * rewrite (BF eq_refl). reflexivity.
    + intros Hfl Hn. cbn [neededFor] in Hn.
      specialize (C4 Hst (Kcb Hfl) Hn). lia.
Qed.

Lemma classify_sample_count (w wc : World) needed i :
  distinctPins (drv w) -> (i < numSegments (drv w))%nat ->
  classifyPost env w needed wc ->
  samplesOn (pinOf (drv w) i) wc = (samplesOn (pinOf (drv w) i) w + 1)%nat
  /\ pulsesOn (pinOf (drv w) i) wc = pulsesOn (pinOf (drv w) i) w.
Proof.
  intros Hdp Hi (_ & Hp & Hs & _). split; [|apply Hp].
  rewrite Hs. f_equal.
  rewrite <- (countIf_pin (drv w) (fun _ => true) i Hdp Hi).
  apply countIf_ext. intros j _. rewrite andb_true_r. reflexivity.
Qed.

End Quiet.

(** ** [refreshDisplay] *)

Section Refresh.

Variable ADC_DAC_MAX_LSB : Z.
Variable MAX_REFRESH_RETRIES : Z.
Variable env : Env.

(** C2, as the code has it: without a stop request, a segment whose samples
    are always beyond its limits is driven [MAX_REFRESH_RETRIES + 1] times
    by one call of [refreshDisplay] (a first pulse and one more after each
    of the [MAX_REFRESH_RETRIES] samples its retry loop takes), and
    sampled [MAX_REFRESH_RETRIES + 1] times (once by the classification,
    then by the loop while the retry count is below the cap: the last
    pulse is not followed by a sample).  The call then runs to its end:
    fuel for [MAX_REFRESH_RETRIES + 1] passes suffices. *)
Theorem refreshDisplay_retry_cap fuel (w : World) (i : nat)
  (phase : SegState) :
  (forall k : nat, irq env k = false) ->
  wellFormed (drv w) ->
  distinctPins (drv w) ->
  m_stopDrivingFlag (drv w) = false ->
  (Z.to_nat MAX_REFRESH_RETRIES < fuel)%nat ->
  0 <= MAX_REFRESH_RETRIES ->
  (i < numSegments (drv w))%nat ->
  stateOf w i = phase ->
  (forall t, classifyOut phase (drv w) (adc env t (pinOf (drv w) i)) = true) ->
  (forall t, retryOut phase (drv w) (adc env t (pinOf (drv w) i)) = true) ->
  exists w' : World,
    refreshDisplay ADC_DAC_MAX_LSB MAX_REFRESH_RETRIES env fuel w
    = (Done tt, w')
    /\ pulsesOn (pinOf (drv w) i) w'
       = (pulsesOn (pinOf (drv w) i) w
          + (Z.to_nat MAX_REFRESH_RETRIES + 1))%nat
    /\ samplesOn (pinOf (drv w) i) w'
       = (samplesOn (pinOf (drv w) i) w
          + (1 + Z.to_nat MAX_REFRESH_RETRIES))%nat
    /\ flagOf w' i = true.
Proof.
  intros Hq Hwf Hdp Hf Hfuel Hmax Hi Hst Hco Hro.
  assert (Hph : phase <> SEGMENT_STATE_UNDEFINED).
  { intros ->. specialize (Hco O). discriminate. }
  destruct (refreshDisplay_quiet ADC_DAC_MAX_LSB MAX_REFRESH_RETRIES env Hq
              fuel w Hwf Hdp Hf Hfuel)
    as (o & w' & E & needed & wc & C & Hcase).
  destruct (classify_sample_count env
              w wc needed i Hdp Hi C) as (Sc & Pc).
  pose proof C as (Hqc & _ & _ & Bc & _).
  rewrite <- Hst in Hco. destruct (Bc i Hi Hco) as (Fc & NC & NB).
  assert (Hn : neededFor phase needed = true).
  { destruct phase; cbn; [apply NB | apply NC | contradiction]; exact Hst. }
  destruct Hcase as [(E1 & E2 & _) | (_ & -> & wb & LB & LC)].
  { destruct phase; cbn in Hn; congruence. }
  exists w'. split; [exact E|].
  destruct (loops_segment MAX_REFRESH_RETRIES env phase
              needed w wc wb w' i Hwf Hqc Hi Hst Hph LB LC)
    as (_ & K & _ & L3 & _).
  destruct (L3 Hro Hn Hmax) as (A & B & _).
  rewrite A, B, Fc, Sc, Pc. split; [lia|]. split; [lia|]. apply K, Fc.
Qed.

(** C10: the re-sampling loop looks at every segment of its phase, flagged
    or not.  Without a stop request, a segment that the classification
    let pass, but whose samples are beyond the limit of the retry loop, is
    flagged by the first pass of that loop once another segment of the
    same state has started it, and is then driven by each of the
    [MAX_REFRESH_RETRIES] later passes. *)
Theorem refreshDisplay_flags_in_retry_loop fuel (w : World) (i j : nat)
  (phase : SegState) :
  (forall k : nat, irq env k = false) ->
  wellFormed (drv w) ->
  distinctPins (drv w) ->
  m_stopDrivingFlag (drv w) = false ->
  (Z.to_nat MAX_REFRESH_RETRIES < fuel)%nat ->
  1 <= MAX_REFRESH_RETRIES ->
  (i < numSegments (drv w))%nat ->
  (j < numSegments (drv w))%nat ->
  stateOf w i = phase ->
  stateOf w j = phase ->
  flagOf w i = false ->
  (forall t, classifyOut phase (drv w) (adc env t (pinOf (drv w) i)) = false) ->
  (forall t, retryOut phase (drv w) (adc env t (pinOf (drv w) i)) = true) ->
  (forall t, classifyOut phase (drv w) (adc env t (pinOf (drv w) j)) = true) ->
  exists w' : World,
    refreshDisplay ADC_DAC_MAX_LSB MAX_REFRESH_RETRIES env fuel w
    = (Done tt, w')
    /\ flagOf w' i = true
    /\ pulsesOn (pinOf (drv w) i) w'
       = (pulsesOn (pinOf (drv w) i) w + Z.to_nat MAX_REFRESH_RETRIES)%nat
    /\ (1 <= Z.to_nat MAX_REFRESH_RETRIES)%nat.
Proof.
  intros Hq Hwf Hdp Hf Hfuel Hmax Hi Hj Hsti Hstj Hfl Hci Hri Hcj.
  assert (Hph : phase <> SEGMENT_STATE_UNDEFINED).
  { intros ->. specialize (Hcj O). discriminate. }
  destruct (refreshDisplay_quiet ADC_DAC_MAX_LSB MAX_REFRESH_RETRIES env Hq
              fuel w Hwf Hdp Hf Hfuel)
    as (o & w' & E & needed & wc & C & Hcase).
  destruct (classify_sample_count env
              w wc needed i Hdp Hi C) as (_ & Pc).
  pose proof C as (Hqc & _ & _ & Bc & Cc & _).
  rewrite <- Hstj in Hcj. destruct (Bc j Hj Hcj) as (_ & NC & NB).
  assert (Hn : neededFor phase needed = true).
  { destruct phase; cbn; [apply NB | apply NC | contradiction]; exact Hstj. }
  rewrite <- Hsti in Hci. pose proof (Cc i Hfl Hci) as Fc.
  destruct Hcase as [(E1 & E2 & _) | (_ & -> & wb & LB & LC)].
  { destruct phase; cbn in Hn; congruence. }
  exists w'. split; [exact E|].
  destruct (loops_segment MAX_REFRESH_RETRIES env phase
              needed w wc wb w' i Hwf Hqc Hi Hsti Hph LB LC)
    as (_ & _ & _ & L3 & _).
  destruct (L3 Hri Hn ltac:(lia)) as (A & _ & B).
  split; [apply B; lia|]. rewrite A, Fc, Pc. split; lia.
Qed.


(** The path of [refreshDisplay] through the retry loops ends with the
    counter electrode written to zero. *)
Lemma refreshDisplay_done_disables fuel (w w' : World) :
  refreshDisplay ADC_DAC_MAX_LSB MAX_REFRESH_RETRIES env fuel w
  = (Done tt, w') ->
  exists evs,
    events w' = EvAnalogWrite (m_counterElectrodePin (drv w')) 0 :: evs
    /\ lastAnalogWrite (m_counterElectrodePin (drv w')) (events w') = Some 0.
Proof.
  unfold refreshDisplay. intros H.
  do 6 (apply bind_inv_Done in H; destruct H as (? & ? & _ & H)).
  match type of H with
  | (if ?b then _ else _) _ = _ => destruct b; [discriminate|]
  end.
  do 6 (apply bind_inv_Done in H; destruct H as (? & ? & _ & H)).
  rewrite disableCounterElectrode_run in H. inversion H; subst.
  cbn [drv events]. eexists. split; [reflexivity|].
  cbn. rewrite Z.eqb_refl. reflexivity.
Qed.

(** C9, as the code has it: the constructor assigns no refresh flag and no
    method clears one, so a set flag stays set through every method.
    Without a stop request, a segment whose flag was set before a call of
    [refreshDisplay] is driven during the call, whatever its samples, as
    soon as a segment of the same state starts the retry loop of that
    state. *)
Theorem refresh_flags_are_never_cleared fuel (w : World) (i j : nat)
  (phase : SegState) :
  (forall PIN_CE ADC_DAC_RESOLUTION n segs (w0 : World),
     flagsUntouched w0
       (snd (YNV_ECD PIN_CE ADC_DAC_RESOLUTION n segs w0)))
  /\ (forall (w0 : World) f t_segment t_state v,
        flagsKept w0 (snd (setSegmentState t_segment t_state w0))
        /\ flagsKept w0
             (snd (executeDisplay ADC_DAC_MAX_LSB MAX_REFRESH_RETRIES env
                     f w0))
        /\ flagsKept w0
             (snd (refreshDisplay ADC_DAC_MAX_LSB MAX_REFRESH_RETRIES env
                     f w0))
        /\ flagsKept w0
             (snd (begin ADC_DAC_MAX_LSB MAX_REFRESH_RETRIES env f w0))
        /\ flagsKept w0 (snd (updateSupplyVoltage ADC_DAC_MAX_LSB v w0))
        /\ flagsKept w0 (snd (setStopDrivingFlag w0))
        /\ flagsKept w0 (snd (clearStopDriving w0))
        /\ flagsKept w0 (snd (setAllSegmentsBleach w0)))
  /\ ((forall k : nat, irq env k = false) ->
      wellFormed (drv w) ->
      distinctPins (drv w) ->
      m_stopDrivingFlag (drv w) = false ->
      (Z.to_nat MAX_REFRESH_RETRIES < fuel)%nat ->
      (i < numSegments (drv w))%nat ->
      (j < numSegments (drv w))%nat ->
      stateOf w i = phase ->
      stateOf w j = phase ->
      flagOf w i = true ->
      (forall t, classifyOut phase (drv w) (adc env t (pinOf (drv w) j))
                 = true) ->
      exists w' : World,
        refreshDisplay ADC_DAC_MAX_LSB MAX_REFRESH_RETRIES env fuel w
        = (Done tt, w')
        /\ flagOf w' i = true
        /\ (pulsesOn (pinOf (drv w) i) w + 1
            <= pulsesOn (pinOf (drv w) i) w')%nat).
Proof.
  split; [|split].
  - intros PIN_CE ADC_DAC_RESOLUTION n segs w0.
    apply YNV_ECD_flagsUntouched.
  - intros w0 f t_segment t_state v.
    split; [apply flagsUntouched_flagsKept; reflexivity|].
    split; [apply executeDisplay_flagsKept|].
    split; [apply refreshDisplay_flagsKept|].
    split; [apply begin_flagsKept|].
    split; [apply flagsUntouched_flagsKept; reflexivity|].
    split; [apply flagsUntouched_flagsKept; reflexivity|].
    split; [apply flagsUntouched_flagsKept; reflexivity|].
    apply flagsUntouched_flagsKept. apply setAllSegments_flagsUntouched.
  - intros Hq Hwf Hdp Hf Hfuel Hi Hj Hsti Hstj Hfl Hcj.
    assert (Hph : phase <> SEGMENT_STATE_UNDEFINED).
    { intros ->. specialize (Hcj O). discriminate. }
    destruct (refreshDisplay_quiet ADC_DAC_MAX_LSB MAX_REFRESH_RETRIES env Hq
                fuel w Hwf Hdp Hf Hfuel)
      as (o & w' & E & needed & wc & C & Hcase).
    destruct (classify_sample_count env
                w wc needed i Hdp Hi C) as (_ & Pc).
    pose proof C as (Hqc & _ & _ & Bc & _).
    rewrite <- Hstj in Hcj. destruct (Bc j Hj Hcj) as (_ & NC & NB).
    assert (Hn : neededFor phase needed = true).
    { destruct phase; cbn; [apply NB | apply NC | contradiction];
        exact Hstj. }
    assert (Fc : flagOf wc i = true).
    { apply (flagOf_kept w wc i Hqc); [|exact Hfl].
      destruct Hwf as (_ & _ & _ & Hwf). lia. }
    destruct Hcase as [(E1 & E2 & _) | (_ & -> & wb & LB & LC)].
    { destruct phase; cbn in Hn; congruence. }
    exists w'. split; [exact E|].
    destruct (loops_segment MAX_REFRESH_RETRIES env phase
                needed w wc wb w' i Hwf Hqc Hi Hsti Hph LB LC)
      as (_ & K & _ & _ & L4).
    split; [apply K, Fc|]. specialize (L4 Fc Hn). lia.
Qed.

(** Without a stop request and with fuel for [MAX_REFRESH_RETRIES + 1]
    passes of each retry loop, [executeDisplay] runs to its end. *)
Lemma executeDisplay_completes fuel (w : World) :
  (forall k : nat, irq env k = false) ->
  wellFormed (drv w) ->
  distinctPins (drv w) ->
  m_stopDrivingFlag (drv w) = false ->
  (Z.to_nat MAX_REFRESH_RETRIES < fuel)%nat ->
  exists w' : World,
    executeDisplay ADC_DAC_MAX_LSB MAX_REFRESH_RETRIES env fuel w
    = (Done tt, w').
Proof.
  intros Hq Hwf Hdp Hf Hfuel. unfold executeDisplay.
  pose proof (driveDisplay_driveFrame ADC_DAC_MAX_LSB env w) as Hfr.
  destruct (driveDisplay_run ADC_DAC_MAX_LSB env w)
    as [(p' & E & _) | (kb & kc & new & rest & wx & E & _ & _ & _ & _ & _ & _
                        & (Hlt & _ & Hirq))].
  2:{ rewrite Hq in Hirq. specialize (Hirq Hf). discriminate. }
  rewrite E in Hfr. cbn in Hfr. destruct Hfr as (Hcd & Hlen & _).
  rewrite (bind_Done _ _ _ _ _ E).
  set (wd := mkWorld _ _ p') in *.
  assert (Hwfd : wellFormed (drv wd)).
  { destruct Hwf as (H1 & H2 & H3 & H4).
    pose proof (coreDrive_fields _ _ Hcd) as (Hn & Hp & HN & _ & _ & _ & Hfl).
    unfold wellFormed, numSegments. cbn [drv wd] in *.
    rewrite <- Hn, <- Hp, <- HN, <- Hfl, Hlen. auto. }
  assert (Hdpd : distinctPins (drv wd)).
  { pose proof (coreDrive_fields _ _ Hcd) as (_ & Hp & HN & _).
    unfold distinctPins, pinOf, numSegments. cbn [drv wd] in *.
    rewrite <- Hp, <- HN. exact Hdp. }
  assert (Hfd : m_stopDrivingFlag (drv wd) = false).
  { cbn [drv wd]. unfold afterDrive, afterBleach.
    rewrite !applyPhase_flag. exact Hf. }
  destruct (refreshDisplay_quiet ADC_DAC_MAX_LSB MAX_REFRESH_RETRIES env Hq
              fuel wd Hwfd Hdpd Hfd Hfuel)
    as (o & w2 & E2 & needed & wc & C & Hcase).
  assert (Hq2 : m_stopDrivingFlag (drv w2) = false).
  { pose proof C as (Hqc & _).
    destruct Hcase as [(_ & _ & _ & (D & _)) | (_ & _ & wb & LB & LC)].
    - rewrite D. apply Hqc.
    - apply LC. }
  assert (Ecall : call (refreshDisplay ADC_DAC_MAX_LSB MAX_REFRESH_RETRIES
                          env fuel) wd = (Done tt, w2)).
  { unfold call. rewrite E2.
    destruct Hcase as [(_ & _ & -> & _) | (_ & -> & _)]; reflexivity. }
  rewrite (bind_Done _ _ _ _ _ Ecall).
  destruct (stopCheck_run env w2) as [(E3 & _) | (_ & Hirq)].
  - eexists. exact E3.
  - rewrite Hq in Hirq. specialize (Hirq Hq2). discriminate.
Qed.

End Refresh.

(** ** Further properties of the driver *)

(** *** Rules for specifications by outcome *)

Lemma hoare_conseq {A} (P P' : World -> Prop) (m : M A)
  (Qd Qd' : A -> World -> Prop) (Qx Qx' : option ReturnSite -> World -> Prop) :
  hoare P m Qd Qx ->
  (forall w, P' w -> P w) ->
  (forall a w, Qd a w -> Qd' a w) ->
  (forall e w, Qx e w -> Qx' e w) ->
  hoare P' m Qd' Qx'.
Proof.
  intros H HP HQ HX w Hw. specialize (H w (HP w Hw)). unfold post in *.
  destruct (m w) as [[a|s|] w']; auto.
Qed.

Lemma hoare_bind {A B} (P : World -> Prop) (m : M A) (k : A -> M B)
  (Q1 : A -> World -> Prop) (Qd : B -> World -> Prop)
  (Qx : option ReturnSite -> World -> Prop) :
  hoare P m Q1 Qx ->
  (forall a, hoare (Q1 a) (k a) Qd Qx) ->
  hoare P (bind m k) Qd Qx.
Proof.
  intros Hm Hk w Hw. specialize (Hm w Hw). unfold bind, post in *.
  destruct (m w) as [[a|s|] w1]; [|exact Hm|exact Hm].
  apply (Hk a w1 Hm).
Qed.

Lemma hoare_ret {A} (a : A) (P : World -> Prop) (Qd : A -> World -> Prop)
  Qx :
  (forall w, P w -> Qd a w) -> hoare P (ret a) Qd Qx.
Proof. intros H w Hw. apply H, Hw. Qed.

Lemma hoare_get (P : World -> Prop) (Qd : Driver -> World -> Prop) Qx :
  (forall w, P w -> Qd (drv w) w) -> hoare P get Qd Qx.
Proof. intros H w Hw. apply H, Hw. Qed.

Lemma hoare_modify f (P : World -> Prop) (Qd : unit -> World -> Prop) Qx :
  (forall w, P w -> Qd tt (mkWorld (f (drv w)) (events w) (polls w))) ->
  hoare P (modify f) Qd Qx.
Proof. intros H w Hw. apply H, Hw. Qed.

Lemma hoare_emit e (P : World -> Prop) (Qd : unit -> World -> Prop) Qx :
  (forall w, P w -> Qd tt (mkWorld (drv w) (e :: events w) (polls w))) ->
  hoare P (emit e) Qd Qx.
Proof. intros H w Hw. apply H, Hw. Qed.

Lemma hoare_returnFrom {A} s (P : World -> Prop) (Qd : A -> World -> Prop)
  (Qx : option ReturnSite -> World -> Prop) :
  (forall w, P w -> Qx (Some s) w) -> hoare P (@returnFrom A s) Qd Qx.
Proof. intros H w Hw. apply H, Hw. Qed.

Lemma hoare_call (P : World -> Prop) (m : M unit)
  (Qd Qd' : unit -> World -> Prop)
  (Qx Qx' : option ReturnSite -> World -> Prop) :
  hoare P m Qd Qx ->
  (forall w, Qd tt w -> Qd' tt w) ->
  (forall s w, Qx (Some s) w -> Qd' tt w) ->
  (forall w, Qx None w -> Qx' None w) ->
  hoare P (call m) Qd' Qx'.
Proof.
  intros H Hd Hs Hn w Hw. specialize (H w Hw). unfold call, post in *.
  destruct (m w) as [[[]|s|] w']; eauto.
Qed.

Lemma hoare_forEach {S} (l : list nat) (body : nat -> S -> M S)
  (I : S -> World -> Prop) Qx :
  (forall i s, hoare (I s) (body i s) I Qx) ->
  forall s, hoare (I s) (forEach l body s) I Qx.
Proof.
  intros Hb. induction l as [|i l IH]; intros s; cbn [forEach].
  - apply hoare_ret. auto.
  - eapply hoare_bind; [apply Hb | exact IH].
Qed.

Lemma hoare_forSegments {S} (body : nat -> S -> M S)
  (I : S -> World -> Prop) Qx (s : S) :
  (forall i s, hoare (I s) (body i s) I Qx) ->
  hoare (I s) (forSegments body s) I Qx.
Proof.
  intros Hb w Hw. rewrite forSegments_run.
  apply (hoare_forEach _ body I Qx Hb s w Hw).
Qed.

(** A [while] loop with an invariant; a run the model stops following is
    left to [Qx None]. *)
Lemma hoare_whileNeeded (I : bool -> World -> Prop) (iteration : Z -> M bool)
  Qx :
  (forall r, hoare (I true) (iteration r) I Qx) ->
  (forall w, I true w -> Qx None w) ->
  forall fuel needed r,
    hoare (I needed) (whileNeeded fuel iteration needed r)
      (fun _ => I false) Qx.
Proof.
  intros Hi Hn fuel. induction fuel as [|fuel IH]; intros needed r.
  - destruct needed; cbn.
    + intros w Hw. apply Hn, Hw.
    + apply hoare_ret. auto.
  - destruct needed; cbn [whileNeeded].
    + eapply hoare_bind; [apply Hi|]. intros b. apply IH.
    + apply hoare_ret. auto.
Qed.

(** A [while] loop whose condition is false after an iteration that
    started with [bound <= retries] ends within [bound - retries + 1]
    iterations. *)
Lemma hoare_whileNeeded_bounded (bound : Z) (I : World -> Prop)
  (iteration : Z -> M bool) Qx :
  (forall r, hoare I (iteration r)
               (fun b w => I w /\ (bound <= r -> b = false)) Qx) ->
  forall fuel needed r,
    (Z.to_nat (bound - r) < fuel)%nat ->
    hoare I (whileNeeded fuel iteration needed r) (fun _ => I) Qx.
Proof.
  intros Hi fuel. induction fuel as [|fuel IH]; intros needed r Hf; [lia|].
  destruct needed; cbn [whileNeeded]; [|apply hoare_ret; auto].
  eapply hoare_bind; [apply Hi|]. intros b w (Hw & Hb).
  destruct (Z_le_gt_dec bound r) as [Hr|Hr].
  - rewrite (Hb Hr). destruct fuel; cbn; exact Hw.
  - apply IH; [lia | exact Hw].
Qed.

Section Outcomes.

Variable ADC_DAC_MAX_LSB : Z.
Variable MAX_REFRESH_RETRIES : Z.
Variable env : Env.

Lemma hoare_analogRead pin (P : World -> Prop) (Qd : Z -> World -> Prop) Qx :
  (forall w, P w ->
     Qd (adc env (length (events w)) pin)
       (mkWorld (drv w)
          (EvAnalogRead pin (adc env (length (events w)) pin) :: events w)
          (polls w))) ->
  hoare P (analogRead env pin) Qd Qx.
Proof. intros H w Hw. apply H, Hw. Qed.

Lemma hoare_stopCheck (P : World -> Prop) (Qd : unit -> World -> Prop)
  (Qx : option ReturnSite -> World -> Prop) :
  (forall w, P w -> m_stopDrivingFlag (drv w) = false ->
     irq env (polls w) = false ->
     Qd tt (mkWorld (drv w) (events w) (S (polls w)))) ->
  (forall w, P w ->
     Qx (Some StopRequested)
       (mkWorld (set_stopDrivingFlag true (drv w)) (events w)
          (S (polls w)))) ->
  hoare P (stopCheck env) Qd Qx.
Proof.
  intros Hd Hx w Hw. unfold post.
  destruct (stopCheck_run env w) as [(E & Hi & Hf) | (E & _)]; rewrite E.
  - apply Hd; assumption.
  - apply Hx, Hw.
Qed.

End Outcomes.

(** *** Invariants of the methods *)

Lemma keeps_bind {A B} (P : World -> Prop) (m : M A) (k : A -> M B) Qx :
  hoare P m (fun _ => P) Qx ->
  (forall a, hoare P (k a) (fun _ => P) Qx) ->
  hoare P (bind m k) (fun _ => P) Qx.
Proof. intros Hm Hk. eapply hoare_bind; [exact Hm | exact Hk]. Qed.

Lemma keeps_ret {A} (a : A) (P : World -> Prop) Qx :
  hoare P (ret a) (fun _ => P) Qx.
Proof. apply hoare_ret. auto. Qed.

Lemma keeps_get (P : World -> Prop) Qx : hoare P get (fun _ => P) Qx.
Proof. apply hoare_get. auto. Qed.

Lemma keeps_forSegments {S} (body : nat -> S -> M S) (P : World -> Prop) Qx
  (s : S) :
  (forall i s, hoare P (body i s) (fun _ => P) Qx) ->
  hoare P (forSegments body s) (fun _ => P) Qx.
Proof. intros Hb. apply (hoare_forSegments body (fun _ => P) Qx s Hb). Qed.

Lemma keeps_from {A} (P P' : World -> Prop) (m : M A) Qd Qx :
  (forall w, P' w -> P w) -> hoare P m Qd Qx -> hoare P' m Qd Qx.
Proof. intros HP H. apply (hoare_conseq P P' m Qd Qd Qx Qx H); auto. Qed.

Lemma wiring_fields d d' :
  wiring d = wiring d' ->
  m_counterElectrodePin d = m_counterElectrodePin d'
  /\ numSegments d = numSegments d'
  /\ segmentIndices d = segmentIndices d'
  /\ forall i, pinOf d i = pinOf d' i.
Proof.
  unfold wiring, numSegments, segmentIndices, pinOf. intros H.
  inversion H as [[H1 H2 H3]]. rewrite H2, H3. auto.
Qed.

Lemma counterElectrodeApart_wiring d d' :
  wiring d = wiring d' -> counterElectrodeApart d -> counterElectrodeApart d'.
Proof.
  intros H Ha i Hi. apply wiring_fields in H as (Hc & Hn & _ & Hp).
  rewrite <- Hp, <- Hc. apply Ha. rewrite Hn. exact Hi.
Qed.

Lemma highZ_keeps cePin e p evs :
  keepsHighZ cePin e -> p <> cePin ->
  highZ p evs = true -> highZ p (e :: evs) = true.
Proof.
  intros He Hp H. destruct e as [q mode|q l|q v|q v|ms|b|b]; cbn in *;
    try exact H.
  - subst mode. destruct (Z.eqb q p); [reflexivity | exact H].
  - destruct He.
  - subst q. destruct (Z.eqb_spec cePin p) as [->|_]; [congruence | exact H].
Qed.

Lemma highZ_floated p evs : highZ p (EvPinMode p INPUT :: evs) = true.
Proof. cbn. rewrite Z.eqb_refl. reflexivity. Qed.

Lemma highZ_floatEvents d l cePin : forall evs p,
  p <> cePin ->
  (exists i, i ∈ l /\ pinOf d i = p) \/ highZ p evs = true ->
  highZ p (rev (map (fun i => EvPinMode (pinOf d i) INPUT) l) ++ evs) = true.
Proof.
  induction l as [|j l IH]; intros evs p Hp H.
  - destruct H as [(i & Hi & _) | H]; [inversion Hi | exact H].
  - cbn [map rev]. rewrite <- app_assoc. apply IH; [exact Hp|].
    destruct H as [(i & Hi & E) | H].
    + apply elem_of_cons in Hi as [->|Hi].
      * right. rewrite E. apply highZ_floated.
      * left. exists i. split; assumption.
    + right. cbn [app]. apply (highZ_keeps cePin); [reflexivity | exact Hp | exact H].
Qed.

Create HintDb highz.

Section Invariants.

Variable ADC_DAC_MAX_LSB : Z.
Variable MAX_REFRESH_RETRIES : Z.
Variable env : Env.
Variable Qx : option ReturnSite -> World -> Prop.

Hypothesis Qx_stop :
  forall w : World,
    m_stopDrivingFlag (drv w) = true -> Qx (Some StopRequested) w.

(** A test of the stop flag keeps what does not depend on the flag and on
    the count of tests. *)
Lemma keeps_stopCheck (P : World -> Prop) :
  (forall w p, P w -> P (mkWorld (drv w) (events w) p)) ->
  hoare P (stopCheck env) (fun _ => P) Qx.
Proof.
  intros HP. apply hoare_stopCheck.
  - intros w Hw _ _. apply HP, Hw.
  - intros w _. apply Qx_stop. reflexivity.
Qed.

Variable wr : Z * Z * list Z.

Lemma stopCheck_wired : hoare (wired wr) (stopCheck env) (fun _ => wired wr) Qx.
Proof. apply keeps_stopCheck. intros w p H. exact H. Qed.

Lemma stopCheck_floating :
  hoare (floating wr) (stopCheck env) (fun _ => floating wr) Qx.
Proof. apply keeps_stopCheck. intros w p H. exact H. Qed.

Lemma emit_wired e : hoare (wired wr) (emit e) (fun _ => wired wr) Qx.
Proof. apply hoare_emit. intros w H. exact H. Qed.

Lemma modify_wired f :
  (forall d, wiring (f d) = wiring d) ->
  hoare (wired wr) (modify f) (fun _ => wired wr) Qx.
Proof.
  intros Hf. apply hoare_modify. intros w (Hw & Ha). split; cbn.
  - rewrite Hf. exact Hw.
  - apply (counterElectrodeApart_wiring (drv w)); [|exact Ha].
    symmetry. apply Hf.
Qed.

Lemma emit_floating e :
  keepsHighZ (fst (fst wr)) e ->
  hoare (floating wr) (emit e) (fun _ => floating wr) Qx.
Proof.
  intros He. apply hoare_emit. intros w ((Hw & Ha) & Hz).
  split; [split; assumption|]. intros i Hi. cbn in *.
  apply (highZ_keeps (fst (fst wr))); [exact He | | apply Hz, Hi].
  rewrite <- Hw. cbn. apply Ha, Hi.
Qed.

Lemma analogRead_floating pin :
  hoare (floating wr) (analogRead env pin) (fun _ => floating wr) Qx.
Proof.
  apply hoare_analogRead. intros w (Hw & Hz). split; [exact Hw|].
  intros i Hi. cbn. apply Hz, Hi.
Qed.

Lemma modify_floating f :
  (forall d, wiring (f d) = wiring d) ->
  hoare (floating wr) (modify f) (fun _ => floating wr) Qx.
Proof.
  intros Hf. apply hoare_modify. intros w ((Hw & Ha) & Hz).
  destruct (wiring_fields _ _ (Hf (drv w))) as (_ & Hn & _ & Hp).
  split; [split|]; cbn.
  - rewrite Hf. exact Hw.
  - apply (counterElectrodeApart_wiring (drv w)); [|exact Ha].
    symmetry. apply Hf.
  - intros i Hi. cbn in *. rewrite Hp. apply Hz. rewrite <- Hn. exact Hi.
Qed.

(** [disableAllSegments] puts every segment pin in high impedance. *)
Lemma disableAllSegments_floats :
  hoare (wired wr) disableAllSegments (fun _ => floating wr) Qx.
Proof.
  intros w (Hw & Ha). rewrite disableAllSegments_run. cbn.
  split; [split; assumption|]. intros i Hi. cbn in *.
  apply (highZ_floatEvents _ _ (m_counterElectrodePin (drv w)));
    [apply Ha, Hi|].
  left. exists i. split; [|reflexivity].
  apply elem_of_seq. unfold numSegments in Hi. lia.
Qed.

Hint Resolve stopCheck_wired stopCheck_floating emit_wired
  analogRead_floating : highz.

Ltac keeps_step :=
  lazymatch goal with
  | |- hoare _ (ret _) _ _ => apply keeps_ret
  | |- hoare _ get _ _ => apply keeps_get
  | |- hoare _ (forSegments _ _) _ _ => apply keeps_forSegments; intros ? ?
  | |- hoare _ (bind _ _) _ _ => apply keeps_bind; [| intros ?]
  | |- hoare _ (if ?b then _ else _) _ _ => destruct b
  | |- hoare (wired _) (modify _) _ _ =>
      apply modify_wired; intros ?; reflexivity
  | |- hoare (floating _) (modify _) _ _ =>
      apply modify_floating; intros ?; reflexivity
  | |- hoare (floating _) (emit _) _ _ =>
      apply emit_floating; cbn; reflexivity
  | |- _ => solve [auto with highz]
  end.

Ltac keeps_steps := repeat keeps_step.

Lemma enableCounterElectrode_wired v :
  hoare (wired wr) (enableCounterElectrode ADC_DAC_MAX_LSB v)
    (fun _ => wired wr) Qx.
Proof. unfold enableCounterElectrode, analogWrite, delay. keeps_steps. Qed.

Lemma disableCounterElectrode_wired :
  hoare (wired wr) disableCounterElectrode (fun _ => wired wr) Qx.
Proof. unfold disableCounterElectrode, analogWrite. keeps_steps. Qed.

(** A write to the counter electrode leaves the segment pins alone. *)
Lemma analogWrite_floating v :
  hoare (floating wr) (bind get (fun d => analogWrite (m_counterElectrodePin d) v))
    (fun _ => floating wr) Qx.
Proof.
  intros w Hw. rewrite bind_get. revert w Hw.
  intros w Hw. apply (emit_floating (EvAnalogWrite _ v)); [|exact Hw].
  cbn. destruct Hw as ((Hw & _) & _). rewrite <- Hw. reflexivity.
Qed.

Lemma enableCounterElectrode_floating v :
  hoare (floating wr) (enableCounterElectrode ADC_DAC_MAX_LSB v)
    (fun _ => floating wr) Qx.
Proof.
  intros w Hw. rewrite enableCounterElectrode_run. cbn.
  destruct Hw as ((Hw & Ha) & Hz). split; [split; assumption|].
  intros i Hi. cbn in *.
  assert (Hp : Z.eqb (pinOf (drv w) i) (m_counterElectrodePin (drv w)) = false)
    by (apply Z.eqb_neq, Ha, Hi).
  rewrite Z.eqb_sym in Hp. rewrite Hp. apply Hz, Hi.
Qed.

Lemma disableCounterElectrode_floating :
  hoare (floating wr) disableCounterElectrode (fun _ => floating wr) Qx.
Proof. apply analogWrite_floating. Qed.

Lemma disableAllSegments_wired :
  hoare (wired wr) disableAllSegments (fun _ => wired wr) Qx.
Proof.
  unfold disableAllSegments, disableSegment, pinMode. keeps_steps.
Qed.

Lemma disableAllSegments_floating :
  hoare (floating wr) disableAllSegments (fun _ => floating wr) Qx.
Proof.
  apply (keeps_from (wired wr)); [intros w H; apply H|].
  apply disableAllSegments_floats.
Qed.

Hint Resolve enableCounterElectrode_wired disableCounterElectrode_wired
  enableCounterElectrode_floating disableCounterElectrode_floating
  disableAllSegments_wired disableAllSegments_floating : highz.

Lemma classifySegment_floating i needed :
  hoare (floating wr) (classifySegment env i needed)
    (fun _ => floating wr) Qx.
Proof. unfold classifySegment, pinMode. keeps_steps. Qed.

Lemma resampleSegment_floating phase oor r i b :
  hoare (floating wr)
    (resampleSegment MAX_REFRESH_RETRIES env phase oor r i b)
    (fun _ => floating wr) Qx.
Proof. unfold resampleSegment, pinMode. keeps_steps. Qed.

Lemma pulseSegment_wired phase level i u :
  hoare (wired wr) (pulseSegment env phase level i u)
    (fun _ => wired wr) Qx.
Proof. unfold pulseSegment, pinMode, digitalWrite. keeps_steps. Qed.

Lemma driveSegment_wired target i b :
  hoare (wired wr) (driveSegment env target i b) (fun _ => wired wr) Qx.
Proof. unfold driveSegment, pinMode, digitalWrite. keeps_steps. Qed.

Hint Resolve classifySegment_floating resampleSegment_floating
  pulseSegment_wired driveSegment_wired : highz.

(** Each pass of a retry loop ends with every segment pin in high
    impedance, whatever it found. *)
Lemma refreshBleachIteration_floats r :
  hoare (wired wr) (refreshBleachIteration MAX_REFRESH_RETRIES env r)
    (fun _ => floating wr) Qx.
Proof.
  unfold refreshBleachIteration, delay.
  eapply hoare_bind; [apply stopCheck_wired | intros ?; cbv beta].
  eapply hoare_bind; [apply keeps_forSegments; intros ? ?;
                      apply pulseSegment_wired | intros ?; cbv beta].
  eapply hoare_bind; [apply keeps_get | intros d; cbv beta].
  eapply hoare_bind; [apply emit_wired | intros ?; cbv beta].
  eapply hoare_bind; [apply disableAllSegments_floats | intros ?; cbv beta].
  keeps_steps.
Qed.

Lemma refreshColorIteration_floats lim r :
  hoare (wired wr) (refreshColorIteration MAX_REFRESH_RETRIES env lim r)
    (fun _ => floating wr) Qx.
Proof.
  unfold refreshColorIteration, delay.
  eapply hoare_bind; [apply stopCheck_wired | intros ?; cbv beta].
  eapply hoare_bind; [apply keeps_forSegments; intros ? ?;
                      apply pulseSegment_wired | intros ?; cbv beta].
  eapply hoare_bind; [apply keeps_get | intros d; cbv beta].
  eapply hoare_bind; [apply emit_wired | intros ?; cbv beta].
  eapply hoare_bind; [apply stopCheck_wired | intros ?; cbv beta].
  eapply hoare_bind; [apply disableAllSegments_floats | intros ?; cbv beta].
  keeps_steps.
Qed.

Lemma whileNeeded_floating fuel (iteration : Z -> M bool) needed r :
  (forall r, hoare (wired wr) (iteration r) (fun _ => floating wr) Qx) ->
  (forall w, Qx None w) ->
  hoare (floating wr) (whileNeeded fuel iteration needed r)
    (fun _ => floating wr) Qx.
Proof.
  intros Hi Hn.
  apply (hoare_whileNeeded (fun _ => floating wr) iteration Qx).
  - intros r'. apply (keeps_from (wired wr)); [intros w H; apply H|].
    apply Hi.
  - intros w _. apply Hn.
Qed.

(** One phase of [executeDisplay] ends with every segment pin in high
    impedance. *)
Lemma drivePhase_floats target v ms :
  hoare (wired wr) (drivePhase ADC_DAC_MAX_LSB env target v ms)
    (fun _ => floating wr) Qx.
Proof.
  unfold drivePhase, holdIfRequired, delay.
  eapply hoare_bind; [apply enableCounterElectrode_wired | intros ?; cbv beta].
  eapply hoare_bind; [apply keeps_forSegments; intros ? ?;
                      apply driveSegment_wired | intros b; cbv beta].
  eapply hoare_bind; [|intros ?; cbv beta; apply disableAllSegments_floats].
  keeps_steps.
Qed.

Lemma driveDisplay_floats :
  hoare (wired wr) (driveDisplay ADC_DAC_MAX_LSB env)
    (fun _ => floating wr) Qx.
Proof.
  unfold driveDisplay.
  eapply hoare_bind; [apply keeps_get | intros d; cbv beta].
  eapply hoare_bind; [apply drivePhase_floats | intros ?; cbv beta].
  eapply hoare_bind; [apply keeps_get | intros d'; cbv beta].
  eapply hoare_bind;
    [apply (keeps_from (wired wr)); [intros w H; apply H|];
     apply drivePhase_floats | intros ?; cbv beta].
  apply disableCounterElectrode_floating.
Qed.

End Invariants.

Section HighImpedance.

Variable ADC_DAC_MAX_LSB : Z.
Variable MAX_REFRESH_RETRIES : Z.
Variable env : Env.

Lemma refreshDisplay_floats fuel wr :
  hoare (wired wr)
    (refreshDisplay ADC_DAC_MAX_LSB MAX_REFRESH_RETRIES env fuel)
    (fun _ => floating wr) (atReturn (floating wr)).
Proof.
  set (Qx := atReturn (floating wr)).
  assert (Hs : forall w, m_stopDrivingFlag (drv w) = true ->
                         Qx (Some StopRequested) w) by (intros w H; exact H).
  assert (Hn : forall w, Qx None w) by (intros w; exact I).
  unfold refreshDisplay.
  eapply hoare_bind; [apply (stopCheck_wired env Qx Hs) | intros ?; cbv beta].
  eapply hoare_bind; [apply keeps_get | intros d; cbv beta].
  eapply hoare_bind; [apply enableCounterElectrode_wired | intros ?; cbv beta].
  eapply hoare_bind; [apply disableAllSegments_floats | intros ?; cbv beta].
  eapply hoare_bind;
    [apply keeps_forSegments; intros ? ?;
     apply (classifySegment_floating env Qx Hs) | intros needed; cbv beta].
  eapply hoare_bind; [apply (stopCheck_floating env Qx Hs) | intros ?; cbv beta].
  destruct (negb (needed.2 || needed.1)).
  - apply hoare_returnFrom. intros w H. exact H.
  - eapply hoare_bind; [apply keeps_get | intros d1; cbv beta].
    eapply hoare_bind; [apply enableCounterElectrode_floating | intros ?; cbv beta].
    eapply hoare_bind;
      [apply whileNeeded_floating;
       [intros r; apply (refreshBleachIteration_floats _ env Qx Hs)
       | exact Hn] | intros ?; cbv beta].
    eapply hoare_bind; [apply keeps_get | intros d2; cbv beta].
    eapply hoare_bind; [apply enableCounterElectrode_floating | intros ?; cbv beta].
    eapply hoare_bind;
      [apply whileNeeded_floating;
       [intros r; apply (refreshColorIteration_floats _ env Qx Hs)
       | exact Hn] | intros ?; cbv beta].
    apply disableCounterElectrode_floating.
Qed.

(** X7: [refreshDisplay] leaves no segment driven: when it returns without
    having seen a stop request, by its end or by the early return, every
    segment pin is in high impedance.  The counter electrode has to be on a
    pin of its own. *)
Theorem refreshDisplay_leaves_segments_highZ fuel (w w' : World) o :
  counterElectrodeApart (drv w) ->
  refreshDisplay ADC_DAC_MAX_LSB MAX_REFRESH_RETRIES env fuel w = (o, w') ->
  o = Done tt \/ o = Returned NoRefreshNeeded ->
  forall i : nat,
    (i < numSegments (drv w))%nat ->
    highZ (pinOf (drv w) i) (events w') = true.
Proof.
  intros Ha E Ho i Hi.
  pose proof (refreshDisplay_floats fuel (wiring (drv w)) w
                (conj eq_refl Ha)) as H.
  rewrite E in H. unfold post in H.
  assert (HF : floating (wiring (drv w)) w').
  { destruct Ho as [-> | ->]; exact H. }
  destruct HF as ((Hw & _) & Hz).
  apply wiring_fields in Hw as (_ & Hn & _ & Hp).
  rewrite <- Hp. apply Hz. rewrite Hn. exact Hi.
Qed.

Lemma executeDisplay_floats fuel wr :
  hoare (wired wr)
    (executeDisplay ADC_DAC_MAX_LSB MAX_REFRESH_RETRIES env fuel)
    (fun _ => floating wr) (fun _ _ => True).
Proof.
  unfold executeDisplay.
  eapply hoare_bind;
    [apply driveDisplay_floats; intros w _; exact I | intros ?; cbv beta].
  eapply (hoare_bind _ _ _
            (fun _ w => floating wr w \/ m_stopDrivingFlag (drv w) = true)).
  - eapply hoare_call.
    + apply (keeps_from (wired wr)); [intros w H; apply H|].
      apply refreshDisplay_floats.
    + intros w H. left. exact H.
    + intros [|] w H; [right | left]; exact H.
    + intros w _. exact I.
  - intros _. apply hoare_stopCheck.
    + intros w [H|H] Hf _; [exact H | cbn in Hf; congruence].
    + intros w _. exact I.
Qed.

(** X6: [executeDisplay] leaves no segment driven: when it runs to its end,
    every segment pin is in high impedance, whether or not the refresh
    that closes it found something to do. *)
Theorem executeDisplay_leaves_segments_highZ fuel (w w' : World) :
  counterElectrodeApart (drv w) ->
  executeDisplay ADC_DAC_MAX_LSB MAX_REFRESH_RETRIES env fuel w
  = (Done tt, w') ->
  forall i : nat,
    (i < numSegments (drv w))%nat ->
    highZ (pinOf (drv w) i) (events w') = true.
Proof.
  intros Ha E i Hi.
  pose proof (executeDisplay_floats fuel (wiring (drv w)) w
                (conj eq_refl Ha)) as H.
  rewrite E in H. destruct H as ((Hw & _) & Hz).
  apply wiring_fields in Hw as (_ & Hn & _ & Hp).
  rewrite <- Hp. apply Hz. rewrite Hn. exact Hi.
Qed.

End HighImpedance.

(** *** The retry loops end in every environment *)

Section Termination.

Variable ADC_DAC_MAX_LSB : Z.
Variable MAX_REFRESH_RETRIES : Z.
Variable env : Env.

Let anyWorld : World -> Prop := fun _ => True.

Lemma fuelSufficed_stop (w : World) :
  m_stopDrivingFlag (drv w) = true -> fuelSufficed (Some StopRequested) w.
Proof. intros _. discriminate. Qed.

Lemma stopCheck_ends :
  hoare anyWorld (stopCheck env) (fun _ => anyWorld) fuelSufficed.
Proof.
  apply keeps_stopCheck; [apply fuelSufficed_stop | intros w p _; exact I].
Qed.

Lemma emit_ends e : hoare anyWorld (emit e) (fun _ => anyWorld) fuelSufficed.
Proof. apply hoare_emit. auto. Qed.

Lemma modify_ends f :
  hoare anyWorld (modify f) (fun _ => anyWorld) fuelSufficed.
Proof. apply hoare_modify. auto. Qed.

Lemma analogRead_ends pin :
  hoare anyWorld (analogRead env pin) (fun _ => anyWorld) fuelSufficed.
Proof. apply hoare_analogRead. auto. Qed.

Hint Resolve stopCheck_ends emit_ends modify_ends analogRead_ends : highz.

Ltac ends_step :=
  lazymatch goal with
  | |- hoare _ (ret _) _ _ => apply keeps_ret
  | |- hoare _ get _ _ => apply keeps_get
  | |- hoare _ (forSegments _ _) _ _ => apply keeps_forSegments; intros ? ?
  | |- hoare _ (bind _ _) _ _ => apply keeps_bind; [| intros ?]
  | |- hoare _ (if ?b then _ else _) _ _ => destruct b
  | |- _ => solve [auto with highz]
  end.

Ltac ends_steps := repeat ends_step.

Lemma disableAllSegments_ends :
  hoare anyWorld disableAllSegments (fun _ => anyWorld) fuelSufficed.
Proof. unfold disableAllSegments, disableSegment, pinMode. ends_steps. Qed.

Lemma enableCounterElectrode_ends v :
  hoare anyWorld (enableCounterElectrode ADC_DAC_MAX_LSB v)
    (fun _ => anyWorld) fuelSufficed.
Proof. unfold enableCounterElectrode, analogWrite, delay. ends_steps. Qed.

Lemma disableCounterElectrode_ends :
  hoare anyWorld disableCounterElectrode (fun _ => anyWorld) fuelSufficed.
Proof. unfold disableCounterElectrode, analogWrite. ends_steps. Qed.

Hint Resolve disableAllSegments_ends enableCounterElectrode_ends
  disableCounterElectrode_ends : highz.

Lemma pulseSegment_ends phase level i u :
  hoare anyWorld (pulseSegment env phase level i u)
    (fun _ => anyWorld) fuelSufficed.
Proof. unfold pulseSegment, pinMode, digitalWrite. ends_steps. Qed.

Lemma classifySegment_ends i needed :
  hoare anyWorld (classifySegment env i needed)
    (fun _ => anyWorld) fuelSufficed.
Proof. unfold classifySegment, pinMode. ends_steps. Qed.

Lemma driveSegment_ends target i b :
  hoare anyWorld (driveSegment env target i b)
    (fun _ => anyWorld) fuelSufficed.
Proof. unfold driveSegment, pinMode, digitalWrite. ends_steps. Qed.

Lemma resampleSegment_ends phase oor r i b :
  hoare anyWorld (resampleSegment MAX_REFRESH_RETRIES env phase oor r i b)
    (fun _ => anyWorld) fuelSufficed.
Proof. unfold resampleSegment, pinMode. ends_steps. Qed.

Hint Resolve pulseSegment_ends classifySegment_ends driveSegment_ends
  resampleSegment_ends : highz.

(** Once the retry count has reached the cap, the re-sampling loop reads
    no pin and leaves the loop condition as it finds it. *)
Lemma resampleSegment_capped phase oor r i b :
  hoare anyWorld (resampleSegment MAX_REFRESH_RETRIES env phase oor r i b)
    (fun b' _ => MAX_REFRESH_RETRIES <= r -> b' = b) fuelSufficed.
Proof.
  destruct (Z.ltb_spec r MAX_REFRESH_RETRIES) as [Hr|Hr].
  - eapply hoare_conseq; [apply resampleSegment_ends | auto | | auto].
    intros b' w _ H. lia.
  - unfold resampleSegment.
    eapply hoare_bind; [apply stopCheck_ends | intros ?; cbv beta].
    eapply hoare_bind; [apply keeps_get | intros d; cbv beta].
    replace (r <? MAX_REFRESH_RETRIES) with false
      by (symmetry; apply Z.ltb_ge; exact Hr).
    rewrite andb_false_r. apply hoare_ret. auto.
Qed.

Lemma resampleLoop_capped phase oor r :
  hoare anyWorld
    (forSegments (resampleSegment MAX_REFRESH_RETRIES env phase oor r) false)
    (fun b _ => MAX_REFRESH_RETRIES <= r -> b = false) fuelSufficed.
Proof.
  apply (keeps_from (fun _ => MAX_REFRESH_RETRIES <= r -> false = false));
    [reflexivity|].
  apply (hoare_forSegments _
           (fun b _ => MAX_REFRESH_RETRIES <= r -> b = false)).
  intros i s w Hs.
  pose proof (resampleSegment_capped phase oor r i s w I) as H.
  unfold post in *.
  destruct (resampleSegment MAX_REFRESH_RETRIES env phase oor r i s w)
    as [[b'|s'|] w']; [|exact H|exact H].
  intros Hr. rewrite (H Hr). apply Hs, Hr.
Qed.

Lemma refreshBleachIteration_capped r :
  hoare anyWorld (refreshBleachIteration MAX_REFRESH_RETRIES env r)
    (fun b w => anyWorld w /\ (MAX_REFRESH_RETRIES <= r -> b = false))
    fuelSufficed.
Proof.
  unfold refreshBleachIteration, delay.
  eapply hoare_bind; [apply stopCheck_ends | intros ?; cbv beta].
  eapply hoare_bind; [apply keeps_forSegments; intros ? ?;
                      apply pulseSegment_ends | intros ?; cbv beta].
  eapply hoare_bind; [apply keeps_get | intros d; cbv beta].
  eapply hoare_bind; [apply emit_ends | intros ?; cbv beta].
  eapply hoare_bind; [apply disableAllSegments_ends | intros ?; cbv beta].
  eapply hoare_bind; [apply stopCheck_ends | intros ?; cbv beta].
  eapply hoare_bind;
    [apply (keeps_from anyWorld); [auto|]; apply resampleLoop_capped
    | intros b; cbv beta].
  eapply (hoare_bind _ _ _
            (fun _ _ => MAX_REFRESH_RETRIES <= r -> b = false));
    [apply hoare_emit; intros w H; exact H | intros ?; cbv beta].
  apply hoare_ret. intros w H. split; [exact I | exact H].
Qed.

Lemma refreshColorIteration_capped lim r :
  hoare anyWorld (refreshColorIteration MAX_REFRESH_RETRIES env lim r)
    (fun b w => anyWorld w /\ (MAX_REFRESH_RETRIES <= r -> b = false))
    fuelSufficed.
Proof.
  unfold refreshColorIteration, delay.
  eapply hoare_bind; [apply stopCheck_ends | intros ?; cbv beta].
  eapply hoare_bind; [apply keeps_forSegments; intros ? ?;
                      apply pulseSegment_ends | intros ?; cbv beta].
  eapply hoare_bind; [apply keeps_get | intros d; cbv beta].
  eapply hoare_bind; [apply emit_ends | intros ?; cbv beta].
  eapply hoare_bind; [apply stopCheck_ends | intros ?; cbv beta].
  eapply hoare_bind; [apply disableAllSegments_ends | intros ?; cbv beta].
  eapply hoare_bind;
    [apply (keeps_from anyWorld); [auto|]; apply resampleLoop_capped
    | intros b; cbv beta].
  eapply (hoare_bind _ _ _
            (fun _ _ => MAX_REFRESH_RETRIES <= r -> b = false));
    [apply hoare_emit; intros w H; exact H | intros ?; cbv beta].
  apply hoare_ret. intros w H. split; [exact I | exact H].
Qed.

Lemma refreshDisplay_ends fuel :
  (Z.to_nat MAX_REFRESH_RETRIES < fuel)%nat ->
  hoare anyWorld
    (refreshDisplay ADC_DAC_MAX_LSB MAX_REFRESH_RETRIES env fuel)
    (fun _ => anyWorld) fuelSufficed.
Proof.
  intros Hf. unfold refreshDisplay.
  assert (Hf0 : (Z.to_nat (MAX_REFRESH_RETRIES - 0) < fuel)%nat)
    by (rewrite Z.sub_0_r; exact Hf).
  ends_steps.
  - apply hoare_returnFrom. intros w _. discriminate.
  - apply (hoare_whileNeeded_bounded MAX_REFRESH_RETRIES anyWorld);
      [apply refreshBleachIteration_capped | exact Hf0].
  - apply (hoare_whileNeeded_bounded MAX_REFRESH_RETRIES anyWorld);
      [intros r; apply refreshColorIteration_capped | exact Hf0].
Qed.

Lemma driveDisplay_ends :
  hoare anyWorld (driveDisplay ADC_DAC_MAX_LSB env)
    (fun _ => anyWorld) fuelSufficed.
Proof.
  unfold driveDisplay, drivePhase, holdIfRequired, delay. ends_steps.
Qed.

Lemma executeDisplay_ends fuel :
  (Z.to_nat MAX_REFRESH_RETRIES < fuel)%nat ->
  hoare anyWorld
    (executeDisplay ADC_DAC_MAX_LSB MAX_REFRESH_RETRIES env fuel)
    (fun _ => anyWorld) fuelSufficed.
Proof.
  intros Hf. unfold executeDisplay.
  apply keeps_bind; [apply driveDisplay_ends | intros ?; cbv beta].
  apply keeps_bind; [|intros _; apply stopCheck_ends].
  eapply hoare_call;
    [apply (refreshDisplay_ends fuel Hf) | intros w _; exact I
    | intros s w _; exact I | intros w H; exact H].
Qed.

Lemma begin_ends fuel :
  (Z.to_nat MAX_REFRESH_RETRIES < fuel)%nat ->
  hoare anyWorld (begin ADC_DAC_MAX_LSB MAX_REFRESH_RETRIES env fuel)
    (fun _ => anyWorld) fuelSufficed.
Proof.
  intros Hf. unfold begin, setAllSegments, setSegmentState.
  assert (Hc : hoare anyWorld
                 (call (executeDisplay ADC_DAC_MAX_LSB MAX_REFRESH_RETRIES
                          env fuel))
                 (fun _ => anyWorld) fuelSufficed).
  { eapply hoare_call;
      [apply (executeDisplay_ends fuel Hf) | intros w _; exact I
      | intros s w _; exact I | intros w H; exact H]. }
  ends_steps.
Qed.

(** X10: The retry loops of [refreshDisplay] end in every environment: whatever
    the samples and whenever a stop is requested, neither loop makes more
    than [MAX_REFRESH_RETRIES + 1] passes (one pass when the cap is zero or
    negative), so [refreshDisplay], [executeDisplay] and [begin] all
    return. *)
Theorem refresh_loops_end_within_cap fuel (w : World) :
  (Z.to_nat MAX_REFRESH_RETRIES < fuel)%nat ->
  fst (refreshDisplay ADC_DAC_MAX_LSB MAX_REFRESH_RETRIES env fuel w)
  <> OutOfFuel
  /\ fst (executeDisplay ADC_DAC_MAX_LSB MAX_REFRESH_RETRIES env fuel w)
     <> OutOfFuel
  /\ fst (begin ADC_DAC_MAX_LSB MAX_REFRESH_RETRIES env fuel w)
     <> OutOfFuel.
Proof.
  intros Hf.
  pose proof (refreshDisplay_ends fuel Hf w I) as H1.
  pose proof (executeDisplay_ends fuel Hf w I) as H2.
  pose proof (begin_ends fuel Hf w I) as H3.
  unfold post, fuelSufficed in *.
  split; [|split].
  - destruct (refreshDisplay _ _ _ _ w) as [[[]|s|] w']; cbn;
      [discriminate | discriminate | congruence].
  - destruct (executeDisplay _ _ _ _ w) as [[[]|s|] w']; cbn;
      [discriminate | discriminate | congruence].
  - destruct (begin _ _ _ _ w) as [[[]|s|] w']; cbn;
      [discriminate | discriminate | congruence].
Qed.

End Termination.

(** *** The constructor and the methods that only write members *)

Lemma fillAt_cons {A} (f : nat -> A) i idx (l : list A) :
  fillAt f (i :: idx) l = fillAt f idx (<[i := f i]> l).
Proof. reflexivity. Qed.

Lemma length_fillAt {A} (f : nat -> A) idx : forall l : list A,
  length (fillAt f idx l) = length l.
Proof.
  induction idx as [|i idx IH]; intros l; [reflexivity|].
  rewrite fillAt_cons, IH. apply length_insert.
Qed.

Lemma insert_lookup_fmap {A} (x : A) (l : list A) i :
  <[i := x]> l !! i = (fun _ => x) <$> l !! i.
Proof.
  destruct (Nat.lt_ge_cases i (length l)) as [H|H].
  - rewrite list_lookup_insert_eq by exact H.
    apply lookup_lt_is_Some in H as (y & ->). reflexivity.
  - rewrite list_insert_ge by exact H.
    rewrite lookup_ge_None_2 by exact H. reflexivity.
Qed.

Lemma fillAt_lookup {A} (f : nat -> A) idx : forall (l : list A) j,
  fillAt f idx l !! j
  = if bool_decide (j ∈ idx) then (fun _ => f j) <$> l !! j else l !! j.
Proof.
  induction idx as [|i idx IH]; intros l j; [reflexivity|].
  rewrite fillAt_cons, IH.
  destruct (decide (j = i)) as [->|Hne].
  - rewrite insert_lookup_fmap.
    rewrite (bool_decide_eq_true_2 (i ∈ i :: idx)) by left.
    destruct (bool_decide (i ∈ idx)); [|reflexivity].
    destruct (l !! i); reflexivity.
  - rewrite list_lookup_insert_ne by congruence.
    destruct (decide (j ∈ idx)) as [Hin|Hout].
    + rewrite bool_decide_eq_true_2 by exact Hin.
      rewrite bool_decide_eq_true_2 by (right; exact Hin). reflexivity.
    + rewrite bool_decide_eq_false_2 by exact Hout.
      rewrite bool_decide_eq_false_2; [reflexivity|].
      intros H. apply elem_of_cons in H as [H|H]; contradiction.
Qed.

Lemma fillAt_lookup_in {A} (f : nat -> A) idx (l : list A) j :
  j ∈ idx -> (j < length l)%nat -> fillAt f idx l !! j = Some (f j).
Proof.
  intros Hj Hl. rewrite fillAt_lookup, bool_decide_eq_true_2 by exact Hj.
  apply lookup_lt_is_Some in Hl as (y & ->). reflexivity.
Qed.

Lemma fillAt_lookup_out {A} (f : nat -> A) idx (l : list A) j :
  j ∉ idx -> fillAt f idx l !! j = l !! j.
Proof.
  intros Hj. rewrite fillAt_lookup, bool_decide_eq_false_2 by exact Hj.
  reflexivity.
Qed.

Lemma setSegmentState_loop b idx : forall (w : World),
  forEach idx (fun i _ => setSegmentState i b) tt w
  = (Done tt,
     mkWorld
       (set_nextState
          (fillAt (fun _ => stateOfBool b) idx (m_nextState (drv w))) (drv w))
       (events w) (polls w)).
Proof.
  induction idx as [|i idx IH]; intros w.
  - cbn. rewrite <- (world_eta w) at 1. f_equal. f_equal.
    symmetry. apply driver_eta.
  - cbn [forEach]. unfold bind at 1. cbn [setSegmentState modify].
    rewrite IH. reflexivity.
Qed.

Lemma setAllSegments_run b (w : World) :
  setAllSegments b w
  = (Done tt,
     mkWorld
       (set_nextState
          (fillAt (fun _ => stateOfBool b) (segmentIndices (drv w))
             (m_nextState (drv w))) (drv w))
       (events w) (polls w)).
Proof. unfold setAllSegments. rewrite forSegments_run. apply setSegmentState_loop. Qed.

(** X3: [setAllSegmentsBleach] asks for the bleached state of every segment
    and of nothing else: the entries of [nextState] below
    [m_numberOfSegments] become [SEGMENT_STATE_BLEACH], whatever
    [setSegmentState] had stored there, the entries above keep their
    value, and no other member, no pin and no flag test is touched: the
    display changes only with the next [executeDisplay]. *)
Theorem setAllSegmentsBleach_requests_bleach_everywhere (w : World) :
  exists w' : World,
    setAllSegmentsBleach w = (Done tt, w')
    /\ events w' = events w /\ polls w' = polls w
    /\ set_nextState (m_nextState (drv w)) (drv w') = drv w
    /\ length (m_nextState (drv w')) = length (m_nextState (drv w))
    /\ (forall j : nat,
          (j < numSegments (drv w))%nat ->
          (j < length (m_nextState (drv w)))%nat ->
          m_nextState (drv w') !! j = Some SEGMENT_STATE_BLEACH)
    /\ (forall j : nat,
          (numSegments (drv w) <= j)%nat ->
          m_nextState (drv w') !! j = m_nextState (drv w) !! j).
Proof.
  unfold setAllSegmentsBleach. rewrite setAllSegments_run.
  eexists. split; [reflexivity|]. cbn [drv events polls].
  split; [reflexivity|]. split; [reflexivity|].
  split; [destruct (drv w); reflexivity|].
  cbn [set_nextState m_nextState].
  split; [apply length_fillAt|]. split.
  - intros j Hj Hl. apply (fillAt_lookup_in (fun _ => SEGMENT_STATE_BLEACH));
      [|exact Hl].
    apply elem_of_seq. unfold numSegments in Hj. lia.
  - intros j Hj. apply fillAt_lookup_out.
    intros Hin. apply elem_of_seq in Hin. unfold numSegments in Hj. lia.
Qed.

Lemma constructSegment_loop t_segments idx : forall (w : World),
  (forall i, i ∈ idx -> (i < length (m_segmentPinsList (drv w)))%nat) ->
  forEach idx (constructSegment t_segments) tt w
  = (Done tt,
     mkWorld (constructedSegments t_segments idx (drv w))
       (rev (map (fun i => EvPinMode (t_segments !!! i) INPUT) idx)
        ++ events w)
       (polls w)).
Proof.
  induction idx as [|i idx IH]; intros w Hl.
  - destruct w as [d ev p]. destruct d. reflexivity.
  - cbn [forEach]. unfold bind at 1.
    cbn [constructSegment modify bind get pinMode emit drv events polls
         set_segmentPinsList set_currentState set_nextState
         m_segmentPinsList].
    rewrite list_lookup_total_insert_eq by (apply Hl; left).
    rewrite IH.
    + cbn [map rev]. rewrite <- app_assoc. reflexivity.
    + intros j Hj. cbn. rewrite length_insert. apply Hl. right. exact Hj.
Qed.

(** X1: The constructor on storage with room for the segments: it records
    the counter-electrode pin and the segment count, copies the first
    [t_numberOfSegments] pins, marks both states of each of these segments
    undefined, sets the counter-electrode pin as an output, the two
    resolutions and every segment pin as an input, in this order, and
    assigns no other member: supply voltage, configuration, limits,
    refresh flags and stop flag are as the storage had them.  The display
    it leaves is settled, so that an [executeDisplay] before any
    [setSegmentState] has no segment to drive. *)
Theorem constructor_initialises_segments (PIN_CE ADC_DAC_RESOLUTION : Z)
  (t_numberOfSegments : Z) (t_segments : list Z) (w : World) :
  let n := Z.to_nat t_numberOfSegments in
  (n <= length t_segments)%nat ->
  (n <= length (m_segmentPinsList (drv w)))%nat ->
  (n <= length (m_currentState (drv w)))%nat ->
  (n <= length (m_nextState (drv w)))%nat ->
  exists w' : World,
    YNV_ECD PIN_CE ADC_DAC_RESOLUTION t_numberOfSegments t_segments w
    = (Done tt, w')
    /\ trace w'
       = trace w
         ++ constructorEvents PIN_CE ADC_DAC_RESOLUTION t_numberOfSegments
              t_segments
    /\ polls w' = polls w
    /\ m_counterElectrodePin (drv w') = PIN_CE
    /\ m_numberOfSegments (drv w') = t_numberOfSegments
    /\ (forall i : nat, (i < n)%nat ->
          m_segmentPinsList (drv w') !! i = t_segments !! i
          /\ m_currentState (drv w') !! i = Some SEGMENT_STATE_UNDEFINED
          /\ m_nextState (drv w') !! i = Some SEGMENT_STATE_UNDEFINED)
    /\ (forall i : nat, (n <= i)%nat ->
          m_segmentPinsList (drv w') !! i = m_segmentPinsList (drv w) !! i
          /\ m_currentState (drv w') !! i = m_currentState (drv w) !! i
          /\ m_nextState (drv w') !! i = m_nextState (drv w) !! i)
    /\ unassigned (drv w') = unassigned (drv w)
    /\ settled (drv w')
    /\ plan SEGMENT_STATE_BLEACH (drv w') = []
    /\ plan SEGMENT_STATE_COLOR (drv w') = [].
Proof.
  intros n Hs Hp Hc Hn.
  unfold YNV_ECD, pinMode.
  unfold bind at 1. cbn [modify].
  rewrite bind_get. unfold bind at 1. cbn [emit drv events polls].
  unfold bind at 1. cbn [modify drv events polls].
  unfold bind at 1. cbn [emit drv events polls].
  unfold bind at 1. cbn [emit drv events polls].
  rewrite forSegments_run. unfold segmentIndices.
  cbn [drv set_numberOfSegments m_numberOfSegments].
  fold n.
  assert (Hin : forall i, i ∈ seq 0 n <-> (i < n)%nat).
  { intros i. rewrite elem_of_seq. lia. }
  rewrite constructSegment_loop.
  2:{ intros i Hi. apply Hin in Hi. cbn. lia. }
  eexists. split; [reflexivity|].
  cbn [drv events polls constructedSegments set_nextState set_currentState
       set_segmentPinsList set_numberOfSegments set_counterElectrodePin
       m_counterElectrodePin m_numberOfSegments m_segmentPinsList
       m_currentState m_nextState].
  assert (Hlook : forall i, (i < n)%nat ->
            fillAt (fun _ => SEGMENT_STATE_UNDEFINED) (seq 0 n)
              (m_currentState (drv w)) !! i = Some SEGMENT_STATE_UNDEFINED
            /\ fillAt (fun _ => SEGMENT_STATE_UNDEFINED) (seq 0 n)
                 (m_nextState (drv w)) !! i = Some SEGMENT_STATE_UNDEFINED).
  { intros i Hi. split;
      apply (fillAt_lookup_in (fun _ => SEGMENT_STATE_UNDEFINED));
      try (apply Hin; exact Hi); lia. }
  split.
  { unfold trace, constructorEvents. cbn [events]. fold n.
    rewrite rev_app_distr. cbn [rev app]. rewrite rev_involutive.
    rewrite <- !app_assoc. reflexivity. }
  split; [reflexivity|]. split; [reflexivity|]. split; [reflexivity|].
  split.
  { intros i Hi. split; [|apply Hlook, Hi].
    rewrite (fillAt_lookup_in (fun i => t_segments !!! i))
      by (try (apply Hin; exact Hi); lia).
    symmetry. apply list_lookup_lookup_total_lt. lia. }
  split.
  { intros i Hi.
    assert (Hout : i ∉ seq 0 n) by (rewrite Hin; lia).
    repeat split; apply fillAt_lookup_out; exact Hout. }
  split; [reflexivity|].
  assert (Hset : forall i, (i < n)%nat ->
            fillAt (fun _ => SEGMENT_STATE_UNDEFINED) (seq 0 n)
              (m_nextState (drv w)) !!! i
            = fillAt (fun _ => SEGMENT_STATE_UNDEFINED) (seq 0 n)
                (m_currentState (drv w)) !!! i).
  { intros i Hi. destruct (Hlook i Hi) as (H1 & H2).
    rewrite (list_lookup_total_correct _ _ _ H1).
    rewrite (list_lookup_total_correct _ _ _ H2). reflexivity. }
  split.
  { intros i Hi. unfold numSegments in Hi. cbn in Hi. cbn.
    apply Hset. exact Hi. }
  split; apply filter_none; intros i Hi;
    unfold segmentIndices in Hi; cbn in Hi; apply Hin in Hi;
    unfold pendingTo; cbn; rewrite (Hset i Hi);
    rewrite bool_decide_eq_false_2 by (intros H; apply H; reflexivity);
    reflexivity.
Qed.

(** *** The stop flag *)

Section Stopped.

Variable ADC_DAC_MAX_LSB : Z.
Variable MAX_REFRESH_RETRIES : Z.
Variable env : Env.

(** A test of the flag when it is already set: the method returns, and
    the driver is as it was. *)
Lemma stopCheck_set (w : World) :
  m_stopDrivingFlag (drv w) = true ->
  stopCheck env w
  = (Returned StopRequested, mkWorld (drv w) (events w) (S (polls w))).
Proof.
  destruct w as [d ev p]. destruct d. cbn. intros ->.
  unfold stopCheck. cbn. destruct (irq env p); reflexivity.
Qed.

Lemma refreshDisplay_set fuel (w : World) :
  m_stopDrivingFlag (drv w) = true ->
  refreshDisplay ADC_DAC_MAX_LSB MAX_REFRESH_RETRIES env fuel w
  = (Returned StopRequested, mkWorld (drv w) (events w) (S (polls w))).
Proof.
  intros H. unfold refreshDisplay. apply bind_Returned, stopCheck_set, H.
Qed.

Lemma executeDisplay_set fuel (w : World) :
  m_stopDrivingFlag (drv w) = true ->
  (0 < numSegments (drv w))%nat ->
  executeDisplay ADC_DAC_MAX_LSB MAX_REFRESH_RETRIES env fuel w
  = (Returned StopRequested,
     mkWorld (drv w)
       (rev (counterElectrodeEvents ADC_DAC_MAX_LSB (drv w)
               (bleachingVoltage (m_cfg (drv w)))) ++ events w)
       (S (polls w))).
Proof.
  intros Hf Hn. unfold executeDisplay. apply bind_Returned.
  unfold driveDisplay. rewrite bind_get. apply bind_Returned.
  unfold drivePhase.
  rewrite (bind_Done _ _ _ _ _ (enableCounterElectrode_run _ _ w)).
  apply bind_Returned. rewrite forSegments_run. cbn [drv].
  unfold segmentIndices. unfold numSegments in Hn.
  destruct (Z.to_nat (m_numberOfSegments (drv w))) as [|k]; [lia|].
  cbn [seq forEach]. apply bind_Returned.
  unfold driveSegment. apply bind_Returned.
  rewrite stopCheck_set by exact Hf. reflexivity.
Qed.

(** X11: While the stop flag is set, the driving methods do nothing to the
    display.  [refreshDisplay] returns at its first test without an
    event.  [executeDisplay], on a display with at least one segment,
    returns at the first test of its bleach loop: it has written the
    bleaching level to the counter electrode and waited 50 ms, and it
    leaves the counter electrode at that level; no segment pin is touched
    and no member changes.  [begin] does this twice and only overwrites
    [nextState]: the display is not initialised. *)
Theorem stop_flag_set_on_entry fuel (w : World) :
  m_stopDrivingFlag (drv w) = true ->
  (0 < numSegments (drv w))%nat ->
  let d := drv w in
  let ce := counterElectrodeEvents ADC_DAC_MAX_LSB d
              (bleachingVoltage (m_cfg d)) in
  refreshDisplay ADC_DAC_MAX_LSB MAX_REFRESH_RETRIES env fuel w
  = (Returned StopRequested, mkWorld d (events w) (S (polls w)))
  /\ executeDisplay ADC_DAC_MAX_LSB MAX_REFRESH_RETRIES env fuel w
     = (Returned StopRequested,
        mkWorld d (rev ce ++ events w) (S (polls w)))
  /\ lastAnalogWrite (m_counterElectrodePin d) (rev ce ++ events w)
     = Some (truncQ (inject_Z ADC_DAC_MAX_LSB
                     * (bleachingVoltage (m_cfg d) / m_supplyVoltage d))%Q)
  /\ exists w' : World,
       begin ADC_DAC_MAX_LSB MAX_REFRESH_RETRIES env fuel w = (Done tt, w')
       /\ trace w' = trace w ++ ce ++ ce
       /\ m_currentState (drv w') = m_currentState d
       /\ m_stopDrivingFlag (drv w') = true
       /\ set_nextState (m_nextState d) (drv w') = d
       /\ forall i : nat,
            (i < numSegments d)%nat -> (i < length (m_nextState d))%nat ->
            m_nextState (drv w') !! i = Some SEGMENT_STATE_BLEACH.
Proof.
  intros Hf Hn d ce.
  split; [apply refreshDisplay_set, Hf|].
  split; [apply executeDisplay_set; assumption|].
  split.
  { subst ce. cbn. rewrite Z.eqb_refl. reflexivity. }
  unfold begin.
  rewrite (bind_Done _ _ _ _ _ (setAllSegments_run true w)).
  set (w1 := mkWorld _ (events w) (polls w)).
  assert (E1 : call (executeDisplay ADC_DAC_MAX_LSB MAX_REFRESH_RETRIES env
                       fuel) w1
               = (Done tt, mkWorld (drv w1) (rev ce ++ events w)
                             (S (polls w)))).
  { unfold call. rewrite executeDisplay_set; [reflexivity | exact Hf | exact Hn]. }
  rewrite (bind_Done _ _ _ _ _ E1).
  set (w2 := mkWorld (drv w1) _ _).
  rewrite (bind_Done _ _ _ _ _ (setAllSegments_run false w2)).
  set (w3 := mkWorld _ (events w2) (polls w2)).
  unfold call. rewrite executeDisplay_set; [| exact Hf | exact Hn].
  eexists. split; [reflexivity|].
  split.
  { unfold trace. cbn [events]. subst w3 w2 w1. cbn [events drv].
    change (counterElectrodeEvents ADC_DAC_MAX_LSB _
              (bleachingVoltage (m_cfg _))) with ce.
    rewrite !rev_app_distr, !rev_involutive, <- app_assoc. reflexivity. }
  split; [reflexivity|]. split; [exact Hf|].
  split; [subst d; destruct (drv w); reflexivity|].
  intros i Hi Hl. cbn.
  apply (fillAt_lookup_in (fun _ => SEGMENT_STATE_BLEACH)).
  - unfold segmentIndices. cbn [set_nextState m_numberOfSegments].
    apply elem_of_seq. unfold numSegments in Hi. subst d. lia.
  - rewrite length_fillAt. exact Hl.
Qed.

End Stopped.

(** *** What [executeDisplay] leaves alone, and how calls compose *)

Section Composition.

Variable ADC_DAC_MAX_LSB : Z.
Variable MAX_REFRESH_RETRIES : Z.

(** However a call of [executeDisplay] ends, the states are at a cut of
    its two loops. *)
Lemma executeDisplay_cut env fuel (w w' : World) o :
  wellFormed (drv w) ->
  executeDisplay ADC_DAC_MAX_LSB MAX_REFRESH_RETRIES env fuel w = (o, w') ->
  exists kb kc : nat,
    forall i : nat, (i < numSegments (drv w))%nat ->
      m_currentState (drv w') !!! i = stateAfterCut (drv w) kb kc i.
Proof.
  intros Hwf H.
  destruct (executeDisplay_split _ _ _ _ _ _ _ H)
    as [(wd & Hd & Hc & _) | (Hd & _)].
  - destruct (driveDisplay_run ADC_DAC_MAX_LSB env w)
      as [(p' & E & _) | (kb & kc & new & rest & w1 & E & _)];
      rewrite E in Hd; inversion Hd; subst wd; clear Hd.
    exists (numSegments (drv w)), (numSegments (drv w)). intros i Hi.
    rewrite Hc. cbn [drv]. rewrite afterDrive_cut.
    apply cut_lookup; assumption.
  - destruct (driveDisplay_run ADC_DAC_MAX_LSB env w)
      as [(p' & E & _)
         | (kb & kc & new & rest & w1 & E & _ & _ & _ & Hdrv & _)];
      rewrite E in Hd; inversion Hd; subst w1; clear Hd.
    exists kb, kc. intros i Hi. rewrite Hdrv.
    cbn [m_currentState set_stopDrivingFlag].
    apply cut_lookup; assumption.
Qed.

(** X5: [executeDisplay] never changes the state of a segment that has
    nothing to reach: when [nextState] equals [currentState] or is
    undefined, [currentState] is the same after the call, whether the call
    ran to its end or was stopped, and whatever the refresh did. *)
Theorem executeDisplay_leaves_unrequested_segments env fuel (w w' : World) o
  (i : nat) :
  wellFormed (drv w) ->
  executeDisplay ADC_DAC_MAX_LSB MAX_REFRESH_RETRIES env fuel w = (o, w') ->
  (i < numSegments (drv w))%nat ->
  m_nextState (drv w) !!! i = m_currentState (drv w) !!! i
  \/ m_nextState (drv w) !!! i = SEGMENT_STATE_UNDEFINED ->
  m_currentState (drv w') !!! i = m_currentState (drv w) !!! i.
Proof.
  intros Hwf H Hi Hreq.
  destruct (executeDisplay_cut env fuel w w' o Hwf H) as (kb & kc & Hcut).
  rewrite (Hcut i Hi). unfold stateAfterCut.
  assert (Hp : forall target, target <> SEGMENT_STATE_UNDEFINED ->
                 pendingTo target (drv w) i = false).
  { intros target Ht. unfold pendingTo. destruct Hreq as [E|E].
    - rewrite bool_decide_eq_false_2 by (intros Hne; apply Hne, E).
      reflexivity.
    - rewrite (bool_decide_eq_false_2 (_ = target)) by congruence.
      apply andb_false_r. }
  rewrite !Hp by discriminate. rewrite !andb_false_r. reflexivity.
Qed.

Lemma distinctPins_executeFrame env (w w' : World) :
  executeFrame env w w' -> distinctPins (drv w) -> distinctPins (drv w').
Proof.
  intros (A & _) H i j Hi Hj. apply coreExecute_fields in A.
  destruct A as (_ & Ap & An & _).
  unfold distinctPins, numSegments, pinOf in *. rewrite <- Ap.
  rewrite <- An in Hi, Hj. apply H; assumption.
Qed.

Lemma wellFormed_set_nextState d l :
  length l = length (m_nextState d) ->
  wellFormed d -> wellFormed (set_nextState l d).
Proof.
  intros Hl (H1 & H2 & H3 & H4). unfold wellFormed, numSegments in *. cbn.
  rewrite Hl. auto.
Qed.

(** A run of [executeDisplay] without a stop request brings every segment
    to its requested state. *)
Lemma executeDisplay_quiet_reaches env fuel (w : World) :
  (forall k : nat, irq env k = false) ->
  wellFormed (drv w) ->
  distinctPins (drv w) ->
  m_stopDrivingFlag (drv w) = false ->
  (Z.to_nat MAX_REFRESH_RETRIES < fuel)%nat ->
  exists w' : World,
    executeDisplay ADC_DAC_MAX_LSB MAX_REFRESH_RETRIES env fuel w
    = (Done tt, w')
    /\ executeFrame env w w'
    /\ m_stopDrivingFlag (drv w') = false
    /\ forall i : nat, (i < numSegments (drv w))%nat ->
         m_nextState (drv w) !!! i <> SEGMENT_STATE_UNDEFINED ->
         m_currentState (drv w') !!! i = m_nextState (drv w) !!! i.
Proof.
  intros Hq Hwf Hdp Hf Hfuel.
  destruct (executeDisplay_completes ADC_DAC_MAX_LSB MAX_REFRESH_RETRIES env
              fuel w Hq Hwf Hdp Hf Hfuel) as (w' & E).
  exists w'. split; [exact E|].
  pose proof (executeDisplay_executeFrame ADC_DAC_MAX_LSB MAX_REFRESH_RETRIES
                env fuel w) as HF.
  rewrite E in HF. cbn in HF. split; [exact HF|].
  split.
  { destruct (executeDisplay_split _ _ _ _ _ _ _ E)
      as [(wd & _ & _ & _ & Hflag & _) | (_ & Ho)]; [|discriminate].
    apply Hflag. reflexivity. }
  intros i Hi Hu.
  destruct (executeDisplay_done_cut _ _ _ _ _ _ Hwf E)
    as (wd & _ & _ & _ & _ & Hcut).
  rewrite (Hcut i Hi). apply stateAfterCut_full; assumption.
Qed.

(** X2: [begin] on a display nobody asks to stop: it runs to its end and
    leaves every segment bleached, with [nextState] and [currentState]
    both [SEGMENT_STATE_BLEACH], whatever the states were before, the
    undefined state the constructor leaves included. *)
Theorem begin_bleaches_every_segment env fuel (w : World) :
  (forall k : nat, irq env k = false) ->
  wellFormed (drv w) ->
  distinctPins (drv w) ->
  m_stopDrivingFlag (drv w) = false ->
  (Z.to_nat MAX_REFRESH_RETRIES < fuel)%nat ->
  exists w' : World,
    begin ADC_DAC_MAX_LSB MAX_REFRESH_RETRIES env fuel w = (Done tt, w')
    /\ (forall i : nat, (i < numSegments (drv w))%nat ->
          m_currentState (drv w') !!! i = SEGMENT_STATE_BLEACH
          /\ m_nextState (drv w') !!! i = SEGMENT_STATE_BLEACH)
    /\ settled (drv w')
    /\ m_stopDrivingFlag (drv w') = false.
Proof.
  intros Hq Hwf Hdp Hf Hfuel. unfold begin.
  assert (Hfill : forall (b : bool) (d : Driver) (i : nat),
            wellFormed d -> (i < numSegments d)%nat ->
            fillAt (fun _ => stateOfBool b) (segmentIndices d)
              (m_nextState d) !!! i = stateOfBool b).
  { intros b d i (_ & _ & Hn & _) Hi. apply list_lookup_total_correct.
    apply (fillAt_lookup_in (fun _ => stateOfBool b)); [|lia].
    apply elem_of_seq. unfold numSegments in Hi. lia. }
  (* all segments colored *)
  rewrite (bind_Done _ _ _ _ _ (setAllSegments_run true w)).
  set (w1 := mkWorld _ (events w) (polls w)).
  assert (Hwf1 : wellFormed (drv w1))
    by (apply wellFormed_set_nextState; [apply length_fillAt | exact Hwf]).
  destruct (executeDisplay_quiet_reaches env fuel w1 Hq Hwf1 Hdp Hf Hfuel)
    as (w2 & E2 & HF2 & Hf2 & _).
  assert (Hc2 : call (executeDisplay ADC_DAC_MAX_LSB MAX_REFRESH_RETRIES env
                        fuel) w1 = (Done tt, w2))
    by (unfold call; rewrite E2; reflexivity).
  rewrite (bind_Done _ _ _ _ _ Hc2).
  pose proof (wellFormed_executeFrame env w1 w2 HF2 Hwf1) as Hwf2.
  pose proof (distinctPins_executeFrame env w1 w2 HF2 Hdp) as Hdp2.
  assert (Hn2 : numSegments (drv w2) = numSegments (drv w)).
  { destruct HF2 as (A & _). apply coreExecute_fields in A.
    destruct A as (_ & _ & An & _). unfold numSegments. rewrite <- An.
    reflexivity. }
  (* all segments bleached *)
  rewrite (bind_Done _ _ _ _ _ (setAllSegments_run false w2)).
  set (w3 := mkWorld _ (events w2) (polls w2)).
  assert (Hwf3 : wellFormed (drv w3))
    by (apply wellFormed_set_nextState; [apply length_fillAt | exact Hwf2]).
  destruct (executeDisplay_quiet_reaches env fuel w3 Hq Hwf3 Hdp2 Hf2 Hfuel)
    as (w4 & E4 & HF4 & Hf4 & Hreach).
  unfold call. rewrite E4. exists w4. split; [reflexivity|].
  assert (Hnext : m_nextState (drv w4) = m_nextState (drv w3)).
  { destruct HF4 as (A & _). apply coreExecute_fields in A.
    destruct A as (An & _). symmetry. exact An. }
  assert (Hn4 : numSegments (drv w4) = numSegments (drv w)).
  { destruct HF4 as (A & _). apply coreExecute_fields in A.
    destruct A as (_ & _ & An & _). unfold numSegments. rewrite <- An.
    exact Hn2. }
  assert (Hall : forall i : nat, (i < numSegments (drv w))%nat ->
            m_currentState (drv w4) !!! i = SEGMENT_STATE_BLEACH
            /\ m_nextState (drv w4) !!! i = SEGMENT_STATE_BLEACH).
  { intros i Hi. rewrite <- Hn2 in Hi.
    assert (E : m_nextState (drv w3) !!! i = SEGMENT_STATE_BLEACH)
      by (apply (Hfill false (drv w2) i Hwf2 Hi)).
    split; [|rewrite Hnext; exact E].
    rewrite (Hreach i Hi); [exact E | rewrite E; discriminate]. }
  split; [exact Hall|]. split; [|exact Hf4].
  intros i Hi. rewrite Hn4 in Hi. destruct (Hall i Hi) as (-> & ->).
  reflexivity.
Qed.

(** X12: A display that was stopped stays stopped until [clearStopDriving]
    is called, and then resumes: after a call of [executeDisplay] that
    returned on the stop flag, a further call returns on its first flag
    test, while [clearStopDriving] followed by [executeDisplay], with no
    new request, runs to its end and brings every segment to the state
    that was asked for before the stop. *)
Theorem clearStopDriving_resumes env env' fuel fuel' (w w1 : World) :
  wellFormed (drv w) ->
  distinctPins (drv w) ->
  executeDisplay ADC_DAC_MAX_LSB MAX_REFRESH_RETRIES env fuel w
  = (Returned StopRequested, w1) ->
  (forall k : nat, irq env' k = false) ->
  (Z.to_nat MAX_REFRESH_RETRIES < fuel')%nat ->
  m_stopDrivingFlag (drv w1) = true
  /\ ((0 < numSegments (drv w))%nat ->
      fst (executeDisplay ADC_DAC_MAX_LSB MAX_REFRESH_RETRIES env' fuel' w1)
      = Returned StopRequested
      /\ m_currentState
           (drv (snd (executeDisplay ADC_DAC_MAX_LSB MAX_REFRESH_RETRIES
                        env' fuel' w1)))
         = m_currentState (drv w1))
  /\ exists w2 w3 : World,
       clearStopDriving w1 = (Done tt, w2)
       /\ executeDisplay ADC_DAC_MAX_LSB MAX_REFRESH_RETRIES env' fuel' w2
          = (Done tt, w3)
       /\ forall i : nat, (i < numSegments (drv w))%nat ->
            m_nextState (drv w) !!! i <> SEGMENT_STATE_UNDEFINED ->
            m_currentState (drv w3) !!! i = m_nextState (drv w) !!! i.
Proof.
  intros Hwf Hdp E Hq Hfuel.
  pose proof (executeDisplay_executeFrame ADC_DAC_MAX_LSB MAX_REFRESH_RETRIES
                env fuel w) as HF.
  rewrite E in HF. cbn in HF.
  pose proof (wellFormed_executeFrame env w w1 HF Hwf) as Hwf1.
  pose proof (distinctPins_executeFrame env w w1 HF Hdp) as Hdp1.
  destruct HF as (A & _). apply coreExecute_fields in A.
  destruct A as (Anext & _ & An & _).
  assert (Hflag : m_stopDrivingFlag (drv w1) = true).
  { destruct (executeDisplay_split _ _ _ _ _ _ _ E)
      as [(wd & _ & _ & _ & _ & Hflag) | (Hd & _)].
    - apply Hflag. reflexivity.
    - destruct (driveDisplay_run ADC_DAC_MAX_LSB env w)
        as [(p' & E' & _)
           | (kb & kc & new & rest & w' & E' & _ & _ & _ & Hdrv & _)];
        rewrite E' in Hd; inversion Hd; subst w'.
      rewrite Hdrv. reflexivity. }
  split; [exact Hflag|]. split.
  { intros Hn.
    assert (Hn1 : (0 < numSegments (drv w1))%nat)
      by (unfold numSegments in *; rewrite <- An; exact Hn).
    rewrite (executeDisplay_set ADC_DAC_MAX_LSB MAX_REFRESH_RETRIES env'
               fuel' w1 Hflag Hn1).
    split; reflexivity. }
  set (w2 := mkWorld (set_stopDrivingFlag false (drv w1)) (events w1)
               (polls w1)).
  assert (Hwf2 : wellFormed (drv w2)) by exact Hwf1.
  assert (Hdp2 : distinctPins (drv w2)) by exact Hdp1.
  destruct (executeDisplay_quiet_reaches env' fuel' w2 Hq Hwf2 Hdp2 eq_refl
              Hfuel) as (w3 & E3 & _ & _ & Hreach).
  exists w2, w3. split; [reflexivity|]. split; [exact E3|].
  intros i Hi Hu.
  assert (Hi2 : (i < numSegments (drv w2))%nat)
    by (unfold numSegments in *; cbn; rewrite <- An; exact Hi).
  change (m_nextState (drv w2)) with (m_nextState (drv w1)) in Hreach.
  rewrite <- Anext in Hreach. apply Hreach; assumption.
Qed.

End Composition.

(** *** Values written to the counter electrode *)

Lemma truncQ_range (q : Q) (m : Z) :
  (0 <= q)%Q -> (q <= inject_Z m)%Q -> 0 <= truncQ q <= m.
Proof.
  destruct q as [n d]. unfold Qle, truncQ. cbn. intros H0 Hm.
  assert (Hn : 0 <= n) by lia.
  rewrite Z.quot_div_nonneg by lia. split.
  - apply Z.div_pos; lia.
  - apply Z.div_le_upper_bound; lia.
Qed.

Lemma dacValue_range (lsb : Z) (v sv : Q) :
  0 <= lsb -> (0 < sv)%Q -> (0 <= v)%Q -> (v <= sv)%Q ->
  0 <= truncQ (inject_Z lsb * (v / sv))%Q <= lsb.
Proof.
  intros Hl Hs H0 H1.
  assert (HL : (0 <= inject_Z lsb)%Q) by (rewrite <- (Zle_Qle 0); exact Hl).
  assert (Hr0 : (0 <= v / sv)%Q) by (apply Qle_shift_div_l; lra).
  assert (Hr1 : (v / sv <= 1)%Q) by (apply Qle_shift_div_r; lra).
  apply truncQ_range; nra.
Qed.

Lemma hoare_get_with (phi : Driver -> Prop) {B} (P : World -> Prop)
  (k : Driver -> M B) Qd Qx :
  (forall w, P w -> phi (drv w)) ->
  (forall d, phi d -> hoare P (k d) Qd Qx) ->
  hoare P (bind get k) Qd Qx.
Proof. intros Hp Hk w Hw. rewrite bind_get. apply Hk; auto. Qed.

Section WritesInRange.

Variable ADC_DAC_MAX_LSB : Z.
Variable MAX_REFRESH_RETRIES : Z.
Variable env : Env.
Variable w0 : World.

Hypothesis lsb_nonneg : 0 <= ADC_DAC_MAX_LSB.
Hypothesis volts : voltagesWithinSupply (drv w0).

Let inv : World -> Prop := inRangeSince ADC_DAC_MAX_LSB w0.
Let anyExit : option ReturnSite -> World -> Prop := fun _ => inv.

Lemma inRangeSince_refl : inv w0.
Proof.
  split; [reflexivity|]. split; [reflexivity|].
  exists []. split; [reflexivity | constructor].
Qed.

Lemma stopCheck_inRange : hoare inv (stopCheck env) (fun _ => inv) anyExit.
Proof. apply hoare_stopCheck; intros w H; intros; exact H. Qed.

Lemma emit_inRange e :
  dacInRange ADC_DAC_MAX_LSB e -> hoare inv (emit e) (fun _ => inv) anyExit.
Proof.
  intros He. apply hoare_emit. intros w (Hs & Hc & new & Hn & Hf).
  split; [exact Hs|]. split; [exact Hc|].
  exists (e :: new). cbn. rewrite Hn. split; [reflexivity|].
  constructor; assumption.
Qed.

Lemma analogRead_inRange pin :
  hoare inv (analogRead env pin) (fun _ => inv) anyExit.
Proof.
  apply hoare_analogRead. intros w (Hs & Hc & new & Hn & Hf).
  split; [exact Hs|]. split; [exact Hc|].
  eexists (_ :: new). cbn. rewrite Hn. split; [reflexivity|].
  constructor; [exact I | exact Hf].
Qed.

Lemma modify_inRange f :
  (forall d, m_supplyVoltage (f d) = m_supplyVoltage d) ->
  (forall d, m_cfg (f d) = m_cfg d) ->
  hoare inv (modify f) (fun _ => inv) anyExit.
Proof.
  intros H1 H2. apply hoare_modify. intros w (Hs & Hc & Hn).
  split; [cbn; rewrite H1; exact Hs|]. split; [cbn; rewrite H2; exact Hc|].
  exact Hn.
Qed.

Lemma enableCounterElectrode_inRange v :
  (0 <= v <= m_supplyVoltage (drv w0))%Q ->
  hoare inv (enableCounterElectrode ADC_DAC_MAX_LSB v) (fun _ => inv) anyExit.
Proof.
  intros (Hv0 & Hv1) w (Hs & Hc & new & Hn & Hf).
  rewrite enableCounterElectrode_run. cbn.
  split; [exact Hs|]. split; [exact Hc|].
  eexists (_ :: _ :: new). rewrite Hn. split; [reflexivity|].
  constructor; [exact I|]. constructor; [|exact Hf].
  cbn. rewrite Hs. apply dacValue_range; try assumption. apply volts.
Qed.

Lemma disableCounterElectrode_inRange :
  hoare inv disableCounterElectrode (fun _ => inv) anyExit.
Proof.
  unfold disableCounterElectrode, analogWrite.
  apply keeps_bind; [apply keeps_get | intros d].
  apply emit_inRange. cbn. lia.
Qed.

Hint Resolve stopCheck_inRange analogRead_inRange
  disableCounterElectrode_inRange : highz.

Ltac range_step :=
  lazymatch goal with
  | |- hoare _ (ret _) _ _ => apply keeps_ret
  | |- hoare _ get _ _ => apply keeps_get
  | |- hoare _ (forSegments _ _) _ _ => apply keeps_forSegments; intros ? ?
  | |- hoare _ (bind _ _) _ _ => apply keeps_bind; [| intros ?]
  | |- hoare _ (if ?b then _ else _) _ _ => destruct b
  | |- hoare _ (modify _) _ _ =>
      apply modify_inRange; intros ?; reflexivity
  | |- hoare _ (emit _) _ _ => apply emit_inRange; exact I
  | |- _ => solve [auto with highz]
  end.

Ltac range_steps := repeat range_step.

Lemma disableAllSegments_inRange :
  hoare inv disableAllSegments (fun _ => inv) anyExit.
Proof.
  unfold disableAllSegments, disableSegment, pinMode. range_steps.
Qed.

Hint Resolve disableAllSegments_inRange : highz.

Lemma pulseSegment_inRange phase level i u :
  hoare inv (pulseSegment env phase level i u) (fun _ => inv) anyExit.
Proof. unfold pulseSegment, pinMode, digitalWrite. range_steps. Qed.

Lemma classifySegment_inRange i needed :
  hoare inv (classifySegment env i needed) (fun _ => inv) anyExit.
Proof. unfold classifySegment, pinMode. range_steps. Qed.

Lemma resampleSegment_inRange phase oor r i b :
  hoare inv (resampleSegment MAX_REFRESH_RETRIES env phase oor r i b)
    (fun _ => inv) anyExit.
Proof. unfold resampleSegment, pinMode. range_steps. Qed.

Lemma driveSegment_inRange target i b :
  hoare inv (driveSegment env target i b) (fun _ => inv) anyExit.
Proof. unfold driveSegment, pinMode, digitalWrite. range_steps. Qed.

Hint Resolve pulseSegment_inRange classifySegment_inRange
  resampleSegment_inRange driveSegment_inRange : highz.

Lemma refreshBleachIteration_inRange r :
  hoare inv (refreshBleachIteration MAX_REFRESH_RETRIES env r)
    (fun _ => inv) anyExit.
Proof. unfold refreshBleachIteration, delay. range_steps. Qed.

Lemma refreshColorIteration_inRange lim r :
  hoare inv (refreshColorIteration MAX_REFRESH_RETRIES env lim r)
    (fun _ => inv) anyExit.
Proof. unfold refreshColorIteration, delay. range_steps. Qed.

Lemma whileNeeded_inRange fuel (iteration : Z -> M bool) needed r :
  (forall r, hoare inv (iteration r) (fun _ => inv) anyExit) ->
  hoare inv (whileNeeded fuel iteration needed r) (fun _ => inv) anyExit.
Proof.
  intros Hi.
  apply (hoare_whileNeeded (fun _ => inv) iteration anyExit);
    [exact Hi | intros w H; exact H].
Qed.

Lemma inv_suppliedAs (w : World) : inv w -> suppliedAs w0 (drv w).
Proof. intros (Hs & Hc & _). split; assumption. Qed.

Lemma refreshDisplay_inRange fuel :
  hoare inv (refreshDisplay ADC_DAC_MAX_LSB MAX_REFRESH_RETRIES env fuel)
    (fun _ => inv) anyExit.
Proof.
  destruct volts as (Hsv & _ & _ & (Hb0 & Hb1) & (Hc0 & Hc1)).
  unfold refreshDisplay.
  apply keeps_bind; [apply stopCheck_inRange | intros _].
  apply (hoare_get_with (suppliedAs w0)); [exact inv_suppliedAs|].
  intros d (Hs & Hc).
  apply keeps_bind.
  { apply enableCounterElectrode_inRange. rewrite Hs.
    split; [apply Qle_shift_div_l; lra | apply Qle_shift_div_r; lra]. }
  intros _. apply keeps_bind; [apply disableAllSegments_inRange | intros _].
  apply keeps_bind;
    [apply keeps_forSegments; intros ? ?; apply classifySegment_inRange
    | intros needed].
  apply keeps_bind; [apply stopCheck_inRange | intros _].
  destruct (negb (needed.2 || needed.1)).
  { apply hoare_returnFrom. intros w H. exact H. }
  apply (hoare_get_with (suppliedAs w0)); [exact inv_suppliedAs|].
  intros d1 (Hs1 & Hc1').
  apply keeps_bind.
  { apply enableCounterElectrode_inRange. rewrite Hc1'. split; assumption. }
  intros _. apply keeps_bind.
  { apply whileNeeded_inRange. apply refreshBleachIteration_inRange. }
  intros _. apply (hoare_get_with (suppliedAs w0)); [exact inv_suppliedAs|].
  intros d2 (Hs2 & Hc2).
  apply keeps_bind.
  { apply enableCounterElectrode_inRange. rewrite Hs2, Hc2. split; lra. }
  intros _. apply keeps_bind.
  { apply whileNeeded_inRange. intros r.
    apply refreshColorIteration_inRange. }
  intros _. apply disableCounterElectrode_inRange.
Qed.

Lemma drivePhase_inRange target v ms :
  (0 <= v <= m_supplyVoltage (drv w0))%Q ->
  hoare inv (drivePhase ADC_DAC_MAX_LSB env target v ms)
    (fun _ => inv) anyExit.
Proof.
  intros Hv. unfold drivePhase, holdIfRequired, delay.
  apply keeps_bind; [apply enableCounterElectrode_inRange, Hv | intros _].
  range_steps.
Qed.

Lemma executeDisplay_inRange fuel :
  hoare inv (executeDisplay ADC_DAC_MAX_LSB MAX_REFRESH_RETRIES env fuel)
    (fun _ => inv) anyExit.
Proof.
  destruct volts as (Hsv & (Hb0 & Hb1) & (Hc0 & Hc1) & _).
  unfold executeDisplay, driveDisplay.
  apply keeps_bind.
  { apply (hoare_get_with (suppliedAs w0)); [exact inv_suppliedAs|].
    intros d (Hs & Hc).
    apply keeps_bind.
    { apply drivePhase_inRange. rewrite Hc. split; assumption. }
    intros _. apply (hoare_get_with (suppliedAs w0)); [exact inv_suppliedAs|].
    intros d1 (Hs1 & Hc1').
    apply keeps_bind.
    { apply drivePhase_inRange. rewrite Hs1, Hc1'. split; lra. }
    intros _. apply disableCounterElectrode_inRange. }
  intros _. apply keeps_bind; [|intros _; apply stopCheck_inRange].
  eapply hoare_call; [apply (refreshDisplay_inRange fuel) | | |];
    intros; assumption.
Qed.

Lemma begin_inRange fuel :
  hoare inv (begin ADC_DAC_MAX_LSB MAX_REFRESH_RETRIES env fuel)
    (fun _ => inv) anyExit.
Proof.
  assert (Hc : hoare inv
                 (call (executeDisplay ADC_DAC_MAX_LSB MAX_REFRESH_RETRIES
                          env fuel))
                 (fun _ => inv) anyExit).
  { eapply hoare_call; [apply (executeDisplay_inRange fuel) | | |];
      intros; assumption. }
  unfold begin, setAllSegments, setSegmentState. range_steps.
Qed.

Lemma post_anyExit {A} (P : World -> Prop) (r : Outcome A * World) :
  post (fun _ => P) (fun _ => P) r -> P (snd r).
Proof. destruct r as [[a|s|] w]; intros H; exact H. Qed.

End WritesInRange.

(** X13: The counter electrode is never written out of range: on a driver
    with a positive supply voltage whose four driving voltages lie between
    ground and the supply, every [analogWrite] of [refreshDisplay],
    [executeDisplay] and [begin] carries a value between 0 and
    [ADC_DAC_MAX_LSB], however the call ends, and the supply voltage and
    the configuration are left as they were. *)
Theorem counter_electrode_writes_in_range (ADC_DAC_MAX_LSB : Z)
  (MAX_REFRESH_RETRIES : Z) (env : Env) (fuel : nat) (w : World) :
  0 <= ADC_DAC_MAX_LSB ->
  voltagesWithinSupply (drv w) ->
  inRangeSince ADC_DAC_MAX_LSB w
    (snd (refreshDisplay ADC_DAC_MAX_LSB MAX_REFRESH_RETRIES env fuel w))
  /\ inRangeSince ADC_DAC_MAX_LSB w
       (snd (executeDisplay ADC_DAC_MAX_LSB MAX_REFRESH_RETRIES env fuel w))
  /\ inRangeSince ADC_DAC_MAX_LSB w
       (snd (begin ADC_DAC_MAX_LSB MAX_REFRESH_RETRIES env fuel w)).
Proof.
  intros Hl Hv.
  pose proof (inRangeSince_refl ADC_DAC_MAX_LSB w) as H0.
  split; [|split]; apply post_anyExit.
  - apply (refreshDisplay_inRange ADC_DAC_MAX_LSB MAX_REFRESH_RETRIES env w
             Hl Hv fuel w H0).
  - apply (executeDisplay_inRange ADC_DAC_MAX_LSB MAX_REFRESH_RETRIES env w
             Hl Hv fuel w H0).
  - apply (begin_inRange ADC_DAC_MAX_LSB MAX_REFRESH_RETRIES env w
             Hl Hv fuel w H0).
Qed.

(** *** One segment changed *)

Lemma filter_only {A} (f : A -> bool) (l : list A) (x : A) :
  NoDup l -> x ∈ l -> f x = true ->
  (forall y, y ∈ l -> f y = true -> y = x) ->
  List.filter f l = [x].
Proof.
  induction l as [|y l IH]; intros Hnd Hx Hfx Honly; [inversion Hx|].
  apply NoDup_cons in Hnd as (Hy & Hnd). cbn.
  apply elem_of_cons in Hx as [->|Hx].
  - rewrite Hfx. f_equal. apply filter_none. intros z Hz.
    destruct (f z) eqn:E; [|reflexivity].
    assert (z = y) by (apply Honly; [right; exact Hz | exact E]).
    subst z. contradiction.
  - destruct (f y) eqn:E.
    + assert (y = x) by (apply Honly; [left | exact E]). subst y.
      contradiction.
    + apply IH; try assumption.
      intros z Hz. apply Honly. right. exact Hz.
Qed.

Lemma requested_next_i d i t_state :
  wellFormed d -> (i < numSegments d)%nat ->
  m_nextState (withRequest d i t_state) !!! i = stateOfBool t_state.
Proof.
  intros (_ & _ & H & _) Hi. cbn. apply list_lookup_total_insert_eq. lia.
Qed.

Lemma requested_next_other d i t_state j :
  j <> i -> m_nextState (withRequest d i t_state) !!! j = m_nextState d !!! j.
Proof. intros H. cbn. apply list_lookup_total_insert_ne. congruence. Qed.

Lemma requested_pending d i t_state target j :
  wellFormed d -> settled d -> (i < numSegments d)%nat ->
  stateOfBool t_state <> m_currentState d !!! i ->
  (j < numSegments d)%nat ->
  pendingTo target (withRequest d i t_state) j
  = bool_decide (j = i) && bool_decide (stateOfBool t_state = target).
Proof.
  intros Hwf Hset Hi Hch Hj. unfold pendingTo.
  change (m_currentState (withRequest d i t_state)) with (m_currentState d).
  destruct (decide (j = i)) as [->|Hne].
  - rewrite requested_next_i by assumption.
    rewrite (bool_decide_eq_true_2 (i = i)) by reflexivity.
    rewrite bool_decide_eq_true_2 by exact Hch. reflexivity.
  - rewrite requested_next_other by exact Hne.
    rewrite (bool_decide_eq_false_2 (j = i)) by exact Hne.
    rewrite bool_decide_eq_false_2; [reflexivity|].
    intros H. apply H, Hset, Hj.
Qed.

Lemma listed_segment d i t_state j :
  j ∈ segmentIndices (withRequest d i t_state) <-> (j < numSegments d)%nat.
Proof.
  unfold segmentIndices. rewrite elem_of_seq. unfold numSegments. cbn. lia.
Qed.

Lemma requested_plan d i t_state target :
  wellFormed d -> settled d -> (i < numSegments d)%nat ->
  stateOfBool t_state <> m_currentState d !!! i ->
  plan target (withRequest d i t_state)
  = if bool_decide (stateOfBool t_state = target) then [i] else [].
Proof.
  intros Hwf Hset Hi Hch.
  unfold plan. destruct (bool_decide (stateOfBool t_state = target)) eqn:E.
  - apply filter_only.
    + apply segmentIndices_NoDup.
    + apply listed_segment, Hi.
    + rewrite requested_pending by assumption. rewrite E.
      rewrite bool_decide_eq_true_2 by reflexivity. reflexivity.
    + intros j Hj Hp. apply listed_segment in Hj.
      rewrite requested_pending in Hp by assumption.
      apply andb_true_iff in Hp as (Hp & _).
      apply bool_decide_eq_true_1 in Hp. exact Hp.
  - apply filter_none. intros j Hj. apply listed_segment in Hj.
    rewrite requested_pending by assumption.
    rewrite E. apply andb_false_r.
Qed.

Lemma requested_plan_color d i t_state :
  wellFormed d -> settled d -> (i < numSegments d)%nat ->
  stateOfBool t_state <> m_currentState d !!! i ->
  plan SEGMENT_STATE_COLOR (afterBleach (withRequest d i t_state))
  = if t_state then [i] else [].
Proof.
  intros Hwf Hset Hi Hch. destruct t_state.
  - (* nothing to bleach: the bleach phase leaves the driver as it is *)
    assert (E : afterBleach (withRequest d i true) = withRequest d i true).
    { unfold afterBleach. apply applyPhase_idle. intros j Hj.
      apply listed_segment in Hj.
      rewrite requested_pending by assumption.
      rewrite (bool_decide_eq_false_2 (stateOfBool true = _)) by discriminate.
      apply andb_false_r. }
    rewrite E, requested_plan by assumption. reflexivity.
  - set (d1 := withRequest d i false).
    unfold plan. apply filter_none. intros j Hj.
    assert (Hidx : segmentIndices (afterBleach d1) = segmentIndices d1)
      by (apply segmentIndices_coreDrive, afterBleach_coreDrive).
    rewrite Hidx in Hj. apply listed_segment in Hj.
    unfold pendingTo.
    assert (Hn : m_nextState (afterBleach d1) = m_nextState d1).
    { pose proof (afterBleach_coreDrive d1) as H.
      apply coreDrive_fields in H. destruct H as (H & _). exact H. }
    rewrite Hn. destruct (decide (j = i)) as [->|Hne].
    + subst d1. rewrite requested_next_i by assumption.
      rewrite (bool_decide_eq_false_2 (stateOfBool false = _))
        by discriminate.
      apply andb_false_r.
    + subst d1. rewrite requested_next_other by exact Hne.
      unfold afterBleach. rewrite applyPhase_lookup.
      2:{ destruct Hwf as (_ & H & _). cbn. lia. }
      rewrite requested_pending by assumption.
      rewrite (bool_decide_eq_false_2 (j = i)) by exact Hne.
      rewrite andb_false_r.
      change (m_currentState (withRequest d i false))
        with (m_currentState d).
      rewrite bool_decide_eq_false_2; [reflexivity|].
      intros H. apply H, Hset, Hj.
Qed.

Lemma requested_driveTrace ADC_DAC_MAX_LSB d i t_state :
  wellFormed d -> settled d -> (i < numSegments d)%nat ->
  stateOfBool t_state <> m_currentState d !!! i ->
  driveTrace ADC_DAC_MAX_LSB (withRequest d i t_state)
  = singleTransitionTrace ADC_DAC_MAX_LSB d i t_state.
Proof.
  intros Hwf Hset Hi Hch.
  set (d1 := withRequest d i t_state).
  unfold driveTrace, phaseTrace, singleTransitionTrace.
  subst d1. rewrite requested_plan, requested_plan_color by assumption.
  set (d1 := withRequest d i t_state).
  assert (Hcore : coreDrive (afterBleach d1) = coreDrive d1)
    by apply afterBleach_coreDrive.
  rewrite (floatEvents_coreDrive _ _ Hcore).
  assert (Hce : forall v,
            counterElectrodeEvents ADC_DAC_MAX_LSB (afterBleach d1) v
            = counterElectrodeEvents ADC_DAC_MAX_LSB d v).
  { intros v. pose proof Hcore as Hf. apply coreDrive_fields in Hf.
    destruct Hf as (_ & _ & _ & Hc & Hs & _).
    unfold counterElectrodeEvents. rewrite Hc, Hs. reflexivity. }
  rewrite Hce.
  assert (Htr : transitionEvents (afterBleach d1) i = transitionEvents d1 i).
  { pose proof Hcore as Hf. apply coreDrive_fields in Hf.
    destruct Hf as (Hn & Hp & _).
    unfold transitionEvents, pinOf. rewrite Hn, Hp. reflexivity. }
  assert (Ht : transitionEvents d1 i
               = [EvPinMode (pinOf d i) OUTPUT;
                  EvDigitalWrite (pinOf d i) t_state]).
  { unfold transitionEvents. subst d1.
    rewrite requested_next_i by assumption.
    destruct t_state; reflexivity. }
  change (floatEvents d1) with (floatEvents d).
  change (counterElectrodeEvents ADC_DAC_MAX_LSB d1) with
    (counterElectrodeEvents ADC_DAC_MAX_LSB d).
  change (m_cfg d1) with (m_cfg d).
  change (m_supplyVoltage d1) with (m_supplyVoltage d).
  change (m_counterElectrodePin d1) with (m_counterElectrodePin d).
  clearbody d1.
  destruct t_state; cbn [flat_map holdEvents app];
    rewrite ?bool_decide_eq_true_2 by reflexivity;
    rewrite ?bool_decide_eq_false_2 by discriminate;
    cbn [flat_map holdEvents app]; rewrite ?Htr, ?Ht; reflexivity.
Qed.

(** X4: Changing one segment drives one pin: on a settled display,
    [setSegmentState(i, state)] with a state other than the current one,
    followed by an [executeDisplay] that runs to its end, gives segment
    [i] the new state and leaves every other segment's state; the drive
    part sets the counter electrode for each phase, drives pin [i] alone,
    at the level of the new state and in the phase of that state, holds
    for that phase's time only, and floats all pins after each phase. *)
Theorem one_changed_segment_drives_one_pin (ADC_DAC_MAX_LSB : Z)
  (MAX_REFRESH_RETRIES : Z) (env : Env) (fuel : nat) (w w' : World)
  (i : nat) (t_state : bool) :
  wellFormed (drv w) ->
  settled (drv w) ->
  (i < numSegments (drv w))%nat ->
  stateOfBool t_state <> m_currentState (drv w) !!! i ->
  executeDisplay ADC_DAC_MAX_LSB MAX_REFRESH_RETRIES env fuel
    (snd (setSegmentState i t_state w)) = (Done tt, w') ->
  (forall j : nat, (j < numSegments (drv w))%nat ->
     m_currentState (drv w') !!! j
     = if bool_decide (j = i) then stateOfBool t_state
       else m_currentState (drv w) !!! j)
  /\ exists wd : World,
       driveDisplay ADC_DAC_MAX_LSB env (snd (setSegmentState i t_state w))
       = (Done tt, wd)
       /\ trace wd
          = trace w
            ++ singleTransitionTrace ADC_DAC_MAX_LSB (drv w) i t_state
       /\ events wd `suffix_of` events w'.
Proof.
  intros Hwf Hset Hi Hch E.
  set (w1 := snd (setSegmentState i t_state w)) in *.
  assert (Hwf1 : wellFormed (drv w1)).
  { apply wellFormed_set_nextState; [apply length_insert | exact Hwf]. }
  destruct (executeDisplay_done_cut _ _ _ _ _ _ Hwf1 E)
    as (wd & Ed & Hev & _ & Hsuf & Hcut).
  split.
  - intros j Hj. rewrite (Hcut j Hj). unfold stateAfterCut.
    change (numSegments (drv w1)) with (numSegments (drv w)).
    assert (Hlt : (j <? numSegments (drv w))%nat = true)
      by (apply Nat.ltb_lt; exact Hj).
    rewrite Hlt. cbn [andb].
    change (drv w1) with (withRequest (drv w) i t_state).
    rewrite !(requested_pending (drv w) i t_state _ j Hwf Hset Hi Hch Hj).
    change (m_currentState (drv w1)) with (m_currentState (drv w)).
    destruct (bool_decide (j = i)); [|reflexivity]. cbn [andb].
    destruct t_state; reflexivity.
  - exists wd. split; [exact Ed|]. split; [|exact Hsuf].
    rewrite (trace_app w1 wd _ Hev).
    change (drv w1) with (withRequest (drv w) i t_state).
    rewrite (requested_driveTrace ADC_DAC_MAX_LSB (drv w) i t_state
               Hwf Hset Hi Hch).
    reflexivity.
Qed.

(** *** Private helpers and the refresh check *)

(** X14: [disableAllSegments] sets every segment pin as an input, in segment
    order, and does nothing else: no member changes, the stop flag is not
    tested, and afterwards every segment pin is in high impedance, as is
    every other pin that was. *)
Theorem disableAllSegments_floats_every_segment (w : World) :
  exists w' : World,
    disableAllSegments w = (Done tt, w')
    /\ drv w' = drv w
    /\ polls w' = polls w
    /\ trace w' = trace w ++ floatEvents (drv w)
    /\ (forall i : nat, (i < numSegments (drv w))%nat ->
          highZ (pinOf (drv w) i) (events w') = true)
    /\ (forall p : Z, highZ p (events w) = true ->
          highZ p (events w') = true).
Proof.
  rewrite disableAllSegments_run. eexists. split; [reflexivity|]. cbn.
  split; [reflexivity|]. split; [reflexivity|]. split.
  { unfold trace. cbn. rewrite rev_app_distr, rev_involutive. reflexivity. }
  split.
  - intros i Hi.
    apply (highZ_floatEvents _ _ (pinOf (drv w) i + 1)); [lia|].
    left. exists i. split; [|reflexivity].
    apply elem_of_seq. unfold numSegments in Hi. lia.
  - intros p Hp. apply (highZ_floatEvents _ _ (p + 1)); [lia|].
    right. exact Hp.
Qed.

(** X8: [refreshDisplay] writes no member but the refresh flags, which it
    only sets, and the stop flag, which it never clears: whatever the
    samples, the requests and the way the call ends, the segment states,
    the requested states, the pins, the supply voltage, the configuration
    and the four limits are as before, and the events of before are still
    the beginning of the trace. *)
Theorem refreshDisplay_writes_only_flags (ADC_DAC_MAX_LSB : Z)
  (MAX_REFRESH_RETRIES : Z) (env : Env) (fuel : nat) (w : World) :
  let w' := snd (refreshDisplay ADC_DAC_MAX_LSB MAX_REFRESH_RETRIES env
                   fuel w) in
  m_currentState (drv w') = m_currentState (drv w)
  /\ m_nextState (drv w') = m_nextState (drv w)
  /\ wiring (drv w') = wiring (drv w)
  /\ m_supplyVoltage (drv w') = m_supplyVoltage (drv w)
  /\ m_cfg (drv w') = m_cfg (drv w)
  /\ (m_refreshColorLimitH (drv w'), m_refreshColorLimitL (drv w'),
      m_refreshBleachLimitH (drv w'), m_refreshBleachLimitL (drv w'))
     = (m_refreshColorLimitH (drv w), m_refreshColorLimitL (drv w),
        m_refreshBleachLimitH (drv w), m_refreshBleachLimitL (drv w))
  /\ length (m_refreshSegmentNeeded (drv w'))
     = length (m_refreshSegmentNeeded (drv w))
  /\ (forall i : nat,
        m_refreshSegmentNeeded (drv w) !! i = Some true ->
        m_refreshSegmentNeeded (drv w') !! i = Some true)
  /\ (m_stopDrivingFlag (drv w) = true -> m_stopDrivingFlag (drv w') = true)
  /\ events w `suffix_of` events w'.
Proof.
  intros w'.
  destruct (refreshDisplay_refreshFrame ADC_DAC_MAX_LSB MAX_REFRESH_RETRIES
              env fuel w) as (Hcore & Hlen & Hkept & Hsuf & (_ & Hlatch)).
  fold w' in Hcore, Hlen, Hkept, Hsuf, Hlatch.
  apply core_fields in Hcore.
  destruct Hcore as (Hc & Hn & Hp & Hns & Hce & Hsv & Hcfg & Hlim).
  split; [congruence|]. split; [congruence|].
  split; [unfold wiring; congruence|].
  split; [congruence|]. split; [congruence|]. split; [congruence|].
  split; [exact Hlen|]. split; [exact Hkept|]. split; [|exact Hsuf].
  intros Hf. destruct (m_stopDrivingFlag (drv w')) eqn:E; [reflexivity|].
  destruct (Hlatch eq_refl) as (Hf' & _). congruence.
Qed.



(** *** A refresh that succeeds at the first pulse *)

Lemma hoare_forEach_in {S} (l : list nat) (body : nat -> S -> M S)
  (I : S -> World -> Prop) Qx :
  (forall i s, i ∈ l -> hoare (I s) (body i s) I Qx) ->
  forall s, hoare (I s) (forEach l body s) I Qx.
Proof.
  induction l as [|i l IH]; intros Hb s; cbn [forEach].
  - apply hoare_ret. auto.
  - eapply hoare_bind; [apply Hb; left|].
    apply IH. intros j s' Hj. apply Hb. right. exact Hj.
Qed.

Lemma runsTo_eq {A} (m : M A) (w w' : World) (a : A)
  (Q : A -> World -> Prop) :
  m w = (Done a, w') -> Q a w' -> runsTo m w Q.
Proof. intros E H. exists a, w'. split; assumption. Qed.

(** What a run that reaches its end gives, it gives with what holds of
    every run. *)
Lemma runsTo_hoare {A} (m : M A) (w : World) (P : World -> Prop)
  (Q Qd : A -> World -> Prop) Qx :
  runsTo m w Q -> hoare P m Qd Qx -> P w ->
  runsTo m w (fun a w' => Q a w' /\ Qd a w').
Proof.
  intros (a & w' & E & HQ) Hh Hw. exists a, w'. split; [exact E|].
  split; [exact HQ|]. specialize (Hh w Hw). rewrite E in Hh. exact Hh.
Qed.

Lemma runsTo_both {A} (m : M A) (w : World) (Q1 Q2 : A -> World -> Prop) :
  runsTo m w Q1 -> runsTo m w Q2 ->
  runsTo m w (fun a w' => Q1 a w' /\ Q2 a w').
Proof.
  intros (a & w' & E & H1) (a2 & w2 & E2 & H2). rewrite E in E2.
  inversion E2; subst a2 w2. exists a, w'. auto.
Qed.

Section Settles.

Variable ADC_DAC_MAX_LSB : Z.
Variable MAX_REFRESH_RETRIES : Z.
Variable env : Env.
Variable d : Driver.
Variable T : nat.

Let anyReturn : option ReturnSite -> World -> Prop := fun _ _ => True.

Lemma stopCheck_unchanged :
  hoare (unchangedAfter d T) (stopCheck env)
    (fun _ => unchangedAfter d T) anyReturn.
Proof.
  apply hoare_stopCheck; [|intros; exact I].
  intros w H _ _. exact H.
Qed.

Lemma emit_unchanged e :
  hoare (unchangedAfter d T) (emit e) (fun _ => unchangedAfter d T) anyReturn.
Proof.
  apply hoare_emit. intros w (Hd & HT). split; [exact Hd|]. cbn. lia.
Qed.

Hint Resolve stopCheck_unchanged emit_unchanged : highz.

Ltac unchanged_step :=
  lazymatch goal with
  | |- hoare _ (ret _) _ _ => apply keeps_ret
  | |- hoare _ get _ _ => apply keeps_get
  | |- hoare _ (forSegments _ _) _ _ => apply keeps_forSegments; intros ? ?
  | |- hoare _ (bind _ _) _ _ => apply keeps_bind; [| intros ?]
  | |- hoare _ (if ?b then _ else _) _ _ => destruct b
  | |- _ => solve [auto with highz]
  end.

Lemma pulseSegment_unchanged phase level i u :
  hoare (unchangedAfter d T) (pulseSegment env phase level i u)
    (fun _ => unchangedAfter d T) anyReturn.
Proof. unfold pulseSegment, pinMode, digitalWrite. repeat unchanged_step. Qed.

Lemma disableAllSegments_unchanged :
  hoare (unchangedAfter d T) disableAllSegments
    (fun _ => unchangedAfter d T) anyReturn.
Proof.
  unfold disableAllSegments, disableSegment, pinMode. repeat unchanged_step.
Qed.

Lemma resampleSegment_settles phase (oor : Z -> bool) r j b :
  (m_currentState d !!! j = phase ->
   forall t, (T <= t)%nat -> oor (adc env t (pinOf d j)) = false) ->
  hoare (fun w => b = false /\ unchangedAfter d T w)
    (resampleSegment MAX_REFRESH_RETRIES env phase oor r j b)
    (fun b' w => b' = false /\ unchangedAfter d T w) anyReturn.
Proof.
  intros Hin. unfold resampleSegment.
  eapply (hoare_bind _ _ _ (fun _ w => b = false /\ unchangedAfter d T w)).
  { apply hoare_stopCheck; [|intros; exact I]. intros w H _ _. exact H. }
  intros _.
  apply (hoare_get_with (fun d' => d' = d)); [intros w (_ & Hd & _); exact Hd|].
  intros d' ->.
  destruct (bool_decide (m_currentState d !!! j = phase)) eqn:Es;
    cbn [andb]; [|apply hoare_ret; auto].
  apply bool_decide_eq_true_1 in Es.
  destruct (r <? MAX_REFRESH_RETRIES); [|apply hoare_ret; auto].
  unfold pinMode.
  eapply (hoare_bind _ _ _ (fun _ w => b = false /\ unchangedAfter d T w)).
  { apply hoare_emit. intros w (Hb & Hd & HT).
    split; [exact Hb|]. split; [exact Hd|]. cbn. lia. }
  intros _.
  eapply (hoare_bind _ _ _
            (fun v w => oor v = false /\ b = false /\ unchangedAfter d T w)).
  { apply hoare_analogRead. intros w (Hb & Hd & HT).
    split; [apply (Hin Es); exact HT|].
    split; [exact Hb|]. split; [exact Hd|]. cbn. lia. }
  intros v w (Hv & Hb & HU). rewrite Hv. cbn. split; assumption.
Qed.

Lemma resampleLoop_settles phase (oor : Z -> bool) r :
  (forall j, (j < numSegments d)%nat -> m_currentState d !!! j = phase ->
   forall t, (T <= t)%nat -> oor (adc env t (pinOf d j)) = false) ->
  hoare (unchangedAfter d T)
    (forSegments (resampleSegment MAX_REFRESH_RETRIES env phase oor r) false)
    (fun b w => b = false /\ unchangedAfter d T w) anyReturn.
Proof.
  intros Hin w HU. rewrite forSegments_run.
  pose proof HU as (Hd & _). rewrite Hd.
  apply (hoare_forEach_in (segmentIndices d)
           (resampleSegment MAX_REFRESH_RETRIES env phase oor r)
           (fun b w => b = false /\ unchangedAfter d T w) anyReturn).
  - intros j b Hj. apply resampleSegment_settles. apply Hin.
    apply elem_of_seq in Hj. unfold numSegments. lia.
  - split; [reflexivity | exact HU].
Qed.

(** A pass of the bleach loop in which no bleached segment reads above
    its limit leaves the loop condition false and the driver as it was. *)
Lemma refreshBleachIteration_settles r :
  withinRetryLimitFrom env d T SEGMENT_STATE_BLEACH ->
  hoare (unchangedAfter d T)
    (refreshBleachIteration MAX_REFRESH_RETRIES env r)
    (fun b w => b = false /\ unchangedAfter d T w) anyReturn.
Proof.
  intros Hin. unfold refreshBleachIteration, delay.
  eapply hoare_bind; [apply stopCheck_unchanged | intros ?; cbv beta].
  eapply hoare_bind;
    [apply keeps_forSegments; intros ? ?; apply pulseSegment_unchanged
    | intros ?; cbv beta].
  apply (hoare_get_with (fun d' => d' = d)); [intros w (Hd & _); exact Hd|].
  intros d' ->.
  eapply hoare_bind; [apply emit_unchanged | intros ?; cbv beta].
  eapply hoare_bind; [apply disableAllSegments_unchanged | intros ?; cbv beta].
  eapply hoare_bind; [apply stopCheck_unchanged | intros ?; cbv beta].
  eapply hoare_bind; [apply resampleLoop_settles; exact Hin | intros b; cbv beta].
  eapply (hoare_bind _ _ _ (fun _ w => b = false /\ unchangedAfter d T w)).
  { apply hoare_emit. intros w (Hb & Hd & HT).
    split; [exact Hb|]. split; [exact Hd|]. cbn. lia. }
  intros _. apply hoare_ret. auto.
Qed.

Lemma refreshColorIteration_settles r :
  withinRetryLimitFrom env d T SEGMENT_STATE_COLOR ->
  hoare (unchangedAfter d T)
    (refreshColorIteration MAX_REFRESH_RETRIES env (m_refreshColorLimitH d) r)
    (fun b w => b = false /\ unchangedAfter d T w) anyReturn.
Proof.
  intros Hin. unfold refreshColorIteration, delay.
  eapply hoare_bind; [apply stopCheck_unchanged | intros ?; cbv beta].
  eapply hoare_bind;
    [apply keeps_forSegments; intros ? ?; apply pulseSegment_unchanged
    | intros ?; cbv beta].
  eapply hoare_bind; [apply keeps_get | intros ?; cbv beta].
  eapply hoare_bind; [apply emit_unchanged | intros ?; cbv beta].
  eapply hoare_bind; [apply stopCheck_unchanged | intros ?; cbv beta].
  eapply hoare_bind; [apply disableAllSegments_unchanged | intros ?; cbv beta].
  eapply hoare_bind; [apply resampleLoop_settles; exact Hin | intros b; cbv beta].
  eapply (hoare_bind _ _ _ (fun _ w => b = false /\ unchangedAfter d T w)).
  { apply hoare_emit. intros w (Hb & Hd & HT).
    split; [exact Hb|]. split; [exact Hd|]. cbn. lia. }
  intros _. apply hoare_ret. auto.
Qed.

End Settles.

Lemma withinRetryLimitFrom_quietSince env (w0 w : World) T phase :
  quietSince w0 w ->
  withinRetryLimitFrom env (drv w0) T phase ->
  withinRetryLimitFrom env (drv w) T phase.
Proof.
  intros Hq H j Hj Hs t Ht.
  destruct (quietSince_fields _ _ Hq)
    as (Hst & Hpin & _ & Hn & _ & _ & _ & _ & Hre).
  rewrite Hre, Hpin. apply H; [rewrite <- Hn; exact Hj | | exact Ht].
  unfold stateOf in Hst. rewrite <- Hst. exact Hs.
Qed.

Section OnePulse.

Variable ADC_DAC_MAX_LSB : Z.
Variable MAX_REFRESH_RETRIES : Z.
Variable env : Env.

Hypothesis no_request : forall k : nat, irq env k = false.

Ltac step_by lem :=
  apply runsTo_bind; eapply runsTo_weaken; [apply lem | cbv beta].

Lemma stopCheck_len (w : World) :
  m_stopDrivingFlag (drv w) = false ->
  runsTo (stopCheck env) w
    (fun _ w' => neutralStep w w'
                 /\ length (events w') = length (events w)).
Proof.
  intros Hf. apply runsTo_both.
  - apply (stopCheck_neutral env no_request). exact Hf.
  - apply (stopCheck_quiet env no_request); [exact Hf | reflexivity].
Qed.

Lemma enableCounterElectrode_len v (w : World) :
  runsTo (enableCounterElectrode ADC_DAC_MAX_LSB v) w
    (fun _ w' => neutralStep w w'
                 /\ length (events w') = (length (events w) + 2)%nat).
Proof.
  apply runsTo_both; [apply enableCounterElectrode_neutral|].
  eapply runsTo_eq; [apply enableCounterElectrode_run|]. cbn. lia.
Qed.

Lemma disableAllSegments_len (w : World) :
  runsTo disableAllSegments w
    (fun _ w' => neutralStep w w'
                 /\ length (events w')
                    = (length (events w) + numSegments (drv w))%nat).
Proof.
  apply runsTo_both; [apply disableAllSegments_neutral|].
  eapply runsTo_eq; [apply disableAllSegments_run|]. cbn.
  rewrite length_app, length_rev. unfold floatEvents.
  rewrite length_map, length_segmentIndices. lia.
Qed.

(** The classification of a segment whose samples are beyond its limit
    while the loop runs: it is flagged and its state's loop is started. *)
Lemma classifyPass_window (w : World) (i : nat) :
  wellFormed (drv w) ->
  m_stopDrivingFlag (drv w) = false ->
  (i < numSegments (drv w))%nat ->
  (forall t, (t < length (events w) + 2 * numSegments (drv w))%nat ->
     classifyOut (stateOf w i) (drv w) (adc env t (pinOf (drv w) i)) = true) ->
  runsTo (forSegments (classifySegment env) (false, false)) w
    (fun needed w' =>
       length (events w')
       = (length (events w) + 2 * numSegments (drv w))%nat
       /\ flagOf w' i = true
       /\ neededFor (stateOf w i) needed = true).
Proof.
  intros Hwf Hf Hi Hout. unfold forSegments. apply runsTo_bind, runsTo_get.
  eapply runsTo_weaken.
  - apply (runsTo_forEach _
      (fun pre needed w' =>
         quietSince w w'
         /\ length (events w') = (length (events w) + 2 * length pre)%nat
         /\ (i ∈ pre ->
             flagOf w' i = true /\ neededFor (stateOf w i) needed = true))
      (segmentIndices (drv w)) [] (false, false) w).
    + split; [apply quietSince_refl; exact Hf|]. split; [cbn; lia|].
      intros H. apply elem_of_nil in H. contradiction.
    + intros pre j needed w1 (post & Hsplit) (Hq & Hlen & Hin).
      cbn [app] in Hsplit.
      assert (Hpre : (length pre < numSegments (drv w))%nat).
      { pose proof (f_equal length Hsplit) as HL.
        rewrite length_segmentIndices, length_app in HL. cbn in HL. lia. }
      pose proof (quietSince_fields _ _ Hq)
        as (Hst & Hpin & _ & _ & _ & _ & _ & Hco & _).
      pose proof Hq as (Hf1 & _ & Hflen & _).
      eexists _, _.
      split; [apply (classifySegment_exact env no_request); exact Hf1|].
      cbn zeta. rewrite Hst, Hpin, Hco.
      set (v := adc env _ _).
      set (out := classifyOut (stateOf w j) (drv w) v).
      split; [|split].
      * apply (quietSince_step w w1); [exact Hq | |].
        -- destruct out; [right; eexists; reflexivity | left; reflexivity].
        -- do 2 apply suffix_cons_r. reflexivity.
      * cbn [events length]. rewrite Hlen, length_app. cbn. lia.
      * intros Hi'. apply elem_of_app in Hi' as [Hi'|Hi'].
        -- destruct (Hin Hi') as (A & B). split.
           ++ destruct out; [|exact A]. rewrite flagOf_mark.
              destruct (decide _); [reflexivity | exact A].
           ++ destruct (stateOf w i); cbn [neededFor fst snd] in *;
                [rewrite B; reflexivity | rewrite B; reflexivity
                | discriminate].
        -- apply list_elem_of_singleton in Hi'. subst j.
           assert (Ho : out = true).
           { unfold out, v. apply Hout. rewrite Hlen. lia. }
           rewrite Ho. split.
           ++ rewrite flagOf_mark.
              destruct (decide _) as [_|Hn]; [reflexivity|].
              exfalso. apply Hn. split; [reflexivity|].
              destruct Hwf as (_ & _ & _ & Hwf). lia.
           ++ unfold out in Ho.
              destruct (stateOf w i) eqn:Es; cbn [neededFor fst snd andb].
              ** rewrite bool_decide_eq_true_2 by reflexivity.
                 apply orb_true_r.
              ** rewrite bool_decide_eq_true_2 by reflexivity.
                 apply orb_true_r.
              ** cbn in Ho. discriminate.
  - intros needed w' (Hq & Hlen & Hin). cbv beta.
    rewrite app_nil_l, length_segmentIndices in Hlen.
    split; [exact Hlen|]. apply Hin. rewrite app_nil_l.
    apply elem_of_seq. unfold numSegments in Hi. lia.
Qed.

(** A retry loop whose first pass leaves the loop condition false makes
    that pass only. *)
Lemma retryLoop_one_pass phase oor (iteration : Z -> M bool) T (w : World)
  (i : nat) fuel needed :
  distinctPins (drv w) ->
  (i < numSegments (drv w))%nat ->
  (1 <= fuel)%nat ->
  m_stopDrivingFlag (drv w) = false ->
  unchangedAfter (drv w) T w ->
  runsTo (iteration 0) w
    (fun b w' =>
       iterationPost env MAX_REFRESH_RETRIES phase oor 0 w b w'
       /\ (b = false /\ unchangedAfter (drv w) T w')) ->
  runsTo (whileNeeded fuel iteration needed 0) w
    (fun _ w' =>
       quietSince w w'
       /\ unchangedAfter (drv w) T w'
       /\ pulsesOn (pinOf (drv w) i) w'
          = (pulsesOn (pinOf (drv w) i) w
             + (if needed && pulsed phase w i then 1 else 0))%nat
       /\ samplesOn (pinOf (drv w) i) w'
          = (samplesOn (pinOf (drv w) i) w
             + (if needed && (bool_decide (stateOf w i = phase)
                              && bool_decide (0 < MAX_REFRESH_RETRIES)%Z)
                then 1 else 0))%nat).
Proof.
  intros Hdp Hi Hfuel Hf HU Hit.
  destruct fuel as [|fuel]; [lia|].
  destruct needed; cbn [whileNeeded andb].
  - apply runsTo_bind. eapply runsTo_weaken; [exact Hit|].
    intros b w' ((Hq & Hp & Hs & _) & -> & HU'). cbv beta.
    assert (Hend : runsTo (ret tt) w'
              (fun _ w'' =>
                 quietSince w w''
                 /\ unchangedAfter (drv w) T w''
                 /\ pulsesOn (pinOf (drv w) i) w''
                    = (pulsesOn (pinOf (drv w) i) w
                       + (if pulsed phase w i then 1 else 0))%nat
                 /\ samplesOn (pinOf (drv w) i) w''
                    = (samplesOn (pinOf (drv w) i) w
                       + (if bool_decide (stateOf w i = phase)
                             && bool_decide (0 < MAX_REFRESH_RETRIES)%Z
                          then 1 else 0))%nat)).
    { apply runsTo_ret. split; [exact Hq|]. split; [exact HU'|]. split.
      - rewrite Hp, countIf_pin by assumption. reflexivity.
      - rewrite Hs.
        rewrite (countIf_ext _
                   (fun j => Z.eqb (pinOf (drv w) j) (pinOf (drv w) i)
                             && (bool_decide (stateOf w j = phase)
                                 && bool_decide (0 < MAX_REFRESH_RETRIES)%Z))).
        + rewrite countIf_pin by assumption. reflexivity.
        + intros j _. rewrite andb_assoc. reflexivity. }
    destruct fuel; exact Hend.
  - apply runsTo_ret. split; [apply quietSince_refl; exact Hf|].
    split; [exact HU|]. split; lia.
Qed.


(** X9: A refresh that succeeds at the first pulse.  With no stop request,
    when a segment reads beyond the limit of the refresh check while the
    check runs, and every segment reads within the limit of its retry loop
    from the end of the check on, [refreshDisplay] runs to its end after
    one pass of each retry loop it enters: the segment is driven exactly
    once, it is sampled once by the check and once more by the retry loop
    (not at all by the loop when [MAX_REFRESH_RETRIES] is not positive),
    and its refresh flag is left set.  The check ends when
    [2 + 3 * m_numberOfSegments] events have been added to the trace. *)
Theorem refreshDisplay_one_pulse_suffices fuel (w : World) (i : nat)
  (phase : SegState) :
  wellFormed (drv w) ->
  distinctPins (drv w) ->
  m_stopDrivingFlag (drv w) = false ->
  (1 <= fuel)%nat ->
  (i < numSegments (drv w))%nat ->
  stateOf w i = phase ->
  let d := drv w in
  let T := (length (events w) + 2 + 3 * numSegments d)%nat in
  (forall t, (t < T)%nat ->
     classifyOut phase d (adc env t (pinOf d i)) = true) ->
  withinRetryLimitFrom env d T SEGMENT_STATE_BLEACH ->
  withinRetryLimitFrom env d T SEGMENT_STATE_COLOR ->
  exists w' : World,
    refreshDisplay ADC_DAC_MAX_LSB MAX_REFRESH_RETRIES env fuel w
    = (Done tt, w')
    /\ pulsesOn (pinOf d i) w' = (pulsesOn (pinOf d i) w + 1)%nat
    /\ samplesOn (pinOf d i) w'
       = (samplesOn (pinOf d i) w + 1
          + (if bool_decide (0 < MAX_REFRESH_RETRIES)%Z then 1 else 0))%nat
    /\ flagOf w' i = true.
Proof.
  intros Hwf Hdp Hf Hfuel Hi Hst d T Hcls HB HC.
  cut (runsTo (refreshDisplay ADC_DAC_MAX_LSB MAX_REFRESH_RETRIES env fuel) w
         (fun _ w' =>
            pulsesOn (pinOf d i) w' = (pulsesOn (pinOf d i) w + 1)%nat
            /\ samplesOn (pinOf d i) w'
               = (samplesOn (pinOf d i) w + 1
                  + (if bool_decide (0 < MAX_REFRESH_RETRIES)%Z
                     then 1 else 0))%nat
            /\ flagOf w' i = true)).
  { intros ([] & w' & E & H). exists w'. split; [exact E | exact H]. }
  unfold refreshDisplay.
  step_by stopCheck_len; [exact Hf|]. intros [] w1 (N1 & L1).
  apply runsTo_bind, runsTo_get.
  step_by enableCounterElectrode_len. intros [] w2 (N2 & L2).
  step_by disableAllSegments_len. intros [] w3 (N3 & L3).
  assert (N03 : neutralStep w w3).
  { eapply neutralStep_trans; [exact N1|].
    eapply neutralStep_trans; eassumption. }
  pose proof (neutralStep_drv_views _ _ N03) as (S3 & F3 & P3 & Nn3).
  pose proof N03 as (D3 & Sf3 & Pu3 & Sa3).
  assert (Len3 : length (events w3)
                 = (length (events w) + 2 + numSegments d)%nat).
  { rewrite L3, L2, L1. destruct N2 as (D2 & _). destruct N1 as (D1 & _).
    rewrite D2, D1. reflexivity. }
  assert (Hwf3 : wellFormed (drv w3)) by (rewrite D3; exact Hwf).
  assert (Hf3 : m_stopDrivingFlag (drv w3) = false) by (rewrite D3; exact Hf).
  assert (Hi3 : (i < numSegments (drv w3))%nat) by (rewrite D3; exact Hi).
  apply runsTo_bind. eapply runsTo_weaken.
  { apply runsTo_both;
      [apply (classifyPass_quiet env no_request w3 Hwf3 Hf3)
      | apply (classifyPass_window w3 i Hwf3 Hf3 Hi3)].
    intros t Ht. rewrite S3, D3, Hst. apply Hcls.
    rewrite Len3, D3 in Ht. subst T. fold d in Ht. lia. }
  intros needed wc (Hpost & Lc & Fc & Nc). cbv beta.
  rewrite S3, Hst in Nc. rewrite Len3, D3 in Lc. fold d in Lc.
  pose proof Hpost as (Qc & Puc & _).
  destruct (classify_sample_count env w3 wc needed i
              ltac:(rewrite D3; exact Hdp) Hi3 Hpost) as (Sac & _).
  rewrite D3 in Sac. fold d in Sac. rewrite Sa3 in Sac.
  assert (Pc : pulsesOn (pinOf d i) wc = pulsesOn (pinOf d i) w)
    by (rewrite Puc; apply Pu3).
  step_by stopCheck_len; [apply Qc|]. intros [] wc1 (Nc1 & Lc1).
  assert (Hany : needed.2 || needed.1 = true).
  { destruct phase; cbn in Nc; [rewrite Nc; reflexivity
                               | rewrite Nc; apply orb_true_r
                               | discriminate]. }
  rewrite Hany. cbn [negb].
  apply runsTo_bind, runsTo_get.
  step_by enableCounterElectrode_len. intros [] w4 (N4 & L4).
  assert (Nc4 : neutralStep wc w4)
    by (eapply neutralStep_trans; eassumption).
  assert (Q4 : quietSince w3 w4) by (eapply quietSince_neutral; eassumption).
  (* views of a world reached from [w3] without a stop request *)
  assert (Hview : forall wx, quietSince w3 wx ->
            wellFormed (drv wx) /\ distinctPins (drv wx)
            /\ m_stopDrivingFlag (drv wx) = false
            /\ (i < numSegments (drv wx))%nat
            /\ pinOf (drv wx) i = pinOf d i
            /\ stateOf wx i = phase
            /\ withinRetryLimitFrom env (drv wx) T SEGMENT_STATE_BLEACH
            /\ withinRetryLimitFrom env (drv wx) T SEGMENT_STATE_COLOR).
  { intros wx Qx.
    destruct (quietSince_fields _ _ Qx) as (Sx & Px & _ & Nx & _).
    split; [apply (wellFormed_quietSince w3); assumption|].
    split; [apply (distinctPins_quietSince w3);
            [exact Qx | rewrite D3; exact Hdp]|].
    split; [apply Qx|]. split; [rewrite Nx; exact Hi3|].
    split; [rewrite Px, D3; reflexivity|].
    split; [rewrite Sx, S3; exact Hst|].
    split; apply (withinRetryLimitFrom_quietSince env w3);
      try exact Qx; rewrite D3; assumption. }
  destruct (Hview w4 Q4) as (Hwf4 & Hdp4 & Hf4 & Hi4 & Hp4 & Hs4 & HB4 & _).
  assert (HU4 : unchangedAfter (drv w4) T w4).
  { split; [reflexivity|]. rewrite L4, Lc1, Lc. subst T. lia. }
  destruct (neutralStep_drv_views _ _ Nc4) as (_ & Fl4 & _).
  destruct Nc4 as (_ & _ & Pu4 & Sa4).
  (* the bleach loop *)
  apply runsTo_bind. eapply runsTo_weaken.
  { apply (retryLoop_one_pass SEGMENT_STATE_BLEACH
             (fun v => Qltb (m_refreshBleachLimitL (drv w4)) (inject_Z v))
             _ T w4 i fuel needed.2 Hdp4 Hi4 Hfuel Hf4 HU4).
    eapply (runsTo_hoare _ _ (unchangedAfter (drv w4) T)).
    - apply (refreshBleachIteration_quiet MAX_REFRESH_RETRIES env no_request
               0 w4 _ Hwf4 Hf4 eq_refl).
    - apply refreshBleachIteration_settles. exact HB4.
    - exact HU4. }
  intros [] wb (Qb & (Db & Tb) & Pb & Sb). cbv beta.
  apply runsTo_bind, runsTo_get.
  step_by enableCounterElectrode_len. intros [] w5 (N5 & L5).
  assert (Q5 : quietSince w3 w5).
  { eapply quietSince_neutral; [|exact N5]. etransitivity; eassumption. }
  destruct (Hview w5 Q5) as (Hwf5 & Hdp5 & Hf5 & Hi5 & Hp5 & Hs5 & _ & HC5).
  assert (D5 : drv w5 = drv w4) by (destruct N5 as (D & _); congruence).
  assert (HU5 : unchangedAfter (drv w5) T w5).
  { split; [reflexivity|]. rewrite L5. lia. }
  destruct N5 as (D5b & _ & Pu5 & Sa5).
  rewrite <- D5b.
  (* the color loop *)
  apply runsTo_bind. eapply runsTo_weaken.
  { apply (retryLoop_one_pass SEGMENT_STATE_COLOR
             (fun v => Qltb (inject_Z v) (m_refreshColorLimitH (drv w5)))
             _ T w5 i fuel needed.1 Hdp5 Hi5 Hfuel Hf5 HU5).
    eapply (runsTo_hoare _ _ (unchangedAfter (drv w5) T)).
    - apply (refreshColorIteration_quiet MAX_REFRESH_RETRIES env no_request
               0 w5 _ Hwf5 Hf5).
    - apply refreshColorIteration_settles. exact HC5.
    - exact HU5. }
  intros [] w6 (Q6 & (D6 & T6) & P6 & S6). cbv beta.
  eapply runsTo_weaken; [apply disableCounterElectrode_neutral|].
  intros [] w7 N7. cbv beta.
  destruct (neutralStep_drv_views _ _ N7) as (_ & Fl7 & _).
  destruct N7 as (_ & _ & Pu7 & Sa7).
  (* accounts *)
  assert (Fw4 : flagOf w4 i = true) by (rewrite Fl4; exact Fc).
  assert (Fw5 : flagOf w5 i = true) by (unfold flagOf; rewrite D5; exact Fw4).
  assert (Fw7 : flagOf w7 i = true).
  { rewrite Fl7. unfold flagOf. rewrite D6. exact Fw5. }
  rewrite Hp4 in Pb, Sb. rewrite Hp5 in P6, S6.
  rewrite Pu7, Sa7, P6, S6, Pu5, Sa5, Pb, Sb, Pu4, Sa4, Pc, Sac.
  unfold pulsed. rewrite Hs4, Hs5, Fw4, Fw5.
  rewrite !(bool_decide_eq_true_2 (true = true)) by reflexivity.
  rewrite !andb_true_r.
  assert (Hsame : forall s : SegState, bool_decide (s = s) = true)
    by (intros s; apply bool_decide_eq_true_2; reflexivity).
  assert (Hbc : bool_decide (SEGMENT_STATE_BLEACH = SEGMENT_STATE_COLOR)
                = false) by (apply bool_decide_eq_false_2; discriminate).
  assert (Hcb : bool_decide (SEGMENT_STATE_COLOR = SEGMENT_STATE_BLEACH)
                = false) by (apply bool_decide_eq_false_2; discriminate).
  split; [|split; [|exact Fw7]].
  - destruct phase; cbn [neededFor] in Nc; [| |discriminate];
      rewrite Nc, Hsame, ?Hbc, ?Hcb, ?andb_false_r; cbn [andb]; lia.
  - destruct phase; cbn [neededFor] in Nc; [| |discriminate];
      rewrite Nc, Hsame, ?Hbc, ?Hcb; cbn [andb]; rewrite ?andb_false_r;
      destruct (bool_decide (0 < MAX_REFRESH_RETRIES)%Z); lia.
Qed.

End OnePulse.

(** ** The properties on the concrete display *)

Module ExampleFacts.

Import Example.

Lemma quietEnv_quiet a b : forall k : nat, irq (quietEnv a b) k = false.
Proof. intros k. reflexivity. Qed.

Lemma driverOf_distinctPins n cur next flags :
  n <= 3 -> distinctPins (driverOf n cur next flags).
Proof.
  intros Hn i j Hi Hj. unfold numSegments in Hi, Hj. cbn in Hi, Hj.
  assert (Hi3 : (i < 3)%nat) by lia. assert (Hj3 : (j < 3)%nat) by lia.
  destruct i as [|[|[|i]]]; [| | |lia];
    destruct j as [|[|[|j]]]; try lia;
    vm_compute; intros H; try reflexivity; discriminate.
Qed.

Lemma bleached_distinctPins b : distinctPins (drv (bleached b)).
Proof. apply driverOf_distinctPins. lia. Qed.


Lemma mixed_wellFormed : wellFormed (drv mixed).
Proof. repeat split; vm_compute; lia. Qed.

Lemma bleached_wellFormed b : wellFormed (drv (bleached b)).
Proof. repeat split; vm_compute; lia. Qed.


(** C1 on the example: the three segments reach their next states. *)
Lemma executeDisplay_reaches_next_state_witness :
  wellFormed (drv mixed)
  /\ fst (execute (quietEnv 300 300) mixed) = Done tt
  /\ forall i : nat, (i < 3)%nat ->
       m_nextState (drv mixed) !!! i <> SEGMENT_STATE_UNDEFINED ->
       m_currentState (drv (snd (execute (quietEnv 300 300) mixed))) !!! i
       = m_nextState (drv mixed) !!! i.
Proof.
  split; [exact mixed_wellFormed|]. split; [vm_compute; reflexivity|].
  apply (proj1 (executeDisplay_reaches_next_state ADC_DAC_MAX_LSB
                  MAX_REFRESH_RETRIES (quietEnv 300 300) 10 mixed
                  (snd (execute (quietEnv 300 300) mixed))
                  mixed_wellFormed ltac:(vm_compute; reflexivity))).
Defined.



(** C7 on the example. *)
Lemma executeDisplay_idempotent_witness :
  fst (execute (quietEnv 300 300) mixed) = Done tt
  /\ plan SEGMENT_STATE_BLEACH
       (drv (snd (execute (quietEnv 300 300) mixed))) = []
  /\ m_currentState
       (drv (snd (execute (quietEnv 300 300)
                    (snd (execute (quietEnv 300 300) mixed)))))
     = m_currentState (drv (snd (execute (quietEnv 300 300) mixed))).
Proof.
  split; [vm_compute; reflexivity|].
  destruct (executeDisplay_idempotent ADC_DAC_MAX_LSB MAX_REFRESH_RETRIES
              (quietEnv 300 300) 10 10 mixed
              (snd (execute (quietEnv 300 300) mixed))
              (snd (execute (quietEnv 300 300)
                      (snd (execute (quietEnv 300 300) mixed))))
              (fst (execute (quietEnv 300 300)
                      (snd (execute (quietEnv 300 300) mixed))))
              mixed_wellFormed
              ltac:(vm_compute; reflexivity)
              ltac:(vm_compute; reflexivity))
    as (A & _ & B & _).
  split; [exact A | exact B].
Defined.

(** C8 on the example. *)
Lemma setSegmentState_frame_witness :
  (1 < numSegments (drv mixed))%nat
  /\ exists w' : World,
       setSegmentState 1 false mixed = (Done tt, w')
       /\ m_nextState (drv w') !! 1%nat = Some SEGMENT_STATE_BLEACH
       /\ events w' = events mixed.
Proof.
  assert (H : (1 < numSegments (drv mixed))%nat) by (vm_compute; lia).
  split; [exact H|].
  destruct (setSegmentState_frame mixed 1 false H mixed_wellFormed)
    as (w' & E & A & _ & _ & B & _).
  exists w'. split; [exact E|]. split; [exact A | exact B].
Defined.

(** C2 on the example: four pulses for a cap of three retries. *)
Lemma refreshDisplay_retry_cap_witness :
  exists w' : World,
    cappedRun = (Done tt, w')
    /\ pulsesOn 2 w' = 4%nat /\ samplesOn 2 w' = 4%nat.
Proof.
  destruct (refreshDisplay_retry_cap ADC_DAC_MAX_LSB MAX_REFRESH_RETRIES
              (quietEnv 1000 1000) 10 (bleached false) 0
              SEGMENT_STATE_BLEACH
              (quietEnv_quiet 1000 1000) (bleached_wellFormed false)
              (bleached_distinctPins false)
              eq_refl ltac:(vm_compute; lia) ltac:(vm_compute; discriminate)
              ltac:(vm_compute; lia) eq_refl
              ltac:(intros t; vm_compute; reflexivity)
              ltac:(intros t; vm_compute; reflexivity))
    as (w' & E & P & S & _).
  exists w'. split; [exact E|]. split; [exact P | exact S].
Defined.

(** The count the claim gives, [MAX_REFRESH_RETRIES], is not the count of
    the run. *)
Lemma refreshDisplay_retry_cap_counterexample :
  fst cappedRun = Done tt
  /\ (forall t : nat,
        classifyOut SEGMENT_STATE_BLEACH (drv (bleached false))
          (adc (quietEnv 1000 1000) t 2) = true
        /\ retryOut SEGMENT_STATE_BLEACH (drv (bleached false))
             (adc (quietEnv 1000 1000) t 2) = true)
  /\ pulsesOn 2 (snd cappedRun) = 4%nat
  /\ pulsesOn 2 (snd cappedRun) <> Z.to_nat MAX_REFRESH_RETRIES
  /\ samplesOn 2 (snd cappedRun) = 4%nat.
Proof.
  split; [vm_compute; reflexivity|].
  split; [intros t; split; vm_compute; reflexivity|].
  split; [vm_compute; reflexivity|].
  split; [vm_compute; lia | vm_compute; reflexivity].
Qed.



(** C9 on the example: flagged segment 0 reads 100, within its limits,
    and is driven because segment 1 starts the bleach loop. *)
Lemma refresh_flags_are_never_cleared_witness :
  flagOf (bleached true) 0 = true
  /\ (forall t : nat,
        classifyOut SEGMENT_STATE_BLEACH (drv (bleached true))
          (adc (quietEnv 100 1000) t 2) = false)
  /\ exists w' : World,
       refresh (quietEnv 100 1000) (bleached true) = (Done tt, w')
       /\ (1 <= pulsesOn 2 w')%nat.
Proof.
  split; [reflexivity|]. split; [intros t; vm_compute; reflexivity|].
  destruct (proj2 (proj2
              (refresh_flags_are_never_cleared ADC_DAC_MAX_LSB
                 MAX_REFRESH_RETRIES (quietEnv 100 1000) 10 (bleached true)
                 0 1 SEGMENT_STATE_BLEACH))
              (quietEnv_quiet 100 1000) (bleached_wellFormed true)
              (bleached_distinctPins true)
              eq_refl ltac:(vm_compute; lia) ltac:(vm_compute; lia)
              ltac:(vm_compute; lia) eq_refl eq_refl eq_refl
              ltac:(intros t; vm_compute; reflexivity))
    as (w' & E & _ & P).
  exists w'. split; [exact E | exact P].
Defined.

(** A call in which the color loop runs, and the flagged bleached segment
    is not driven. *)
Lemma refresh_flags_are_never_cleared_counterexample :
  flagOf flaggedBleachedAndColored 0 = true
  /\ fst otherPhaseRun = Done tt
  /\ pulsesOn 3 (snd otherPhaseRun) = 4%nat
  /\ flagOf (snd otherPhaseRun) 0 = true
  /\ pulsesOn 2 (snd otherPhaseRun) = 0%nat.
Proof. repeat split; vm_compute; reflexivity. Qed.

(** C10 on the example: segment 0 reads 300, below
    [m_refreshBleachLimitH] and above [m_refreshBleachLimitL]. *)
Lemma refreshDisplay_flags_in_retry_loop_witness :
  flagOf (bleached false) 0 = false
  /\ exists w' : World,
       refresh (quietEnv 300 1000) (bleached false) = (Done tt, w')
       /\ flagOf w' 0 = true /\ pulsesOn 2 w' = 3%nat.
Proof.
  split; [reflexivity|].
  destruct (refreshDisplay_flags_in_retry_loop ADC_DAC_MAX_LSB
              MAX_REFRESH_RETRIES (quietEnv 300 1000) 10 (bleached false)
              0 1 SEGMENT_STATE_BLEACH
              (quietEnv_quiet 300 1000) (bleached_wellFormed false)
              (bleached_distinctPins false)
              eq_refl ltac:(vm_compute; lia) ltac:(vm_compute; discriminate)
              ltac:(vm_compute; lia) ltac:(vm_compute; lia)
              eq_refl eq_refl eq_refl
              ltac:(intros t; vm_compute; reflexivity)
              ltac:(intros t; vm_compute; reflexivity)
              ltac:(intros t; vm_compute; reflexivity))
    as (w' & E & F & P & _).
  exists w'. split; [exact E|]. split; [exact F | exact P].
Defined.

(** C5 fails on the early return: [refreshDisplay] finds both segments
    in range and returns with the counter electrode still at the mid-rail
    value written on entry, not at zero. *)
Theorem refreshDisplay_early_return_leaves_counter_electrode_enabled :
  fst idleRun = Returned NoRefreshNeeded
  /\ lastAnalogWrite PIN_CE (events (snd idleRun)) = Some 511
  /\ lastAnalogWrite PIN_CE (events (snd idleRun)) <> Some 0
  /\ fst cappedRun = Done tt
  /\ lastAnalogWrite PIN_CE (events (snd cappedRun)) = Some 0.
Proof.
  split; [vm_compute; reflexivity|]. split; [vm_compute; reflexivity|].
  split; [vm_compute; discriminate|].
  split; vm_compute; reflexivity.
Qed.

End ExampleFacts.

(** ** The further properties on the concrete display *)

Module ScenarioFacts.

Import Example.
Import Scenario.

Lemma driverOf_apart n cur next flags :
  n <= 3 -> counterElectrodeApart (driverOf n cur next flags).
Proof.
  intros Hn i Hi. unfold numSegments in Hi. cbn in Hi.
  assert (Hi3 : (i < 3)%nat) by lia.
  destruct i as [|[|[|i]]]; [| | |lia]; vm_compute; discriminate.
Qed.

Lemma mixed_distinctPins : distinctPins (drv mixed).
Proof. apply ExampleFacts.driverOf_distinctPins. lia. Qed.

(** A refresh that drove both segments four times leaves pin 2 in high
    impedance. *)
Lemma refreshDisplay_leaves_segments_highZ_witness :
  counterElectrodeApart (drv (bleached false))
  /\ fst cappedRun = Done tt
  /\ highZ 2 (events (snd cappedRun)) = true.
Proof.
  assert (Ha : counterElectrodeApart (drv (bleached false)))
    by (apply driverOf_apart; lia).
  split; [exact Ha|]. split; [vm_compute; reflexivity|].
  apply (refreshDisplay_leaves_segments_highZ ADC_DAC_MAX_LSB
           MAX_REFRESH_RETRIES (quietEnv 1000 1000) 10 (bleached false)
           (snd cappedRun) (Done tt) Ha
           ltac:(vm_compute; reflexivity)
           (or_introl eq_refl) 0 ltac:(vm_compute; lia)).
Defined.

(** After the three transitions of [mixed], pin 4 is in high impedance. *)
Lemma executeDisplay_leaves_segments_highZ_witness :
  counterElectrodeApart (drv mixed)
  /\ fst (execute (quietEnv 300 300) mixed) = Done tt
  /\ highZ 4 (events (snd (execute (quietEnv 300 300) mixed))) = true.
Proof.
  assert (Ha : counterElectrodeApart (drv mixed))
    by (apply driverOf_apart; lia).
  split; [exact Ha|]. split; [vm_compute; reflexivity|].
  apply (executeDisplay_leaves_segments_highZ ADC_DAC_MAX_LSB
           MAX_REFRESH_RETRIES (quietEnv 300 300) 10 mixed
           (snd (execute (quietEnv 300 300) mixed)) Ha
           ltac:(vm_compute; reflexivity) 2 ltac:(vm_compute; lia)).
Defined.

(** Four units of fuel are enough for a cap of three retries. *)
Lemma refresh_loops_end_within_cap_witness :
  (Z.to_nat MAX_REFRESH_RETRIES < 4)%nat
  /\ fst (refreshDisplay ADC_DAC_MAX_LSB MAX_REFRESH_RETRIES
            (quietEnv 1000 1000) 4 (bleached false)) <> OutOfFuel.
Proof.
  assert (H : (Z.to_nat MAX_REFRESH_RETRIES < 4)%nat) by (vm_compute; lia).
  split; [exact H|].
  apply (proj1 (refresh_loops_end_within_cap ADC_DAC_MAX_LSB
                  MAX_REFRESH_RETRIES (quietEnv 1000 1000) 4
                  (bleached false) H)).
Defined.

(** The constructor on three segments. *)
Lemma constructor_initialises_segments_witness :
  exists w' : World,
    YNV_ECD PIN_CE ADC_DAC_RESOLUTION 3 [2; 3; 4] rawStorage = (Done tt, w')
    /\ m_segmentPinsList (drv w') !! 1%nat = Some 3
    /\ m_currentState (drv w') !! 1%nat = Some SEGMENT_STATE_UNDEFINED
    /\ settled (drv w').
Proof.
  destruct (constructor_initialises_segments PIN_CE ADC_DAC_RESOLUTION 3
              [2; 3; 4] rawStorage
              ltac:(vm_compute; lia) ltac:(vm_compute; lia)
              ltac:(vm_compute; lia) ltac:(vm_compute; lia))
    as (w' & E & _ & _ & _ & _ & Hin & _ & _ & Hset & _).
  exists w'. split; [exact E|].
  destruct (Hin 1%nat ltac:(vm_compute; lia)) as (A & B & _).
  split; [exact A|]. split; [exact B | exact Hset].
Defined.

(** [executeDisplay] on a stopped display. *)
Lemma stop_flag_set_on_entry_witness :
  m_stopDrivingFlag (drv stopped) = true
  /\ execute (quietEnv 300 300) stopped
     = (Returned StopRequested,
        mkWorld (drv stopped) [EvDelay 50; EvAnalogWrite 14 204] 1).
Proof.
  split; [reflexivity|].
  destruct (stop_flag_set_on_entry ADC_DAC_MAX_LSB MAX_REFRESH_RETRIES
              (quietEnv 300 300) 10 stopped eq_refl
              ltac:(vm_compute; lia)) as (_ & E & _).
  exact E.
Defined.

(** Segment 1 of [mixed] has nothing to reach and keeps its state in the
    stopped call. *)
Lemma executeDisplay_leaves_unrequested_segments_witness :
  m_nextState (drv mixed) !!! 1%nat = m_currentState (drv mixed) !!! 1%nat
  /\ fst stoppedRun = Returned StopRequested
  /\ m_currentState (drv (snd stoppedRun)) !!! 1%nat
     = m_currentState (drv mixed) !!! 1%nat.
Proof.
  split; [reflexivity|]. split; [vm_compute; reflexivity|].
  apply (executeDisplay_leaves_unrequested_segments ADC_DAC_MAX_LSB
           MAX_REFRESH_RETRIES (stopEnv 4) 10 mixed (snd stoppedRun)
           (fst stoppedRun) 1 ExampleFacts.mixed_wellFormed
           ltac:(vm_compute; reflexivity) ltac:(vm_compute; lia)
           (or_introl eq_refl)).
Defined.

(** [begin] on [mixed]. *)
Lemma begin_bleaches_every_segment_witness :
  exists w' : World,
    start (quietEnv 300 300) mixed = (Done tt, w')
    /\ m_currentState (drv w') !!! 1%nat = SEGMENT_STATE_BLEACH.
Proof.
  destruct (begin_bleaches_every_segment ADC_DAC_MAX_LSB MAX_REFRESH_RETRIES
              (quietEnv 300 300) 10 mixed
              (ExampleFacts.quietEnv_quiet 300 300)
              ExampleFacts.mixed_wellFormed mixed_distinctPins eq_refl
              ltac:(vm_compute; lia))
    as (w' & E & Hall & _).
  exists w'. split; [exact E|].
  apply (Hall 1%nat). vm_compute. lia.
Defined.

(** The stopped call of [mixed], resumed. *)
Lemma clearStopDriving_resumes_witness :
  fst stoppedRun = Returned StopRequested
  /\ exists w2 w3 : World,
       clearStopDriving (snd stoppedRun) = (Done tt, w2)
       /\ execute (quietEnv 300 300) w2 = (Done tt, w3)
       /\ m_currentState (drv w3) !!! 2%nat = SEGMENT_STATE_COLOR.
Proof.
  split; [vm_compute; reflexivity|].
  destruct (clearStopDriving_resumes ADC_DAC_MAX_LSB MAX_REFRESH_RETRIES
              (stopEnv 4) (quietEnv 300 300) 10 10 mixed (snd stoppedRun)
              ExampleFacts.mixed_wellFormed mixed_distinctPins
              ltac:(vm_compute; reflexivity)
              (ExampleFacts.quietEnv_quiet 300 300)
              ltac:(vm_compute; lia))
    as (_ & _ & w2 & w3 & E2 & E3 & Hreach).
  exists w2, w3. split; [exact E2|]. split; [exact E3|].
  apply (Hreach 2%nat); [vm_compute; lia | vm_compute; discriminate].
Defined.

Lemma mixed_voltagesWithinSupply : voltagesWithinSupply (drv mixed).
Proof.
  unfold voltagesWithinSupply. cbn.
  repeat split; vm_compute; congruence.
Qed.

(** The writes of [executeDisplay] on [mixed]. *)
Lemma counter_electrode_writes_in_range_witness :
  0 <= ADC_DAC_MAX_LSB
  /\ voltagesWithinSupply (drv mixed)
  /\ inRangeSince ADC_DAC_MAX_LSB mixed
       (snd (execute (quietEnv 300 300) mixed)).
Proof.
  assert (H : 0 <= ADC_DAC_MAX_LSB) by (vm_compute; discriminate).
  split; [exact H|]. split; [exact mixed_voltagesWithinSupply|].
  apply (proj1 (proj2 (counter_electrode_writes_in_range ADC_DAC_MAX_LSB
                         MAX_REFRESH_RETRIES (quietEnv 300 300) 10 mixed H
                         mixed_voltagesWithinSupply))).
Defined.

Lemma bleached_settled b : settled (drv (bleached b)).
Proof.
  intros i Hi. unfold numSegments in Hi. cbn in Hi.
  destruct i as [|[|i]]; [reflexivity | reflexivity | lia].
Qed.

(** Coloring segment 0 of the bleached display drives pin 2 alone. *)
Lemma one_changed_segment_drives_one_pin_witness :
  settled (drv (bleached false))
  /\ exists w' wd : World,
       execute (quietEnv 900 300) oneRequest = (Done tt, w')
       /\ driveDisplay ADC_DAC_MAX_LSB (quietEnv 900 300) oneRequest
          = (Done tt, wd)
       /\ trace wd
          = [EvAnalogWrite 14 204; EvDelay 50;
             EvPinMode 2 INPUT; EvPinMode 3 INPUT;
             EvAnalogWrite 14 409; EvDelay 50;
             EvPinMode 2 OUTPUT; EvDigitalWrite 2 true; EvDelay 1000;
             EvPinMode 2 INPUT; EvPinMode 3 INPUT;
             EvAnalogWrite 14 0]
       /\ m_currentState (drv w') !!! 0%nat = SEGMENT_STATE_COLOR
       /\ m_currentState (drv w') !!! 1%nat = SEGMENT_STATE_BLEACH.
Proof.
  split; [apply bleached_settled|].
  destruct (one_changed_segment_drives_one_pin ADC_DAC_MAX_LSB
              MAX_REFRESH_RETRIES (quietEnv 900 300) 10 (bleached false)
              (snd (execute (quietEnv 900 300) oneRequest)) 0 true
              (ExampleFacts.bleached_wellFormed false)
              (bleached_settled false)
              ltac:(vm_compute; lia) ltac:(vm_compute; discriminate)
              ltac:(vm_compute; reflexivity))
    as (Hst & wd & Ed & Htr & _).
  exists (snd (execute (quietEnv 900 300) oneRequest)), wd.
  split; [vm_compute; reflexivity|]. split; [exact Ed|].
  split; [rewrite Htr; vm_compute; reflexivity|].
  split; [apply (Hst 0%nat) | apply (Hst 1%nat)]; vm_compute; lia.
Defined.


Lemma stepEnv_quiet T a b : forall k : nat, irq (stepEnv T a b) k = false.
Proof. intros k. reflexivity. Qed.

Lemma recovering_within phase :
  withinRetryLimitFrom (stepEnv 8 1000 100) (drv (bleached false)) 8 phase.
Proof.
  intros j Hj Hs t Ht. unfold numSegments in Hj. cbn in Hj.
  assert (E : adc (stepEnv 8 1000 100) t (pinOf (drv (bleached false)) j)
              = 100).
  { unfold stepEnv. cbn [adc].
    destruct (Nat.ltb_spec t 8); [lia | reflexivity]. }
  rewrite E.
  destruct j as [|[|j]]; [| |lia]; vm_compute in Hs; subst phase;
    vm_compute; reflexivity.
Qed.

(** Both bleached segments read 1000 during the check and 100 after it:
    one pulse and two samples on pin 2. *)
Lemma refreshDisplay_one_pulse_suffices_witness :
  exists w' : World,
    recoveringRun = (Done tt, w')
    /\ pulsesOn 2 w' = 1%nat /\ samplesOn 2 w' = 2%nat
    /\ flagOf w' 0 = true.
Proof.
  destruct (refreshDisplay_one_pulse_suffices ADC_DAC_MAX_LSB
              MAX_REFRESH_RETRIES (stepEnv 8 1000 100)
              (stepEnv_quiet 8 1000 100) 10 (bleached false) 0
              SEGMENT_STATE_BLEACH
              (ExampleFacts.bleached_wellFormed false)
              (ExampleFacts.bleached_distinctPins false)
              eq_refl ltac:(lia) ltac:(vm_compute; lia) eq_refl)
    as (w' & E & P & S & F).
  - intros t Ht. change (t < 8)%nat in Ht.
    assert (E : adc (stepEnv 8 1000 100) t
                  (pinOf (drv (bleached false)) 0) = 1000).
    { unfold stepEnv. cbn [adc].
      destruct (Nat.ltb_spec t 8); [reflexivity | lia]. }
    rewrite E. vm_compute. reflexivity.
  - apply recovering_within.
  - apply recovering_within.
  - exists w'. split; [exact E|]. split; [exact P|]. split; [exact S | exact F].
Defined.

End ScenarioFacts.
